(** * digbuild: the procedural world generator (src/world_generator.cc)

    A shallow embedding of [WorldGenerator] and [RegionFeatures]:
    region and column synthesis, material layering, cave carving and the
    vegetation pass.  [Scalar] is C++ [float], modelled as IEEE-754
    binary32 data with the operations of the standard library's
    [SpecFloat]; [unsigned] is a 32-bit integer whose wrap-around is
    written out; the growing [ChunkV] is a list indexed with stdpp's
    lookup, a chunk's block buffer and the height map are finite maps.

    The arithmetic on [int] coordinates is done in [Z] without wrap-around
    (signed overflow is undefined in C++ and the coordinates of a region
    stay far away from it). *)

From Stdlib Require Import ZArith QArith Qround Lia Bool List Sorted.
From Stdlib Require Import Floats.SpecFloat.
From stdpp Require Import base option list gmap.

Local Open Scope Z_scope.

(** ** Scalars *)

Module Float.

(** [float]: 24 bits of precision, infinities at exponent 128. *)
Definition prec : Z := 24.
Definition emax : Z := 128.

Definition Scalar : Type := spec_float.

Definition add : Scalar -> Scalar -> Scalar := SFadd prec emax.
Definition sub : Scalar -> Scalar -> Scalar := SFsub prec emax.
Definition mul : Scalar -> Scalar -> Scalar := SFmul prec emax.
Definition div : Scalar -> Scalar -> Scalar := SFdiv prec emax.
Definition abs : Scalar -> Scalar := SFabs.

(** Conversion of an [int] or an [unsigned] to [float]: the nearest
    binary32 value, ties to even. *)
Definition of_int (n : Z) : Scalar := binary_normalize prec emax n 0 false.

(** The literals of the source. *)
Definition lit_0_25 : Scalar := Eval vm_compute in binary_normalize prec emax 1 (-2) false.
Definition lit_1 : Scalar := Eval vm_compute in of_int 1.
Definition lit_20 : Scalar := Eval vm_compute in of_int 20.
Definition lit_32 : Scalar := Eval vm_compute in of_int 32.
Definition lit_52 : Scalar := Eval vm_compute in of_int 52.
Definition lit_58 : Scalar := Eval vm_compute in of_int 58.
Definition lit_62 : Scalar := Eval vm_compute in of_int 62.
Definition lit_63 : Scalar := Eval vm_compute in of_int 63.

(** The [double] literals [0.45] and [0.55] of the carving test: the
    binary64 values nearest to 45/100 and 55/100. *)
Definition dbl_0_45 : spec_float :=
  Eval vm_compute in SFdiv 53 1024 (binary_normalize 53 1024 45 0 false)
                                   (binary_normalize 53 1024 100 0 false).
Definition dbl_0_55 : spec_float :=
  Eval vm_compute in SFdiv 53 1024 (binary_normalize 53 1024 55 0 false)
                                   (binary_normalize 53 1024 100 0 false).

(** The rational a finite datum stands for ([0] for the others). *)
Definition signif (x : spec_float) : Z :=
  match x with
  | S754_finite s m _ => if s then Z.neg m else Z.pos m
  | _ => 0
  end.

Definition expo (x : spec_float) : Z :=
  match x with
  | S754_finite _ _ e => e
  | _ => 0
  end.

Definition to_Q (x : spec_float) : Q :=
  if 0 <=? expo x
  then inject_Z (signif x * 2 ^ expo x)
  else Qmake (signif x) (2 ^ Z.to_pos (- expo x))%positive.

(** IEEE-754 comparison: by sign for the infinities, by value for the
    rest, unordered when a NaN takes part.  It compares values, so it
    also is the comparison of a [float] with a [double] (the promotion
    of a [float] to [double] is exact). *)
Definition compare (x y : spec_float) : option comparison :=
  match x, y with
  | S754_nan, _ | _, S754_nan => None
  | S754_infinity s1, S754_infinity s2 =>
      Some (if s1 then (if s2 then Eq else Lt) else (if s2 then Gt else Eq))
  | S754_infinity s, _ => Some (if s then Lt else Gt)
  | _, S754_infinity s => Some (if s then Gt else Lt)
  | _, _ => Some (to_Q x ?= to_Q y)%Q
  end.

Definition ltb (x y : spec_float) : bool :=
  match compare x y with Some Lt => true | _ => false end.

Definition gtb (x y : spec_float) : bool := ltb y x.

(** [std::max(a, b)] is [(a < b) ? b : a]. *)
Definition max (a b : Scalar) : Scalar := if ltb a b then b else a.

(** [roundf]: to the nearest integer, halfway cases away from zero. *)
Definition roundf (x : Scalar) : Scalar :=
  match x with
  | S754_finite s m e =>
      if 0 <=? e then x
      else
        let n := (Z.pos m + 2 ^ (- e - 1)) / 2 ^ (- e) in
        binary_normalize prec emax (if s then - n else n) 0 s
  | _ => x
  end.

(** [unsigned( x )]: truncation towards zero; the conversion is
    undefined when the truncated value is no [unsigned] (and for NaN and
    the infinities). *)
Definition to_unsigned (x : Scalar) : option Z :=
  match x with
  | S754_zero _ => Some 0
  | S754_finite _ _ e =>
      let t := Z.quot (signif x * 2 ^ Z.max e 0) (2 ^ Z.max (- e) 0) in
      if (0 <=? t) && (t <? 2 ^ 32) then Some t else None
  | _ => None
  end.

Definition is_finite (x : spec_float) : bool :=
  match x with
  | S754_zero _ | S754_finite _ _ _ => true
  | _ => false
  end.

(** A datum of binary32: canonical mantissa and exponent. *)
Definition is_binary32 (x : spec_float) : bool := valid_binary prec emax x.

End Float.

Abbreviation Scalar := Float.Scalar.

(** ** Machine integers *)

Definition to_unsigned (v : Z) : Z := v mod 2 ^ 32.
Definition to_int (v : Z) : Z := (v + 2 ^ 31) mod 2 ^ 32 - 2 ^ 31.

(** ** Vectors *)

Definition Vector2i : Type := Z * Z.
Definition Vector3i : Type := Z * Z * Z.
Definition Vector2f : Type := Scalar * Scalar.
Definition Vector3f : Type := Scalar * Scalar * Scalar.

Definition Vector2i_add (a b : Vector2i) : Vector2i := (a.1 + b.1, a.2 + b.2).
Definition Vector2i_sub (a b : Vector2i) : Vector2i := (a.1 - b.1, a.2 - b.2).

(** ** Blocks and chunks *)

Inductive BlockMaterial : Type :=
| BLOCK_MATERIAL_AIR
| BLOCK_MATERIAL_MAGMA
| BLOCK_MATERIAL_BEDROCK
| BLOCK_MATERIAL_STONE
| BLOCK_MATERIAL_CLAY
| BLOCK_MATERIAL_DIRT
| BLOCK_MATERIAL_GRASS
| BLOCK_MATERIAL_TREE_TRUNK
| BLOCK_MATERIAL_TREE_LEAF.

#[global] Instance BlockMaterial_eq_dec : EqDecision BlockMaterial.
Proof. solve_decision. Defined.

(** Modelled from the spec: chunk.h is not among the sources.  A chunk is a
    block buffer at an integer origin; a freshly allocated chunk holds empty
    (air) cells only, so the buffer is a finite map of the cells that were
    given a material, read with air as the default. *)
Record Chunk : Type := {
  chunk_position : Vector3i;
  chunk_blocks : gmap (Z * Z * Z) BlockMaterial
}.

Definition new_Chunk (position : Vector3i) : Chunk :=
  {| chunk_position := position; chunk_blocks := ∅ |}.

Definition Chunk_material (c : Chunk) (cell : Z * Z * Z) : BlockMaterial :=
  default BLOCK_MATERIAL_AIR (chunk_blocks c !! cell).

Definition Chunk_set_material (cell : Z * Z * Z) (m : BlockMaterial) (c : Chunk) : Chunk :=
  {| chunk_position := chunk_position c;
     chunk_blocks := <[cell := m]> (chunk_blocks c) |}.

Abbreviation ChunkV := (list Chunk).

(** [ChunkHeightmap] is an array of [int] indexed by the in-chunk X and Z.
    Modelled from the spec: the type is declared in a header that is not
    among the sources; the spec has the map produced as a side effect of
    layering and consumed by the vegetation pass, so the map written by
    [generate_chunk_column] is the one [populate_trees] reads (a C array
    parameter is a pointer to the caller's array).  An entry that was never
    written has no value. *)
Abbreviation ChunkHeightmap := (gmap (Z * Z) Z).

(** A [Block&]: the chunk of the column and the cell inside it. *)
Record BlockRef : Type := {
  ref_chunk : nat;
  ref_cell : Z * Z * Z
}.

#[global] Instance BlockRef_eq_dec : EqDecision BlockRef.
Proof. solve_decision. Defined.

Definition get_material (chunks : ChunkV) (b : BlockRef) : BlockMaterial :=
  match chunks !! ref_chunk b with
  | Some c => Chunk_material c (ref_cell b)
  | None => BLOCK_MATERIAL_AIR
  end.

Definition set_material (b : BlockRef) (m : BlockMaterial) (chunks : ChunkV) : ChunkV :=
  alter (Chunk_set_material (ref_cell b) m) (ref_chunk b) chunks.

(** ** Outcomes

    What C++ leaves undefined ends the run with a fault. *)

Inductive fault : Type :=
| ChunkIndexOutOfRange   (* chunks[chunk_index] past the end of the vector *)
| BlockOutsideChunk      (* a block index outside the chunk's buffer *)
| UndefinedConversion    (* a float with no unsigned value converted to unsigned *)
| OctaveIndexOutOfRange  (* an octave patch outside the 2 x 2 array *)
| IndeterminateHeight    (* a height map entry read before it was written *)
| EmptyDistribution.     (* uniform_int with min > max *)

#[global] Instance fault_eq_dec : EqDecision fault.
Proof. solve_decision. Defined.

Inductive result (A : Type) : Type :=
| Ok (a : A)
| Fault (f : fault).

Arguments Ok {A} a.
Arguments Fault {A} f.

#[global] Instance result_ret : MRet result := fun A a => Ok a.

#[global] Instance result_bind : MBind result := fun A B k r =>
  match r with
  | Ok a => k a
  | Fault f => Fault f
  end.

(** A [for] loop over the values [l], threading the state [s]. *)
Fixpoint for_each {S A : Type} (l : list A) (body : A -> S -> result S) (s : S) : result S :=
  match l with
  | [] => Ok s
  | a :: l' => s' ← body a s; for_each l' body s'
  end.

(** [for ( i = lo; i <= hi; ++i )] *)
Definition range (lo hi : Z) : list Z := seqZ lo (hi - lo + 1).

(** ** What the sources use and do not hold

    The constants of chunk.h and world_generator.h, the noise primitives
    of random.h and boost's generator are taken as parameters: every
    theorem on the generator holds for each value of them. *)

Class Constants : Type := {
  SIZE_X : Z;                 (* Chunk::SIZE_X *)
  SIZE_Y : Z;                 (* Chunk::SIZE_Y *)
  SIZE_Z : Z;                 (* Chunk::SIZE_Z *)
  REGION_SIZE : Z;            (* WorldGenerator::REGION_SIZE *)
  BICUBIC_OCTAVE_EDGE : Z;    (* RegionFeatures::BICUBIC_OCTAVE_EDGE *)
  TRILINEAR_BOX_HEIGHT : Z    (* RegionFeatures::TRILINEAR_BOX_HEIGHT *)
}.

(** Height, x-derivative, z-derivative and cross-derivative ranges of one
    corner, and the four corners of a patch. *)
Definition BicubicPatchCornerFeatures : Type := Vector2f * Vector2f * Vector2f * Vector2f.
Definition BicubicPatchFeatures : Type :=
  BicubicPatchCornerFeatures * BicubicPatchCornerFeatures *
  BicubicPatchCornerFeatures * BicubicPatchCornerFeatures.

Class Noise : Type := {
  BicubicPatch : Type;
  BicubicPatch_new : Z -> Vector2i -> Vector2i -> BicubicPatchFeatures -> BicubicPatch;
  BicubicPatch_interpolate : BicubicPatch -> Vector2f -> Scalar;
  TrilinearBox : Type;
  TrilinearBox_new : Z -> Vector3i -> Vector3i -> Z -> TrilinearBox;
  TrilinearBox_interpolate : TrilinearBox -> Vector3f -> Scalar;
  get_seed_for_coordinates : Z -> Vector2i -> Z
}.

(** [boost::rand48] behind [boost::uniform_int]: a draw returns the value
    and the generator's next state. *)
Class Random : Type := {
  rand48 : Type;
  rand48_seed : Z -> rand48;
  uniform_int : Z -> Z -> rand48 -> Z * rand48
}.

Section Generator.
Context {constants : Constants} {noise : Noise} {random : Random}.

(** ** RegionFeatures *)

Record RegionFeatures : Type := {
  fundamental_patch_ : BicubicPatch;
  octave_patches_00 : BicubicPatch;
  octave_patches_01 : BicubicPatch;
  octave_patches_10 : BicubicPatch;
  octave_patches_11 : BicubicPatch;
  boxes_0 : TrilinearBox;
  boxes_1 : TrilinearBox
}.

Definition TRILINEAR_BOX_SIZE : Vector3i :=
  (REGION_SIZE, TRILINEAR_BOX_HEIGHT, REGION_SIZE).

Definition RegionFeatures_new (world_seed : Z) (position : Vector2i)
    (fundamental_features octave_features : BicubicPatchFeatures) : RegionFeatures :=
  let octave_size : Vector2i := (BICUBIC_OCTAVE_EDGE, BICUBIC_OCTAVE_EDGE) in
  let octave_seed := Z.lxor world_seed 0xfea873529eaf in
  {| fundamental_patch_ :=
       BicubicPatch_new world_seed position (REGION_SIZE, REGION_SIZE) fundamental_features;
     octave_patches_00 :=
       BicubicPatch_new octave_seed (Vector2i_add position (0, 0)) octave_size octave_features;
     octave_patches_01 :=
       BicubicPatch_new octave_seed (Vector2i_add position (0, BICUBIC_OCTAVE_EDGE))
                        octave_size octave_features;
     octave_patches_10 :=
       BicubicPatch_new octave_seed (Vector2i_add position (BICUBIC_OCTAVE_EDGE, 0))
                        octave_size octave_features;
     octave_patches_11 :=
       BicubicPatch_new octave_seed
                        (Vector2i_add position (BICUBIC_OCTAVE_EDGE, BICUBIC_OCTAVE_EDGE))
                        octave_size octave_features;
     boxes_0 :=
       TrilinearBox_new world_seed (position.1, 0, position.2) TRILINEAR_BOX_SIZE 32;
     boxes_1 :=
       TrilinearBox_new (Z.lxor world_seed 0x313535f3235) (position.1, 0, position.2)
                        TRILINEAR_BOX_SIZE 32 |}.

Definition get_fundamental_patch (features : RegionFeatures) : BicubicPatch :=
  fundamental_patch_ features.

(** [octave_patches_[index[0]][index[1]]], a 2 x 2 array. *)
Definition get_octave_patch (features : RegionFeatures) (index : Vector2i) : option BicubicPatch :=
  match index with
  | (0, 0) => Some (octave_patches_00 features)
  | (0, 1) => Some (octave_patches_01 features)
  | (1, 0) => Some (octave_patches_10 features)
  | (1, 1) => Some (octave_patches_11 features)
  | _ => None
  end.

Definition get_box (features : RegionFeatures) (index : nat) : TrilinearBox :=
  match index with
  | O => boxes_0 features
  | _ => boxes_1 features
  end.

(** ** WorldGenerator::get_block *)

Definition get_block (chunks : ChunkV) (column_position : Vector2i) (x z height : Z)
    : result (BlockRef * ChunkV) :=
  let x := to_unsigned x in
  let z := to_unsigned z in
  let height := to_unsigned height in
  let chunk_index := height / SIZE_Y in
  let chunks :=
    if Z.of_nat (length chunks) <=? chunk_index
    then chunks ++ [new_Chunk (column_position.1, to_int height, column_position.2)]
    else chunks in
  if chunk_index <? Z.of_nat (length chunks) then
    (* Chunk::get_block( Vector3i( x, height % Chunk::SIZE_Y, z ) ) *)
    if (0 <=? to_int x) && (to_int x <? SIZE_X) && (0 <=? to_int z) && (to_int z <? SIZE_Z)
    then Ok ({| ref_chunk := Z.to_nat chunk_index;
                ref_cell := (to_int x, height mod SIZE_Y, to_int z) |}, chunks)
    else Fault BlockOutsideChunk
  else Fault ChunkIndexOutOfRange.

(** The block [get_block] answers with for the cell [(x, height, z)], and
    the material of that block (air where no chunk was allocated). *)
Definition block_ref (x z height : Z) : BlockRef :=
  {| ref_chunk := Z.to_nat (to_unsigned height / SIZE_Y);
     ref_cell := (to_int (to_unsigned x), to_unsigned height mod SIZE_Y,
                  to_int (to_unsigned z)) |}.

Definition material_at (chunks : ChunkV) (x y z : Z) : BlockMaterial :=
  get_material chunks (block_ref x z y).

(** ** WorldGenerator::generate_chunk_column *)

(** The position the patches are sampled at, and the total height of a
    block column. *)
Definition fundamental_position (relative_position : Vector2i) : Vector2f :=
  (Float.div (Float.of_int relative_position.1) (Float.of_int REGION_SIZE),
   Float.div (Float.of_int relative_position.2) (Float.of_int REGION_SIZE)).

Definition octave_index (relative_position : Vector2i) : Vector2i :=
  (Z.quot relative_position.1 BICUBIC_OCTAVE_EDGE,
   Z.quot relative_position.2 BICUBIC_OCTAVE_EDGE).

Definition octave_position (relative_position : Vector2i) : Vector2f :=
  (Float.div (Float.of_int (Z.rem relative_position.1 BICUBIC_OCTAVE_EDGE))
             (Float.of_int BICUBIC_OCTAVE_EDGE),
   Float.div (Float.of_int (Z.rem relative_position.2 BICUBIC_OCTAVE_EDGE))
             (Float.of_int BICUBIC_OCTAVE_EDGE)).

Definition total_height_at (features : RegionFeatures) (relative_position : Vector2i)
    : result Scalar :=
  let fundamental_height :=
    BicubicPatch_interpolate (get_fundamental_patch features)
                             (fundamental_position relative_position) in
  match get_octave_patch features (octave_index relative_position) with
  | None => Fault OctaveIndexOutOfRange
  | Some octave_patch =>
      let octave_height :=
        Float.abs (BicubicPatch_interpolate octave_patch (octave_position relative_position)) in
      Ok (Float.sub (Float.add Float.lit_32 fundamental_height) octave_height)
  end.

Definition layers (total_height : Scalar) : list (BlockMaterial * Scalar) :=
  [ (BLOCK_MATERIAL_MAGMA,   Float.lit_1);
    (BLOCK_MATERIAL_BEDROCK, Float.add Float.lit_20 (Float.mul total_height Float.lit_0_25));
    (BLOCK_MATERIAL_STONE,   Float.add Float.lit_52 (Float.mul total_height Float.lit_1));
    (BLOCK_MATERIAL_CLAY,    Float.add Float.lit_58 (Float.mul total_height Float.lit_1));
    (BLOCK_MATERIAL_DIRT,    Float.add Float.lit_62 (Float.mul total_height Float.lit_1));
    (BLOCK_MATERIAL_GRASS,   Float.add Float.lit_63 (Float.mul total_height Float.lit_1)) ].

Definition box_position (relative_position : Vector2i) (y : Z) : Vector3f :=
  (Float.div (Float.of_int relative_position.1) (Float.of_int TRILINEAR_BOX_SIZE.1.1),
   Float.div (Float.of_int y) (Float.of_int TRILINEAR_BOX_SIZE.1.2),
   Float.div (Float.of_int relative_position.2) (Float.of_int TRILINEAR_BOX_SIZE.2)).

(** [densityA > 0.45 && densityA < 0.55 && densityB > 0.45 && densityB < 0.55] *)
Definition in_window (densityA densityB : Scalar) : bool :=
  Float.gtb densityA Float.dbl_0_45 && Float.ltb densityA Float.dbl_0_55 &&
  Float.gtb densityB Float.dbl_0_45 && Float.ltb densityB Float.dbl_0_55.

(** The body of the loop over [y]: one cell of a band. *)
Definition layer_block (features : RegionFeatures) (column_position relative_position : Vector2i)
    (x z : Z) (material : BlockMaterial) (y : Z) (chunks : ChunkV) : result ChunkV :=
  '(block, chunks) ← get_block chunks column_position x z y;
  let box_position := box_position relative_position y in
  if decide (material ≠ BLOCK_MATERIAL_MAGMA) then
    let densityA := TrilinearBox_interpolate (get_box features 0) box_position in
    let densityB := TrilinearBox_interpolate (get_box features 1) box_position in
    if in_window densityA densityB
    then Ok (set_material block BLOCK_MATERIAL_AIR chunks)
    else Ok (set_material block material chunks)
  else Ok (set_material block material chunks).

(** The top of a band: [unsigned( roundf( std::max( layers[i].second,
    Scalar( bottom + 1 ) ) ) )]. *)
Definition band_top (second : Scalar) (bottom : Z) : option Z :=
  let height := Float.max second (Float.of_int (to_unsigned (bottom + 1))) in
  Float.to_unsigned (Float.roundf height).

(** The tops the loop over the layers computes, band after band. *)
Fixpoint band_tops (ls : list (BlockMaterial * Scalar)) (bottom : Z) : option (list Z) :=
  match ls with
  | [] => Some []
  | (_, second) :: ls' =>
      top ← band_top second bottom;
      tops ← band_tops ls' top;
      Some (top :: tops)
  end.

(** The loop over the layers, from the layer list that is left and the
    current [bottom]; it returns the last [bottom]. *)
Fixpoint layer_bands (features : RegionFeatures) (column_position relative_position : Vector2i)
    (x z : Z) (ls : list (BlockMaterial * Scalar)) (bottom : Z) (chunks : ChunkV)
    : result (Z * ChunkV) :=
  match ls with
  | [] => Ok (bottom, chunks)
  | (material, second) :: ls' =>
      match band_top second bottom with
      | None => Fault UndefinedConversion
      | Some top =>
          chunks ← for_each (range bottom top)
                     (layer_block features column_position relative_position x z material)
                     chunks;
          layer_bands features column_position relative_position x z ls' top chunks
      end
  end.

(** The body of the loops over [x] and [z]: one block column. *)
Definition generate_block_column (features : RegionFeatures)
    (region_position column_position : Vector2i) (x z : Z)
    (state : ChunkV * ChunkHeightmap) : result (ChunkV * ChunkHeightmap) :=
  let relative_position :=
    Vector2i_add (Vector2i_sub column_position region_position) (x, z) in
  total_height ← total_height_at features relative_position;
  '(bottom, chunks) ← layer_bands features column_position relative_position x z
                        (layers total_height) 0 state.1;
  Ok (chunks, <[(x, z) := to_int bottom]> state.2).

Definition generate_chunk_column (chunks : ChunkV) (features : RegionFeatures)
    (region_position column_position : Vector2i) (heights : ChunkHeightmap)
    : result (ChunkV * ChunkHeightmap) :=
  for_each (range 0 (SIZE_X - 1))
    (fun x => for_each (range 0 (SIZE_Z - 1))
       (fun z => generate_block_column features region_position column_position x z))
    (chunks, heights).

(** ** WorldGenerator::populate_trees *)

Definition MIN_TREE_RADIUS : Z := 3.
Definition MAX_TREE_RADIUS : Z := 5.
Definition MIN_TREE_HEIGHT : Z := 8.
Definition MAX_TREE_HEIGHT : Z := 24.
Definition TREES_PER_CHUNK : Z := 1.

(** The body of the loops over [u] and [v]: one cell of the canopy. *)
Definition place_leaf (column_position : Vector2i) (x z bottom y u v : Z) (chunks : ChunkV)
    : result ChunkV :=
  if decide (u ≠ 0 ∨ v ≠ 0) then
    '(leaf_block, chunks) ← get_block chunks column_position (x + u) (z + v) (bottom + y);
    if decide (get_material chunks leaf_block = BLOCK_MATERIAL_AIR)
    then Ok (set_material leaf_block BLOCK_MATERIAL_TREE_LEAF chunks)
    else Ok chunks
  else Ok chunks.

(** The body of the loop over [y]: one level of the tree. *)
Definition grow_level (column_position : Vector2i) (x z bottom height radius y : Z)
    (chunks : ChunkV) : result ChunkV :=
  '(trunk_block, chunks) ← get_block chunks column_position x z (bottom + y);
  let chunks := set_material trunk_block BLOCK_MATERIAL_TREE_TRUNK chunks in
  let leaf_height := y - (height - radius - 1) in
  if 0 <=? leaf_height then
    for_each (range (- radius + leaf_height) (radius - leaf_height))
      (fun u => for_each (range (- radius + leaf_height) (radius - leaf_height))
         (fun v => place_leaf column_position x z bottom y u v))
      chunks
  else Ok chunks.

(** The body of the loop over the trees of a chunk: the four draws come
    from the one generator, in the order of the declarations. *)
Definition plant_tree (column_position : Vector2i) (heights : ChunkHeightmap)
    (state : rand48 * ChunkV) : result (rand48 * ChunkV) :=
  let '(x, g) := uniform_int MAX_TREE_RADIUS (SIZE_X - MAX_TREE_RADIUS - 1) state.1 in
  let '(z, g) := uniform_int MAX_TREE_RADIUS (SIZE_Z - MAX_TREE_RADIUS - 1) g in
  let '(height, g) := uniform_int MIN_TREE_HEIGHT MAX_TREE_HEIGHT g in
  let '(radius, g) := uniform_int MIN_TREE_RADIUS MAX_TREE_RADIUS g in
  match heights !! (x, z) with
  | None => Fault IndeterminateHeight
  | Some bottom =>
      '(bottom_block, chunks) ← get_block state.2 column_position x z bottom;
      if decide (get_material chunks bottom_block = BLOCK_MATERIAL_GRASS) then
        chunks ← for_each (range 1 (height - 1))
                   (grow_level column_position x z bottom height radius) chunks;
        Ok (g, chunks)
      else Ok (g, chunks)
  end.

(** Where the first tree of a column is tried: the first two draws. *)
Definition tree_site (world_seed_ : Z) (column_position : Vector2i) : Z * Z :=
  let tree_generator := rand48_seed (get_seed_for_coordinates world_seed_ column_position) in
  let '(x, g) := uniform_int MAX_TREE_RADIUS (SIZE_X - MAX_TREE_RADIUS - 1) tree_generator in
  let '(z, g) := uniform_int MAX_TREE_RADIUS (SIZE_Z - MAX_TREE_RADIUS - 1) g in
  (x, z).

Definition populate_trees (world_seed_ : Z) (chunks : ChunkV) (column_position : Vector2i)
    (heights : ChunkHeightmap) : result ChunkV :=
  let tree_generator := rand48_seed (get_seed_for_coordinates world_seed_ column_position) in
  (* boost::uniform_int requires min <= max *)
  if (MAX_TREE_RADIUS <=? SIZE_X - MAX_TREE_RADIUS - 1) &&
     (MAX_TREE_RADIUS <=? SIZE_Z - MAX_TREE_RADIUS - 1) then
    state ← for_each (range 0 (TREES_PER_CHUNK - 1))
              (fun _ => plant_tree column_position heights) (tree_generator, chunks);
    Ok state.2
  else Fault EmptyDistribution.

(** ** WorldGenerator::generate_region *)

Record WorldGenerator : Type := { world_seed_ : Z }.

(** [WorldGenerator( const uint64_t world_seed )] *)
Definition WorldGenerator_new (world_seed : Z) : WorldGenerator :=
  {| world_seed_ := world_seed mod 2 ^ 64 |}.

Definition CHUNKS_PER_REGION_EDGE : Vector2i :=
  (Z.quot REGION_SIZE SIZE_X, Z.quot REGION_SIZE SIZE_Z).

Definition range_f (lo hi : Z) : Vector2f := (Float.of_int lo, Float.of_int hi).

Definition fundamental_corner_features : BicubicPatchCornerFeatures :=
  (range_f 0 128, range_f (-64) 64, range_f (-64) 64, range_f (-64) 64).

Definition fundamental_features : BicubicPatchFeatures :=
  (fundamental_corner_features, fundamental_corner_features,
   fundamental_corner_features, fundamental_corner_features).

Definition octave_corner_features : BicubicPatchCornerFeatures :=
  (range_f (-32) 32, range_f (-64) 64, range_f (-64) 64, range_f (-64) 64).

Definition octave_features : BicubicPatchFeatures :=
  (octave_corner_features, octave_corner_features,
   octave_corner_features, octave_corner_features).

(** The body of the loops over the chunk columns of a region. *)
Definition generate_column (world_seed_ : Z) (region_features : RegionFeatures)
    (position : Vector2i) (x z : Z) (chunks : ChunkV) : result ChunkV :=
  let column_position := Vector2i_add position (x * SIZE_X, z * SIZE_Z) in
  let heights : ChunkHeightmap := ∅ in
  let column_chunks : ChunkV := [] in
  '(column_chunks, heights) ←
     generate_chunk_column column_chunks region_features position column_position heights;
  column_chunks ← populate_trees world_seed_ column_chunks column_position heights;
  Ok (chunks ++ column_chunks).

(** The method is not [const]: it returns the chunks and the generator as
    the call leaves it. *)
Definition generate_region (this : WorldGenerator) (position : Vector2i)
    : result ChunkV * WorldGenerator :=
  let region_features :=
    RegionFeatures_new (world_seed_ this) position fundamental_features octave_features in
  (for_each (range 0 (CHUNKS_PER_REGION_EDGE.1 - 1))
     (fun x => for_each (range 0 (CHUNKS_PER_REGION_EDGE.2 - 1))
        (fun z => generate_column (world_seed_ this) region_features position x z))
     [],
   this).

(** [ChunkHeightmap heights;] has no initializer: when the body of the
    loops is entered the array holds what earlier calls left in its
    memory.  [generate_column_from] is that body with the contents the
    array starts from given: an entry is read as it was left until
    [generate_chunk_column] writes it.  ([generate_column] is the body on an
    array none of whose entries has a value, where reading an entry that was
    never written is a fault.) *)
Definition generate_column_from (leftover : ChunkHeightmap) (world_seed_ : Z)
    (region_features : RegionFeatures) (position : Vector2i) (x z : Z) (chunks : ChunkV)
    : result ChunkV :=
  let column_position := Vector2i_add position (x * SIZE_X, z * SIZE_Z) in
  let heights : ChunkHeightmap := leftover in
  let column_chunks : ChunkV := [] in
  '(column_chunks, heights) ←
     generate_chunk_column column_chunks region_features position column_position heights;
  column_chunks ← populate_trees world_seed_ column_chunks column_position heights;
  Ok (chunks ++ column_chunks).

(** [generate_region] with the contents the array [heights] starts from in
    the chunk column [(x, z)] of the loops given as [leftover x z]. *)
Definition generate_region_from (leftover : Z -> Z -> ChunkHeightmap)
    (this : WorldGenerator) (position : Vector2i) : result ChunkV * WorldGenerator :=
  let region_features :=
    RegionFeatures_new (world_seed_ this) position fundamental_features octave_features in
  (for_each (range 0 (CHUNKS_PER_REGION_EDGE.1 - 1))
     (fun x => for_each (range 0 (CHUNKS_PER_REGION_EDGE.2 - 1))
        (fun z => generate_column_from (leftover x z) (world_seed_ this) region_features
                    position x z))
     [],
   this).

(** Successive calls on one generator. *)
Fixpoint generate_regions (this : WorldGenerator) (positions : list Vector2i)
    : list (result ChunkV) * WorldGenerator :=
  match positions with
  | [] => ([], this)
  | position :: positions' =>
      let '(chunks, this) := generate_region this position in
      let '(rest, this) := generate_regions this positions' in
      (chunks :: rest, this)
  end.

End Generator.

(** ** BicubicPatch, from the specification *)

Module SpecModel.

(** Modelled from the spec: [BicubicPatch] and the seeded random stream
    (random.h and its implementation are not among the sources).  The
    construction "samples one scalar value per corner via [next_uniform]
    seeded by [derive(seed, anchor + corner_offset)]", the corners being
    "low-X/low-Z, high-X/low-Z, high-X/high-Z, low-X/high-Z", and
    [interpolate] is a "smoothstep-based [...] blending of the four corner
    values".  The mixing function [derive] and the generator behind
    [next_uniform] are left open by the spec and are parameters here; a
    corner value is drawn from the first (height) range of the corner's
    features. *)
Section Patch.
Variable derive : Z -> Vector2i -> Z.
Variable next_uniform : Z -> Scalar -> Scalar -> Scalar.

Record BicubicPatch : Type := {
  corner_00 : Scalar;   (* low-X / low-Z *)
  corner_10 : Scalar;   (* high-X / low-Z *)
  corner_11 : Scalar;   (* high-X / high-Z *)
  corner_01 : Scalar    (* low-X / high-Z *)
}.

Definition sample_corner (seed : Z) (position : Vector2i)
    (features : BicubicPatchCornerFeatures) : Scalar :=
  let height_range := features.1.1.1 in
  next_uniform (derive seed position) height_range.1 height_range.2.

Definition BicubicPatch_new (seed : Z) (anchor size : Vector2i)
    (features : BicubicPatchFeatures) : BicubicPatch :=
  {| corner_00 := sample_corner seed (Vector2i_add anchor (0, 0)) features.1.1.1;
     corner_10 := sample_corner seed (Vector2i_add anchor (size.1, 0)) features.1.1.2;
     corner_11 := sample_corner seed (Vector2i_add anchor (size.1, size.2)) features.1.2;
     corner_01 := sample_corner seed (Vector2i_add anchor (0, size.2)) features.2 |}.

Definition lit_0 : Scalar := S754_zero false.
Definition lit_2 : Scalar := Eval vm_compute in Float.of_int 2.
Definition lit_3 : Scalar := Eval vm_compute in Float.of_int 3.

(** [t * t * (3 - 2 * t)] *)
Definition smoothstep (t : Scalar) : Scalar :=
  Float.mul (Float.mul t t) (Float.sub lit_3 (Float.mul lit_2 t)).

(** [a * (1 - w) + b * w] *)
Definition blend (a b w : Scalar) : Scalar :=
  Float.add (Float.mul a (Float.sub Float.lit_1 w)) (Float.mul b w).

Definition interpolate (patch : BicubicPatch) (position : Vector2f) : Scalar :=
  let wx := smoothstep position.1 in
  let wz := smoothstep position.2 in
  blend (blend (corner_00 patch) (corner_10 patch) wx)
        (blend (corner_01 patch) (corner_11 patch) wx)
        wz.

End Patch.

(** A corner value is a number of binary32, not an infinity and not a
    NaN. *)
Definition is_number (x : Scalar) : bool := Float.is_finite x && Float.is_binary32 x.

Definition corners_are_numbers (patch : BicubicPatch) : Prop :=
  is_number (corner_00 patch) = true /\ is_number (corner_10 patch) = true /\
  is_number (corner_11 patch) = true /\ is_number (corner_01 patch) = true.

(** The same number: the same datum, or two zeros ([+0 == -0]). *)
Definition same_number (x y : Scalar) : Prop :=
  x = y \/ (exists s s', x = S754_zero s /\ y = S754_zero s').

(** The noise primitives with the patches of the specification, and
    density boxes of one density everywhere. *)
Definition noise (derive : Z -> Vector2i -> Z)
    (next_uniform : Z -> Scalar -> Scalar -> Scalar) (density : Scalar) : Noise :=
  Build_Noise BicubicPatch (BicubicPatch_new derive next_uniform) interpolate
              unit (fun _ _ _ _ => tt) (fun _ _ => density) derive.

End SpecModel.

(** ** A sample configuration

    Values for the parameters, to run the generator on: chunks of
    16 x 16 x 16 blocks, regions of 128 x 128 blocks, the patches of the
    specification over a stream that draws the low end of every range,
    density boxes of one density, and a linear congruential generator. *)

Module Sample.

Definition constants : Constants :=
  {| SIZE_X := 16; SIZE_Y := 16; SIZE_Z := 16;
     REGION_SIZE := 128; BICUBIC_OCTAVE_EDGE := 64; TRILINEAR_BOX_HEIGHT := 256 |}.

Definition derive (seed : Z) (position : Vector2i) : Z :=
  Z.lxor seed (Z.lxor (position.1 * 73856093) (position.2 * 19349663)).

Definition next_uniform (seed : Z) (low high : Scalar) : Scalar := low.

(** Boxes of one density everywhere: [solid] never meets the cave test,
    [hollow] always does. *)
Definition noise_of_density (density : Scalar) : Noise :=
  SpecModel.noise derive next_uniform density.

Definition lit_0_5 : Scalar :=
  Eval vm_compute in binary_normalize Float.prec Float.emax 1 (-1) false.

Definition solid : Noise := noise_of_density (S754_zero false).
Definition hollow : Noise := noise_of_density lit_0_5.

Definition random : Random :=
  {| rand48 := Z;
     rand48_seed := fun seed => Z.lor (Z.shiftl (seed mod 2 ^ 32) 16) 0x330E;
     uniform_int := fun lo hi g =>
       let g' := (g * 0x5DEECE66D + 0xB) mod 2 ^ 48 in
       (lo + Z.shiftr g' 17 mod (hi - lo + 1), g') |}.

(** Sample inputs: the features of the region at the origin for the world
    seed 42, a column whose only block is grass at the tree site (6, 10)
    of that seed, its height map, and a patch of four different corners. *)
Definition solid_features : @RegionFeatures solid :=
  @RegionFeatures_new constants solid 42 (0, 0) fundamental_features octave_features.

Definition hollow_features : @RegionFeatures hollow :=
  @RegionFeatures_new constants hollow 42 (0, 0) fundamental_features octave_features.

Definition fundamental_patch_at (position : Vector2i) : SpecModel.BicubicPatch :=
  @get_fundamental_patch solid
    (@RegionFeatures_new constants solid 42 position fundamental_features octave_features).

Definition ground : ChunkV :=
  [Chunk_set_material (6, 3, 10) BLOCK_MATERIAL_GRASS (new_Chunk (0, 0, 0))].

Definition ground_heights : ChunkHeightmap := {[ (6, 10) := 3 ]}.

Definition slope : SpecModel.BicubicPatch :=
  {| SpecModel.corner_00 := Float.lit_20; SpecModel.corner_10 := Float.lit_32;
     SpecModel.corner_11 := Float.lit_52; SpecModel.corner_01 := Float.lit_58 |}.

End Sample.

(** * Predicates of the statements *)

(** [holds E Φ r]: the run [r] ends in a state with [Φ], or with a fault
    of [E]. *)
Definition holds {A : Type} (E : fault -> Prop) (Φ : A -> Prop) (r : result A) : Prop :=
  match r with
  | Ok a => Φ a
  | Fault f => E f
  end.

(** A mantissa of at most 24 bits. *)
Definition short (x : spec_float) : Prop :=
  match x with
  | S754_finite _ m _ => Z.pos m < 2 ^ 24
  | _ => True
  end.

(** The value of [x] is at least the integer [N]. *)
Definition at_least (x : spec_float) (N : Z) : Prop :=
  N * 2 ^ Z.max (- Float.expo x) 0 <= Float.signif x * 2 ^ Z.max (Float.expo x) 0.

(** An integer that a float of 24 bits holds: [m * 2^e]. *)
Definition short_int (t : Z) : Prop :=
  exists m e, 0 <= e /\ 0 <= m < 2 ^ 24 /\ t = m * 2 ^ e.

(** A number of binary32 below [2^M] in magnitude. *)
Definition below (M : Z) (x : Scalar) : Prop :=
  SpecModel.is_number x = true /\
  match x with
  | S754_finite _ m e => Z.pos (digits2_pos m) + e <= M
  | _ => True
  end.

(** The value of [x] is at most the integer [N]. *)
Definition at_most (x : spec_float) (N : Z) : Prop :=
  Float.signif x * 2 ^ Z.max (Float.expo x) 0 <= N * 2 ^ Z.max (- Float.expo x) 0.

(** Each top lies at least one block above the top before it. *)
Fixpoint bands_grow (bottom : Z) (tops : list Z) : Prop :=
  match tops with
  | [] => True
  | top :: tops' => bottom + 1 <= top /\ bands_grow top tops'
  end.

(** Each top lies on or above the top before it, and at least one block
    above it while [bottom + 1] is below 2^24, where a float holds it
    exactly. *)
Fixpoint bands_ascend (bottom : Z) (tops : list Z) : Prop :=
  match tops with
  | [] => True
  | top :: tops' =>
      bottom <= top /\ (bottom + 1 < 2 ^ 24 -> bottom + 1 <= top) /\ bands_ascend top tops'
  end.

(** The rule of the cave carving in the words of the specification: a
    density lies in the window when it is a number strictly between 0.45
    and 0.55; a cell of a band other than magma whose two densities lie in
    the window is air, every other cell has the material of its band. *)
Definition Qltb (a b : Q) : bool := negb (Qle_bool b a).

Definition strictly_inside (density : Scalar) : bool :=
  Float.is_finite density &&
  Qltb (9 # 20) (Float.to_Q density) && Qltb (Float.to_Q density) (11 # 20).

Definition carved_material (material : BlockMaterial) (densityA densityB : Scalar)
    : BlockMaterial :=
  if decide (material = BLOCK_MATERIAL_MAGMA) then BLOCK_MATERIAL_MAGMA
  else if strictly_inside densityA && strictly_inside densityB then BLOCK_MATERIAL_AIR
  else material.

Section Predicates.
Context {constants : Constants} {noise : Noise} {random : Random}.

(** The faults other than an access past the end of the chunk vector. *)
Definition in_vector (f : fault) : Prop := f ≠ ChunkIndexOutOfRange.

(** The heights up to [h] lie in allocated chunks, or [h] is the first
    height of the chunk that comes next. *)
Definition reached (chunks : ChunkV) (h : Z) : Prop :=
  h <= Z.of_nat (length chunks) * SIZE_Y.

Definition heights_reached (chunks : ChunkV) (heights : ChunkHeightmap) : Prop :=
  forall k b, heights !! k = Some b -> reached chunks (to_unsigned b).

(** The faults other than a block index outside the chunk's buffer. *)
Definition inside_chunk (f : fault) : Prop := f ≠ BlockOutsideChunk.

(** What boost documents of [uniform_int]: a draw lies between [min] and
    [max]. *)
Definition uniform_int_in_range : Prop :=
  forall lo hi g, lo <= hi -> lo <= (uniform_int lo hi g).1 <= hi.

(** What a vegetation pass may do to the block [r] of a column that held
    [chunks0]: leave it, make it trunk, or make it leaf where it was air. *)
Definition grown_from (chunks0 chunks : ChunkV) : Prop :=
  forall r : BlockRef,
    get_material chunks r = get_material chunks0 r \/
    get_material chunks r = BLOCK_MATERIAL_TREE_TRUNK \/
    (get_material chunks r = BLOCK_MATERIAL_TREE_LEAF /\
     get_material chunks0 r = BLOCK_MATERIAL_AIR).

Definition same_materials (chunks0 chunks : ChunkV) : Prop :=
  forall r : BlockRef, get_material chunks r = get_material chunks0 r.

Definition any_fault (f : fault) : Prop := True.

(** The material the layering gives the cell at height [y] of a band. *)
Definition cell_material (features : RegionFeatures) (relative_position : Vector2i)
    (material : BlockMaterial) (y : Z) : BlockMaterial :=
  if decide (material ≠ BLOCK_MATERIAL_MAGMA) then
    if in_window
         (TrilinearBox_interpolate (get_box features 0) (box_position relative_position y))
         (TrilinearBox_interpolate (get_box features 1) (box_position relative_position y))
    then BLOCK_MATERIAL_AIR else material
  else material.

(** No block of the block column [(x, z)] was given a material. *)
Definition column_untouched (chunks : ChunkV) (x z : Z) : Prop :=
  forall y, 0 <= y < 2 ^ 32 -> material_at chunks x y z = BLOCK_MATERIAL_AIR.

(** The height map entry of the block column [(x, z)] is the top of its
    grass band: the block there is grass, or air where the cave test
    carved it, and the blocks above it are air. *)
Definition surface_recorded (features : RegionFeatures)
    (region_position column_position : Vector2i)
    (chunks : ChunkV) (heights : ChunkHeightmap) (x z : Z) : Prop :=
  exists top,
    heights !! (x, z) = Some (to_int top) /\ 0 <= top < 2 ^ 32 /\
    material_at chunks x top z =
      cell_material features
        (Vector2i_add (Vector2i_sub column_position region_position) (x, z))
        BLOCK_MATERIAL_GRASS top /\
    forall y, top < y < 2 ^ 32 -> material_at chunks x y z = BLOCK_MATERIAL_AIR.

(** The state of the loops over the block columns: the columns that are
    done have their surface recorded, the others are untouched. *)
Definition columns_done (features : RegionFeatures)
    (region_position column_position : Vector2i) (done : Z -> Z -> Prop)
    (state : ChunkV * ChunkHeightmap) : Prop :=
  forall x z, 0 <= x < SIZE_X -> 0 <= z < SIZE_Z ->
    (done x z ->
     surface_recorded features region_position column_position state.1 state.2 x z) /\
    (~ done x z -> column_untouched state.1 x z).

End Predicates.

(** The corner values of a patch are numbers below [2^M] in magnitude. *)
Definition corners_below (M : Z) (patch : SpecModel.BicubicPatch) : Prop :=
  below M (SpecModel.corner_00 patch) /\ below M (SpecModel.corner_10 patch) /\
  below M (SpecModel.corner_11 patch) /\ below M (SpecModel.corner_01 patch).

(** A component of a sampling position inside the normalized domain:
    [0 <= x <= 1]. *)
Definition in_unit_interval (x : Scalar) : bool :=
  negb (Float.ltb x (S754_zero false)) && negb (Float.ltb Float.lit_1 x) &&
  Float.is_finite x.

(** ** The layering of a block column *)

(** The band a height of a block column is left in when the loops over the
    layers are over.  The loop of a band runs from the top of the band
    before it - a cell that band wrote already - up to its own top, so a
    height belongs to the last band whose loop passed it. *)
Fixpoint band_at (bands : list (BlockMaterial * Z)) (bottom y : Z) : option BlockMaterial :=
  match bands with
  | [] => None
  | (material, top) :: bands' =>
      match band_at bands' top y with
      | Some later => Some later
      | None => if (bottom <=? y) && (y <=? top) then Some material else None
      end
  end.

Section Layering.
Context {constants : Constants} {noise : Noise} {random : Random}.

(** The materials of a block column whose bedrock, stone, clay, dirt and
    grass bands end at [t1 .. t5] (the magma band ends at 1), from the
    bottom up; [relative_position] is the column's offset in its region. *)
Definition column_material (features : RegionFeatures) (relative_position : Vector2i)
    (t1 t2 t3 t4 t5 y : Z) : BlockMaterial :=
  if y =? 0 then BLOCK_MATERIAL_MAGMA
  else if y <? t1 then cell_material features relative_position BLOCK_MATERIAL_BEDROCK y
  else if y <? t2 then cell_material features relative_position BLOCK_MATERIAL_STONE y
  else if y <? t3 then cell_material features relative_position BLOCK_MATERIAL_CLAY y
  else if y <? t4 then cell_material features relative_position BLOCK_MATERIAL_DIRT y
  else if y <=? t5 then cell_material features relative_position BLOCK_MATERIAL_GRASS y
  else BLOCK_MATERIAL_AIR.

(** The block column [(x, z)] is layered: its height map entry is the top
    of the grass band and each of its blocks has the material of its
    band. *)
Definition column_layered (features : RegionFeatures)
    (region_position column_position : Vector2i)
    (chunks : ChunkV) (heights : ChunkHeightmap) (x z : Z) : Prop :=
  let relative_position :=
    Vector2i_add (Vector2i_sub column_position region_position) (x, z) in
  exists total_height t1 t2 t3 t4 t5,
    total_height_at features relative_position = Ok total_height /\
    band_tops (layers total_height) 0 = Some [1; t1; t2; t3; t4; t5] /\
    2 <= t1 <= t2 /\ t2 <= t3 <= t4 /\ t4 <= t5 < 2 ^ 32 /\ 6 <= t5 /\
    heights !! (x, z) = Some (to_int t5) /\
    forall y, 0 <= y < 2 ^ 32 ->
      material_at chunks x y z = column_material features relative_position t1 t2 t3 t4 t5 y.

(** The state of the loops over the block columns: the columns that are
    done are layered, the others are untouched and have no height. *)
Definition columns_layered (features : RegionFeatures)
    (region_position column_position : Vector2i) (done : Z -> Z -> Prop)
    (state : ChunkV * ChunkHeightmap) : Prop :=
  forall x z, 0 <= x < SIZE_X -> 0 <= z < SIZE_Z ->
    (done x z ->
     column_layered features region_position column_position state.1 state.2 x z) /\
    (~ done x z -> column_untouched state.1 x z).

End Layering.

(** ** The chunk grid *)

Section Grid.
Context {constants : Constants} {noise : Noise} {random : Random}.

(** The chunks of a column stand on the chunk grid: the chunk at index [i]
    of the vector has its origin at the column's position and at the
    height [i * SIZE_Y]. *)
Definition on_grid (column_position : Vector2i) (chunks : ChunkV) : Prop :=
  forall (i : nat) (c : Chunk), chunks !! i = Some c ->
    chunk_position c =
    (column_position.1, to_int (Z.of_nat i * SIZE_Y), column_position.2).

(** The chunk columns of the region at [position], in the order the loops
    of [generate_region] take them. *)
Definition region_columns (position : Vector2i) : list Vector2i :=
  concat (map (fun x => map (fun z => Vector2i_add position (x * SIZE_X, z * SIZE_Z))
                            (range 0 (CHUNKS_PER_REGION_EDGE.2 - 1)))
              (range 0 (CHUNKS_PER_REGION_EDGE.1 - 1))).

(** A stack of chunks of the chunk column at [column_position]: at least
    one chunk, the chunks on the grid from height 0 up. *)
Definition column_stack (column_position : Vector2i) (chunks : ChunkV) : Prop :=
  chunks ≠ [] /\ on_grid column_position chunks.

End Grid.

(** ** Runs that return *)

(** No fault at all: [holds no_fault Φ r] says that the run [r] returns,
    in a state with [Φ]. *)
Definition no_fault (f : fault) : Prop := False.

Section Bounded.
Context {constants : Constants} {noise : Noise} {random : Random}.

(** At every position of the region the patches are sampled at, they give
    a number below 2^14 in magnitude. *)
Definition heights_bounded (features : RegionFeatures) : Prop :=
  forall relative_position : Vector2i,
    0 <= relative_position.1 < REGION_SIZE -> 0 <= relative_position.2 < REGION_SIZE ->
    below 14 (BicubicPatch_interpolate (get_fundamental_patch features)
                (fundamental_position relative_position)) /\
    forall octave_patch,
      get_octave_patch features (octave_index relative_position) = Some octave_patch ->
      below 14 (BicubicPatch_interpolate octave_patch (octave_position relative_position)).

(** The block columns of the chunk column at [column_position] lie in the
    region at [region_position]. *)
Definition column_in_region (region_position column_position : Vector2i) : Prop :=
  0 <= column_position.1 - region_position.1 /\
  column_position.1 - region_position.1 + SIZE_X <= REGION_SIZE /\
  0 <= column_position.2 - region_position.2 /\
  column_position.2 - region_position.2 + SIZE_Z <= REGION_SIZE.

End Bounded.

(** A generator whose patches are flat at height 0 and whose density boxes
    hold 0 everywhere. *)
Module Flat.

Definition noise : Noise :=
  Build_Noise unit (fun _ _ _ _ => tt) (fun _ _ => S754_zero false)
              unit (fun _ _ _ _ => tt) (fun _ _ => S754_zero false)
              Sample.derive.

End Flat.

(** ** The shape of a tree *)

(** The block at [(x, y, z)] after a tree of [height] and [radius] was
    grown on the root [(root_x, bottom, root_z)], from what the block was
    [before]: the trunk stands on the levels [1 .. height - 1] above the
    root; on a level with [leaf_height >= 0] the blocks around the trunk
    within [radius - leaf_height] (a square that shrinks from level to
    level) turn from air to leaf. *)
Definition tree_block (root_x root_z bottom height radius : Z) (x y z : Z)
    (before : BlockMaterial) : BlockMaterial :=
  let level := y - bottom in
  if (1 <=? level) && (level <? height) then
    if (x =? root_x) && (z =? root_z) then BLOCK_MATERIAL_TREE_TRUNK
    else
      let leaf_height := level - (height - radius - 1) in
      if (0 <=? leaf_height) &&
         (Z.abs (x - root_x) <=? radius - leaf_height) &&
         (Z.abs (z - root_z) <=? radius - leaf_height) &&
         bool_decide (before = BLOCK_MATERIAL_AIR)
      then BLOCK_MATERIAL_TREE_LEAF
      else before
  else before.

(** The blocks [visited] turned from air to leaf, nothing else changed. *)
Definition leafed (visited : BlockRef -> Prop) (chunks0 chunks : ChunkV) : Prop :=
  forall r : BlockRef,
    (get_material chunks r = get_material chunks0 r /\
     (visited r -> get_material chunks0 r ≠ BLOCK_MATERIAL_AIR)) \/
    (get_material chunks r = BLOCK_MATERIAL_TREE_LEAF /\
     get_material chunks0 r = BLOCK_MATERIAL_AIR /\ visited r).

Section Trees.
Context {constants : Constants} {noise : Noise} {random : Random}.

(** The height and the canopy radius of the first tree of a column: the
    third and the fourth draw. *)
Definition tree_shape (world_seed_ : Z) (column_position : Vector2i) : Z * Z :=
  let tree_generator := rand48_seed (get_seed_for_coordinates world_seed_ column_position) in
  let '(x, g) := uniform_int MAX_TREE_RADIUS (SIZE_X - MAX_TREE_RADIUS - 1) tree_generator in
  let '(z, g) := uniform_int MAX_TREE_RADIUS (SIZE_Z - MAX_TREE_RADIUS - 1) g in
  let '(height, g) := uniform_int MIN_TREE_HEIGHT MAX_TREE_HEIGHT g in
  let '(radius, g) := uniform_int MIN_TREE_RADIUS MAX_TREE_RADIUS g in
  (height, radius).

(** The blocks of the canopy on one level: the square of half-width
    [reach] around the trunk at [(x, z)], the trunk apart. *)
Definition canopy (x z h reach : Z) (r : BlockRef) : Prop :=
  exists u v, - reach <= u <= reach /\ - reach <= v <= reach /\ (u ≠ 0 \/ v ≠ 0) /\
              r = block_ref (x + u) (z + v) h.

End Trees.

(** ** The number of chunks *)

Section Count.
Context {constants : Constants} {noise : Noise} {random : Random}.

(** The chunk vector ends with the chunk that holds the height [M]
    ([M = -1]: the vector is empty). *)
Definition topped (chunks : ChunkV) (M : Z) : Prop :=
  Z.of_nat (length chunks) = M / SIZE_Y + 1.

(** The state of the loops over the block columns: the vector ends with
    the chunk of the greatest height recorded so far. *)
Definition columns_counted (done : Z -> Z -> Prop) (state : ChunkV * ChunkHeightmap) : Prop :=
  exists M, - 1 <= M < 2 ^ 32 /\ topped state.1 M /\
    (forall x z, 0 <= x < SIZE_X -> 0 <= z < SIZE_Z -> done x z ->
       exists top, state.2 !! (x, z) = Some (to_int top) /\ 0 <= top <= M) /\
    ((M = - 1 /\ forall x z, 0 <= x < SIZE_X -> 0 <= z < SIZE_Z -> ~ done x z) \/
     (exists x z, 0 <= x < SIZE_X /\ 0 <= z < SIZE_Z /\ done x z /\
                  state.2 !! (x, z) = Some (to_int M))).

End Count.

(** ** Which patch a block column is given *)

(** Noise primitives that record what they are built from: a patch is the
    seed, the anchor and the size its constructor was given, a box the
    seed, the anchor, the size and the resolution. *)
Module Recording.

Definition noise : Noise :=
  Build_Noise (Z * Vector2i * Vector2i) (fun seed anchor size _ => (seed, anchor, size))
              (fun _ _ => S754_zero false)
              (Z * Vector3i * Vector3i * Z)
              (fun seed anchor size resolution => (seed, anchor, size, resolution))
              (fun _ _ => S754_zero false)
              Sample.derive.

End Recording.

(** ** The height map a chunk column starts from *)

(** The state of the layering with the entries of [leftover] where the
    height map has none. *)
Definition over (leftover : ChunkHeightmap) (state : ChunkV * ChunkHeightmap)
    : ChunkV * ChunkHeightmap := (state.1, state.2 ∪ leftover).

Definition over_result (leftover : ChunkHeightmap) (r : result (ChunkV * ChunkHeightmap))
    : result (ChunkV * ChunkHeightmap) :=
  match r with
  | Ok state => Ok (over leftover state)
  | Fault f => Fault f
  end.

(** ** Sampling positions *)

(** The normalized domains of the patches and of the density boxes. *)
Definition in_unit_square (position : Vector2f) : bool :=
  in_unit_interval position.1 && in_unit_interval position.2.

Definition in_unit_cube (position : Vector3f) : bool :=
  in_unit_interval position.1.1 && in_unit_interval position.1.2 &&
  in_unit_interval position.2.

Section Sampling.
Context {constants : Constants} (noise : Noise).
Variable patch_at : @BicubicPatch noise -> Vector2f -> Scalar.
Variable box_at : @TrilinearBox noise -> Vector3f -> Scalar.

(** The noise primitives with other interpolations: the same patches and
    boxes, sampled by [patch_at] and [box_at]. *)
Definition with_sampling : Noise :=
  {| BicubicPatch := @BicubicPatch noise;
     BicubicPatch_new := @BicubicPatch_new noise;
     BicubicPatch_interpolate := patch_at;
     TrilinearBox := @TrilinearBox noise;
     TrilinearBox_new := @TrilinearBox_new noise;
     TrilinearBox_interpolate := box_at;
     get_seed_for_coordinates := @get_seed_for_coordinates noise |}.

Definition resampled (features : @RegionFeatures noise) : @RegionFeatures with_sampling :=
  @Build_RegionFeatures with_sampling
    (fundamental_patch_ features)
    (octave_patches_00 features) (octave_patches_01 features)
    (octave_patches_10 features) (octave_patches_11 features)
    (boxes_0 features) (boxes_1 features).

(** The interpolations [patch_at] and [box_at] are those of [noise] on the
    normalized domains; outside of them they are whatever they are. *)
Definition same_in_domain : Prop :=
  (forall patch position, in_unit_square position = true ->
     patch_at patch position = BicubicPatch_interpolate patch position) /\
  (forall box position, in_unit_cube position = true ->
     box_at box position = TrilinearBox_interpolate box position).

End Sampling.

Section Box.
Context {constants : Constants} {noise : Noise}.

(** The tops of the bands of a block column are defined and none of them
    lies above the density boxes. *)
Definition column_in_box (features : RegionFeatures) (relative_position : Vector2i) : bool :=
  match total_height_at features relative_position with
  | Ok total_height =>
      match band_tops (layers total_height) 0 with
      | Some tops => forallb (fun top => top <=? TRILINEAR_BOX_HEIGHT) tops
      | None => false
      end
  | Fault _ => true
  end.

(** The same of every block column of a chunk column, and of every chunk
    column of the region at [position]. *)
Definition bands_in_box (features : RegionFeatures)
    (region_position column_position : Vector2i) : bool :=
  forallb (fun x =>
    forallb (fun z =>
      column_in_box features
        (Vector2i_add (Vector2i_sub column_position region_position) (x, z)))
      (range 0 (SIZE_Z - 1)))
    (range 0 (SIZE_X - 1)).

Definition region_in_box (features : RegionFeatures) (position : Vector2i) : bool :=
  forallb (fun x =>
    forallb (fun z =>
      bands_in_box features position (Vector2i_add position (x * SIZE_X, z * SIZE_Z)))
      (range 0 (CHUNKS_PER_REGION_EDGE.2 - 1)))
    (range 0 (CHUNKS_PER_REGION_EDGE.1 - 1)).

End Box.

(** ** A sample of varied terrain

    The patches of the specification over a stream whose draws depend on
    the seed: a draw is the point of its range at [k / 128] of the width,
    [k] being the bits 7 to 13 of the seed, so that the corners of a patch
    differ; density boxes of density 0.5, which meets the cave test; a
    region of 2 x 2 chunk columns; sampling functions that answer with a
    NaN outside of the normalized domains; and a height map with an entry
    left at the tree site (6, 10) of the seed 42. *)

Module Varied.

Definition next_uniform (seed : Z) (low high : Scalar) : Scalar :=
  Float.add low
    (Float.mul (Float.sub high low)
       (Float.div (Float.of_int (Z.shiftr seed 7 mod 128)) (Float.of_int 128))).

Definition noise : Noise := SpecModel.noise Sample.derive next_uniform Sample.lit_0_5.

Definition fundamental_patch_at (position : Vector2i) : SpecModel.BicubicPatch :=
  @get_fundamental_patch (SpecModel.noise Sample.derive next_uniform (S754_zero false))
    (@RegionFeatures_new Sample.constants
       (SpecModel.noise Sample.derive next_uniform (S754_zero false))
       42 position fundamental_features octave_features).

Definition constants : Constants :=
  {| SIZE_X := 16; SIZE_Y := 16; SIZE_Z := 16;
     REGION_SIZE := 32; BICUBIC_OCTAVE_EDGE := 16; TRILINEAR_BOX_HEIGHT := 256 |}.

Definition guarded_patch (patch : SpecModel.BicubicPatch) (position : Vector2f) : Scalar :=
  if in_unit_square position then SpecModel.interpolate patch position else S754_nan.

Definition guarded_box (box : unit) (position : Vector3f) : Scalar :=
  if in_unit_cube position then Sample.lit_0_5 else S754_nan.

Definition leftover : ChunkHeightmap := {[ (6, 10) := 1000 ]}.

End Varied.

(** * Properties *)

(** ** Outcomes and loops *)

Lemma holds_bind {A B : Type} (E : fault -> Prop) (Ψ : A -> Prop) (Φ : B -> Prop)
    (r : result A) (k : A -> result B) :
  holds E Ψ r -> (forall a, Ψ a -> holds E Φ (k a)) -> holds E Φ (r ≫= k).
Proof. destruct r as [a|f]; simpl; auto. Qed.

Lemma holds_weaken {A : Type} (E : fault -> Prop) (Ψ Φ : A -> Prop) (r : result A) :
  holds E Ψ r -> (forall a, Ψ a -> Φ a) -> holds E Φ r.
Proof. destruct r as [a|f]; simpl; auto. Qed.

Lemma holds_Ok_inv {A : Type} (E : fault -> Prop) (Φ : A -> Prop) (r : result A) (a : A) :
  holds E Φ r -> r = Ok a -> Φ a.
Proof. intros Hh ->. exact Hh. Qed.

Lemma bind_Ok_inv {A B : Type} (r : result A) (k : A -> result B) (b : B) :
  r ≫= k = Ok b -> exists a, r = Ok a /\ k a = Ok b.
Proof. destruct r as [a|f]; simpl; [eauto | discriminate]. Qed.

Lemma range_cons (lo hi : Z) : lo <= hi -> range lo hi = lo :: range (lo + 1) hi.
Proof.
  intros Hle. unfold range.
  replace (hi - lo + 1) with (Z.succ (hi - (lo + 1) + 1)) by lia.
  rewrite seqZ_cons by lia. f_equal. f_equal; lia.
Qed.

Lemma range_nil (lo hi : Z) : hi < lo -> range lo hi = [].
Proof. intros Hlt. unfold range. apply seqZ_nil. lia. Qed.

Lemma elem_of_range (lo hi i : Z) : i ∈ range lo hi <-> lo <= i <= hi.
Proof. unfold range. rewrite elem_of_seqZ. lia. Qed.

(** A loop keeps an invariant of its state. *)
Lemma holds_for_each {S A : Type} (E : fault -> Prop) (I : S -> Prop)
    (l : list A) (body : A -> S -> result S) (s : S) :
  (forall a s, a ∈ l -> I s -> holds E I (body a s)) ->
  I s -> holds E I (for_each l body s).
Proof.
  revert s. induction l as [|a l IH]; intros s Hbody Hs; simpl; [exact Hs|].
  eapply holds_bind.
  - apply Hbody; [left | exact Hs].
  - intros s' Hs'. apply IH; [|exact Hs'].
    intros a' s'' Hin. apply Hbody. now right.
Qed.

(** A counting loop with an invariant that follows the counter: it holds
    at [lo] on entry and at [hi + 1] on exit (at [lo] when the loop does
    not run). *)
Lemma holds_for_each_range {S : Type} (E : fault -> Prop) (I : Z -> S -> Prop)
    (lo hi : Z) (body : Z -> S -> result S) (s : S) :
  (forall i s, lo <= i <= hi -> I i s -> holds E (I (i + 1)) (body i s)) ->
  I lo s -> holds E (I (Z.max lo (hi + 1))) (for_each (range lo hi) body s).
Proof.
  intros Hbody.
  remember (Z.to_nat (hi + 1 - lo)) as n eqn:Hn.
  revert lo s Hn Hbody. induction n as [|n IH]; intros lo s Hn Hbody Hs.
  - rewrite range_nil by lia. simpl. now replace (Z.max lo (hi + 1)) with lo by lia.
  - rewrite range_cons by lia. simpl.
    eapply holds_bind.
    + apply Hbody; [lia | exact Hs].
    + intros s' Hs'.
      replace (Z.max lo (hi + 1)) with (Z.max (lo + 1) (hi + 1)) by lia.
      apply IH; [lia | | exact Hs'].
      intros i s'' Hi. apply Hbody. lia.
Qed.

(** Two loops whose bodies agree on the values looped over are the same
    loop. *)
Lemma for_each_ext {S A : Type} (l : list A) (body body' : A -> S -> result S) (s : S) :
  (forall a s, a ∈ l -> body a s = body' a s) -> for_each l body s = for_each l body' s.
Proof.
  revert s. induction l as [|a l IH]; intros s Hext; simpl; [reflexivity|].
  rewrite (Hext a s) by left. destruct (body' a s) as [s'|f]; simpl; [|reflexivity].
  apply IH. intros a' s'' Hin. apply Hext. now right.
Qed.

(** ** Machine integers *)

Lemma to_unsigned_range (v : Z) : 0 <= to_unsigned v < 2 ^ 32.
Proof. unfold to_unsigned. apply Z.mod_pos_bound. lia. Qed.

Lemma to_unsigned_id (v : Z) : 0 <= v < 2 ^ 32 -> to_unsigned v = v.
Proof. unfold to_unsigned. apply Z.mod_small. Qed.

Lemma to_unsigned_to_int (v : Z) : to_unsigned (to_int v) = to_unsigned v.
Proof.
  unfold to_unsigned, to_int.
  rewrite Zminus_mod, Zmod_mod, <- Zminus_mod. f_equal. lia.
Qed.

Lemma to_int_to_unsigned (v : Z) : - 2 ^ 31 <= v < 2 ^ 31 -> to_int (to_unsigned v) = v.
Proof.
  intros Hv. unfold to_unsigned, to_int.
  rewrite Zplus_mod, Zmod_mod, <- Zplus_mod.
  rewrite Z.mod_small; lia.
Qed.

Lemma to_unsigned_add_to_int (v y : Z) : to_unsigned (to_int v + y) = to_unsigned (v + y).
Proof.
  unfold to_unsigned at 1. rewrite Zplus_mod. fold (to_unsigned (to_int v)).
  rewrite to_unsigned_to_int. unfold to_unsigned. now rewrite <- Zplus_mod.
Qed.

Lemma to_unsigned_succ (v : Z) : to_unsigned (v + 1) <= to_unsigned v + 1.
Proof.
  unfold to_unsigned.
  pose proof (Z.mod_pos_bound v (2 ^ 32) ltac:(lia)) as Hv.
  destruct (Z.eq_dec (v mod 2 ^ 32) (2 ^ 32 - 1)) as [Heq|Hne].
  - rewrite Zplus_mod, Heq. change ((2 ^ 32 - 1 + 1 mod 2 ^ 32) mod 2 ^ 32) with 0. lia.
  - rewrite Zplus_mod. rewrite (Z.mod_small 1) by lia. rewrite Z.mod_small; lia.
Qed.

(** ** get_block stays inside the chunk vector *)

Section ChunkIndex.
Context {constants : Constants} {noise : Noise} {random : Random}.
Hypothesis SIZE_Y_pos : 0 < SIZE_Y.

Lemma reached_mono (chunks chunks' : ChunkV) (h : Z) :
  (length chunks <= length chunks')%nat -> reached chunks h -> reached chunks' h.
Proof. unfold reached. intros Hlen Hr. nia. Qed.

Lemma heights_reached_mono (chunks chunks' : ChunkV) (heights : ChunkHeightmap) :
  (length chunks <= length chunks')%nat ->
  heights_reached chunks heights -> heights_reached chunks' heights.
Proof. intros Hlen Hh k b Hk. eapply reached_mono; eauto. Qed.

Lemma get_block_in_vector (chunks : ChunkV) (column_position : Vector2i) (x z h : Z) :
  reached chunks (to_unsigned h) ->
  holds in_vector
    (fun bc => reached bc.2 (to_unsigned h + 1) /\ (length chunks <= length bc.2)%nat)
    (get_block chunks column_position x z h).
Proof.
  unfold reached, get_block. intros Hr.
  pose proof (to_unsigned_range h) as Hh.
  set (i := to_unsigned h / SIZE_Y).
  assert (Hi : i <= Z.of_nat (length chunks)).
  { apply Z.div_le_upper_bound; lia. }
  assert (Hlt : to_unsigned h < (i + 1) * SIZE_Y).
  { pose proof (Z.mul_succ_div_gt (to_unsigned h) SIZE_Y SIZE_Y_pos). fold i in H. lia. }
  destruct (Z.leb_spec (Z.of_nat (length chunks)) i) as [Hge|Hlti].
  - rewrite length_app. simpl length.
    destruct (Z.ltb_spec i (Z.of_nat (length chunks + 1))) as [_|Hbad]; [|lia].
    destruct (_ && _); simpl; [|unfold in_vector; discriminate].
    rewrite length_app. simpl length. split; [nia | lia].
  - destruct (Z.ltb_spec i (Z.of_nat (length chunks))) as [_|Hbad]; [|lia].
    destruct (_ && _); simpl; [|unfold in_vector; discriminate].
    split; [nia | lia].
Qed.

Lemma length_set_material (b : BlockRef) (m : BlockMaterial) (chunks : ChunkV) :
  length (set_material b m chunks) = length chunks.
Proof. unfold set_material. apply length_alter. Qed.

Lemma layer_block_in_vector (features : RegionFeatures) (column_position relative_position : Vector2i)
    (x z : Z) (material : BlockMaterial) (y : Z) (chunks : ChunkV) :
  0 <= y < 2 ^ 32 -> reached chunks y ->
  holds in_vector
    (fun chunks' => reached chunks' (y + 1) /\ (length chunks <= length chunks')%nat)
    (layer_block features column_position relative_position x z material y chunks).
Proof.
  intros Hy Hr. unfold layer_block.
  eapply holds_bind.
  - apply get_block_in_vector. now rewrite to_unsigned_id.
  - intros [block chunks'] [Hr' Hlen]. simpl in Hr', Hlen.
    rewrite to_unsigned_id in Hr' by exact Hy.
    repeat case_match; simpl; unfold reached in *; rewrite length_set_material; auto.
Qed.

Lemma Float_to_unsigned_range (x : Scalar) (t : Z) :
  Float.to_unsigned x = Some t -> 0 <= t < 2 ^ 32.
Proof.
  unfold Float.to_unsigned. intros Ht.
  destruct x as [s|s| |s m e]; try discriminate.
  - injection Ht as <-. lia.
  - destruct (_ && _) eqn:Hb; [|discriminate]. injection Ht as <-.
    apply andb_true_iff in Hb as [H0 H1].
    apply Z.leb_le in H0. apply Z.ltb_lt in H1. exact (conj H0 H1).
Qed.

Lemma band_top_range (second : Scalar) (bottom top : Z) :
  band_top second bottom = Some top -> 0 <= top < 2 ^ 32.
Proof. unfold band_top. apply Float_to_unsigned_range. Qed.

Lemma layer_bands_in_vector (features : RegionFeatures) (column_position relative_position : Vector2i)
    (x z : Z) (ls : list (BlockMaterial * Scalar)) (bottom : Z) (chunks : ChunkV) :
  0 <= bottom < 2 ^ 32 -> reached chunks bottom ->
  holds in_vector
    (fun bc => 0 <= bc.1 < 2 ^ 32 /\ reached bc.2 bc.1 /\ (length chunks <= length bc.2)%nat)
    (layer_bands features column_position relative_position x z ls bottom chunks).
Proof.
  revert bottom chunks. induction ls as [|[material second] ls IH]; intros bottom chunks Hb Hr.
  - simpl. auto.
  - simpl. destruct (band_top second bottom) as [top|] eqn:Htop; [|simpl; unfold in_vector; discriminate].
    apply band_top_range in Htop.
    eapply holds_bind.
    + apply (holds_for_each_range in_vector
               (fun y chunks' => reached chunks' y /\ (length chunks <= length chunks')%nat)).
      * intros y chunks' Hy [Hr' Hlen].
        eapply holds_weaken; [apply layer_block_in_vector; [lia | exact Hr']|].
        intros chunks'' [Hr'' Hlen']. split; [exact Hr'' | lia].
      * split; [exact Hr | lia].
    + intros chunks' [Hr' Hlen]. simpl.
      eapply holds_weaken; [apply IH; [exact Htop|]|].
      * unfold reached in *. lia.
      * intros [b' chunks''] (Hb' & Hr'' & Hlen'). simpl in *. repeat split; try lia. exact Hr''.
Qed.

Lemma generate_block_column_in_vector (features : RegionFeatures)
    (region_position column_position : Vector2i) (x z : Z) (state : ChunkV * ChunkHeightmap) :
  heights_reached state.1 state.2 ->
  holds in_vector (fun state' => heights_reached state'.1 state'.2)
    (generate_block_column features region_position column_position x z state).
Proof.
  intros Hh. unfold generate_block_column.
  eapply holds_bind with (Ψ := fun _ => True).
  { unfold total_height_at. case_match; simpl; [trivial | unfold in_vector; discriminate]. }
  intros total_height _.
  eapply holds_bind.
  - apply layer_bands_in_vector; [lia | unfold reached; lia].
  - intros [bottom chunks] (Hb & Hr & Hlen). simpl in *.
    intros k b. rewrite lookup_insert. case_decide as Hk.
    + intros [= <-]. rewrite to_unsigned_to_int, to_unsigned_id by exact Hb. exact Hr.
    + intros Hkb. eapply reached_mono; [exact Hlen|]. eapply Hh. exact Hkb.
Qed.

Lemma generate_chunk_column_in_vector (chunks : ChunkV) (features : RegionFeatures)
    (region_position column_position : Vector2i) (heights : ChunkHeightmap) :
  heights_reached chunks heights ->
  holds in_vector (fun state' => heights_reached state'.1 state'.2)
    (generate_chunk_column chunks features region_position column_position heights).
Proof.
  intros Hh. unfold generate_chunk_column.
  apply (holds_for_each in_vector (fun state => heights_reached state.1 state.2)); [|exact Hh].
  intros x state _ Hs.
  apply (holds_for_each in_vector (fun state => heights_reached state.1 state.2)); [|exact Hs].
  intros z state' _ Hs'. now apply generate_block_column_in_vector.
Qed.


Lemma place_leaf_in_vector (column_position : Vector2i) (x z bottom y u v : Z) (chunks : ChunkV) :
  reached chunks (to_unsigned (bottom + y) + 1) ->
  holds in_vector
    (fun chunks' => reached chunks' (to_unsigned (bottom + y) + 1) /\
                    (length chunks <= length chunks')%nat)
    (place_leaf column_position x z bottom y u v chunks).
Proof.
  intros Hr. unfold place_leaf. case_decide; [|simpl; auto].
  eapply holds_bind.
  - apply get_block_in_vector. unfold reached in *. lia.
  - intros [leaf_block chunks'] [Hr' Hlen]. simpl in Hr', Hlen.
    case_decide; simpl; unfold reached in *; rewrite ?length_set_material; auto.
Qed.

Lemma grow_level_in_vector (column_position : Vector2i) (x z bottom height radius y : Z)
    (chunks : ChunkV) :
  reached chunks (to_unsigned (bottom + y)) ->
  holds in_vector
    (fun chunks' => reached chunks' (to_unsigned (bottom + (y + 1))) /\
                    (length chunks <= length chunks')%nat)
    (grow_level column_position x z bottom height radius y chunks).
Proof.
  intros Hr. unfold grow_level.
  pose proof (to_unsigned_succ (bottom + y)) as Hsucc.
  replace (bottom + y + 1) with (bottom + (y + 1)) in Hsucc by lia.
  eapply holds_bind.
  - apply get_block_in_vector. exact Hr.
  - intros [trunk_block chunks'] [Hr' Hlen]. simpl in Hr', Hlen.
    set (I := fun chunks'' : ChunkV =>
                reached chunks'' (to_unsigned (bottom + y) + 1) /\
                (length chunks <= length chunks'')%nat).
    assert (HI : I (set_material trunk_block BLOCK_MATERIAL_TREE_TRUNK chunks')).
    { unfold I, reached in *. rewrite length_set_material. auto. }
    assert (Hout : forall chunks'', I chunks'' ->
              reached chunks'' (to_unsigned (bottom + (y + 1))) /\
              (length chunks <= length chunks'')%nat).
    { unfold I, reached. intros chunks'' [H1 H2]. split; [lia | exact H2]. }
    case_match; [|simpl; now apply Hout].
    eapply holds_weaken; [|exact Hout].
    apply (holds_for_each in_vector I); [|exact HI].
    intros u chunks1 _ H1.
    apply (holds_for_each in_vector I); [|exact H1].
    intros v chunks2 _ [H2 Hlen2].
    eapply holds_weaken; [apply place_leaf_in_vector; exact H2|].
    intros chunks3 [H3 Hlen3]. split; [exact H3 | lia].
Qed.

Lemma plant_tree_in_vector (column_position : Vector2i) (heights : ChunkHeightmap)
    (state : rand48 * ChunkV) :
  heights_reached state.2 heights ->
  holds in_vector (fun state' => (length state.2 <= length state'.2)%nat)
    (plant_tree column_position heights state).
Proof.
  intros Hh. unfold plant_tree.
  destruct (uniform_int _ _ state.1) as [x g1].
  destruct (uniform_int _ _ g1) as [z g2].
  destruct (uniform_int _ _ g2) as [height g3].
  destruct (uniform_int _ _ g3) as [radius g4].
  destruct (heights !! (x, z)) as [bottom|] eqn:Hbottom; [|simpl; unfold in_vector; discriminate].
  apply Hh in Hbottom.
  eapply holds_bind.
  - apply get_block_in_vector. exact Hbottom.
  - intros [bottom_block chunks] [Hr Hlen]. simpl in Hr, Hlen.
    case_decide; [|simpl; exact Hlen].
    eapply holds_bind.
    + apply (holds_for_each_range in_vector
               (fun y chunks' => reached chunks' (to_unsigned (bottom + y)) /\
                                 (length chunks <= length chunks')%nat)).
      * intros y chunks1 _ [H1 Hlen1].
        eapply holds_weaken; [apply grow_level_in_vector; exact H1|].
        intros chunks2 [H2 Hlen2]. split; [exact H2 | lia].
      * pose proof (to_unsigned_succ bottom). unfold reached in *. split; lia.
    + intros chunks' [_ Hlen']. simpl. lia.
Qed.

Lemma populate_trees_in_vector (world_seed : Z) (chunks : ChunkV) (column_position : Vector2i)
    (heights : ChunkHeightmap) :
  heights_reached chunks heights ->
  holds in_vector (fun _ => True) (populate_trees world_seed chunks column_position heights).
Proof.
  intros Hh. unfold populate_trees.
  case_match; [|simpl; unfold in_vector; discriminate].
  eapply holds_bind with (Ψ := fun _ => True); [|simpl; trivial].
  eapply holds_weaken with (Ψ := fun state => heights_reached state.2 heights); [|trivial].
  apply (holds_for_each in_vector (fun state => heights_reached state.2 heights)); [|exact Hh].
  intros i state _ Hs.
  eapply holds_weaken; [apply plant_tree_in_vector; exact Hs|].
  intros state' Hlen. eapply heights_reached_mono; [exact Hlen | exact Hs].
Qed.

Lemma generate_column_in_vector (world_seed : Z) (region_features : RegionFeatures)
    (position : Vector2i) (x z : Z) (chunks : ChunkV) :
  holds in_vector (fun _ => True)
    (generate_column world_seed region_features position x z chunks).
Proof.
  unfold generate_column.
  eapply holds_bind.
  - apply generate_chunk_column_in_vector. intros k b Hk. now rewrite lookup_empty in Hk.
  - intros [column_chunks heights] Hh. simpl in Hh.
    eapply holds_bind; [apply populate_trees_in_vector; exact Hh|].
    simpl. trivial.
Qed.

End ChunkIndex.

(** C10.  While a region is generated, no call of [get_block] indexes the
    chunk vector past its end: after the one conditional [push_back] the
    chunk index [height / Chunk::SIZE_Y] is below the vector's size, in
    the layering loops and in the vegetation pass, so the generation never
    ends with the fault of such an access. *)
Theorem get_block_index_in_bounds {constants : Constants} {noise : Noise} {random : Random}
    (this : WorldGenerator) (position : Vector2i) :
  0 < SIZE_Y ->
  (generate_region this position).1 ≠ Fault ChunkIndexOutOfRange.
Proof.
  intros Hpos.
  assert (Hh : holds in_vector (fun _ : ChunkV => True) (generate_region this position).1).
  { unfold generate_region. simpl.
    apply (holds_for_each in_vector (fun _ => True)); [|trivial].
    intros x chunks _ _.
    apply (holds_for_each in_vector (fun _ => True)); [|trivial].
    intros z chunks' _ _. now apply generate_column_in_vector. }
  intros Heq. rewrite Heq in Hh. simpl in Hh. now apply Hh.
Qed.

(** ** The vegetation pass stays inside the chunk's footprint *)

Section Footprint.
Context {constants : Constants} {noise : Noise} {random : Random}.
Hypothesis SIZE_X_int : SIZE_X <= 2 ^ 31.
Hypothesis SIZE_Z_int : SIZE_Z <= 2 ^ 31.

Lemma get_block_inside_chunk (chunks : ChunkV) (column_position : Vector2i) (x z h : Z) :
  0 <= x < SIZE_X -> 0 <= z < SIZE_Z ->
  holds inside_chunk (fun _ => True) (get_block chunks column_position x z h).
Proof.
  intros Hx Hz. unfold get_block.
  rewrite (to_int_to_unsigned x), (to_int_to_unsigned z) by lia.
  case_match; [|simpl; unfold inside_chunk; discriminate].
  destruct (Z.leb_spec 0 x); [|lia]. destruct (Z.ltb_spec x SIZE_X); [|lia].
  destruct (Z.leb_spec 0 z); [|lia]. destruct (Z.ltb_spec z SIZE_Z); [|lia].
  simpl. trivial.
Qed.

Lemma place_leaf_inside_chunk (column_position : Vector2i) (x z bottom y u v : Z)
    (chunks : ChunkV) :
  0 <= x + u < SIZE_X -> 0 <= z + v < SIZE_Z ->
  holds inside_chunk (fun _ => True) (place_leaf column_position x z bottom y u v chunks).
Proof.
  intros Hx Hz. unfold place_leaf. case_decide; [|simpl; trivial].
  eapply holds_bind; [now apply get_block_inside_chunk|].
  intros [leaf_block chunks'] _. case_decide; simpl; trivial.
Qed.

Lemma grow_level_inside_chunk (column_position : Vector2i) (x z bottom height radius y : Z)
    (chunks : ChunkV) :
  MAX_TREE_RADIUS <= x <= SIZE_X - MAX_TREE_RADIUS - 1 ->
  MAX_TREE_RADIUS <= z <= SIZE_Z - MAX_TREE_RADIUS - 1 ->
  radius <= MAX_TREE_RADIUS ->
  holds inside_chunk (fun _ => True)
    (grow_level column_position x z bottom height radius y chunks).
Proof.
  unfold MAX_TREE_RADIUS. intros Hx Hz Hradius. unfold grow_level.
  eapply holds_bind; [apply get_block_inside_chunk; lia|].
  intros [trunk_block chunks'] _.
  destruct (Z.leb_spec 0 (y - (height - radius - 1))) as [Hleaf|_]; [|simpl; trivial].
  apply (holds_for_each inside_chunk (fun _ => True)); [|trivial].
  intros u chunks1 Hu%elem_of_range _.
  apply (holds_for_each inside_chunk (fun _ => True)); [|trivial].
  intros v chunks2 Hv%elem_of_range _.
  apply place_leaf_inside_chunk; lia.
Qed.

Lemma plant_tree_inside_chunk (column_position : Vector2i) (heights : ChunkHeightmap)
    (state : rand48 * ChunkV) :
  uniform_int_in_range ->
  MAX_TREE_RADIUS <= SIZE_X - MAX_TREE_RADIUS - 1 ->
  MAX_TREE_RADIUS <= SIZE_Z - MAX_TREE_RADIUS - 1 ->
  holds inside_chunk (fun _ => True) (plant_tree column_position heights state).
Proof.
  intros Hdraw HX HZ. unfold plant_tree.
  pose proof (Hdraw _ _ state.1 HX) as Hx.
  destruct (uniform_int _ _ state.1) as [x g1]. simpl in Hx.
  pose proof (Hdraw _ _ g1 HZ) as Hz.
  destruct (uniform_int _ _ g1) as [z g2]. simpl in Hz.
  destruct (uniform_int _ _ g2) as [height g3].
  pose proof (Hdraw MIN_TREE_RADIUS MAX_TREE_RADIUS g3 ltac:(unfold MIN_TREE_RADIUS, MAX_TREE_RADIUS; lia)) as Hradius.
  destruct (uniform_int _ _ g3) as [radius g4]. simpl in Hradius.
  case_match; [|simpl; unfold inside_chunk; discriminate].
  unfold MAX_TREE_RADIUS in *.
  eapply holds_bind; [apply get_block_inside_chunk; lia|].
  intros [bottom_block chunks] _. case_decide; [|simpl; trivial].
  eapply holds_bind with (Ψ := fun _ => True); [|simpl; trivial].
  apply (holds_for_each inside_chunk (fun _ => True)); [|trivial].
  intros y chunks' _ _. apply grow_level_inside_chunk; unfold MAX_TREE_RADIUS; lia.
Qed.

End Footprint.

(** C7.  A tree is rooted at offsets [x] and [z] drawn from
    [MAX_TREE_RADIUS .. edge - MAX_TREE_RADIUS - 1], its canopy radius is at
    most [MAX_TREE_RADIUS], so every trunk and leaf cell the pass asks
    [get_block] for lies inside the chunk's footprint
    [0 .. SIZE_X - 1] x [0 .. SIZE_Z - 1]: the pass never ends with the
    fault of a block index outside the chunk. *)
Theorem tree_cells_inside_footprint {constants : Constants} {noise : Noise} {random : Random}
    (world_seed : Z) (chunks : ChunkV) (column_position : Vector2i) (heights : ChunkHeightmap) :
  uniform_int_in_range ->
  SIZE_X <= 2 ^ 31 -> SIZE_Z <= 2 ^ 31 ->
  populate_trees world_seed chunks column_position heights ≠ Fault BlockOutsideChunk.
Proof.
  intros Hdraw HX HZ.
  assert (Hh : holds inside_chunk (fun _ : ChunkV => True)
                 (populate_trees world_seed chunks column_position heights)).
  { unfold populate_trees.
    destruct (_ && _) eqn:Hdist; [|simpl; unfold inside_chunk; discriminate].
    apply andb_true_iff in Hdist as [H1%Z.leb_le H2%Z.leb_le].
    eapply holds_bind with (Ψ := fun _ => True); [|simpl; trivial].
    apply (holds_for_each inside_chunk (fun _ => True)); [|trivial].
    intros i state _ _. now apply plant_tree_inside_chunk. }
  intros Heq. rewrite Heq in Hh. simpl in Hh. now apply Hh.
Qed.

(** ** Reading and writing blocks *)

Section Store.
Context {constants : Constants} {noise : Noise} {random : Random}.
Hypothesis SIZE_Y_pos : 0 < SIZE_Y.

Lemma get_material_snoc (chunks : ChunkV) (position : Vector3i) (r : BlockRef) :
  get_material (chunks ++ [new_Chunk position]) r = get_material chunks r.
Proof.
  unfold get_material.
  destruct (lt_eq_lt_dec (ref_chunk r) (length chunks)) as [[Hlt|Heq]|Hgt].
  - now rewrite lookup_app_l.
  - rewrite lookup_app_r by lia. rewrite Heq, Nat.sub_diag. simpl.
    rewrite (lookup_ge_None_2 chunks) by lia.
    unfold Chunk_material. simpl. now rewrite lookup_empty.
  - rewrite (lookup_ge_None_2 chunks) by lia.
    rewrite lookup_ge_None_2; [reflexivity|]. rewrite length_app. simpl. lia.
Qed.

Lemma get_block_Ok (chunks : ChunkV) (column_position : Vector2i) (x z h : Z)
    (b : BlockRef) (chunks' : ChunkV) :
  get_block chunks column_position x z h = Ok (b, chunks') ->
  b = block_ref x z h /\ (ref_chunk b < length chunks')%nat /\
  (length chunks <= length chunks')%nat /\ same_materials chunks chunks'.
Proof.
  unfold get_block, block_ref, same_materials.
  pose proof (to_unsigned_range h) as Hh.
  assert (Hi : 0 <= to_unsigned h / SIZE_Y) by (apply Z.div_pos; lia).
  intros Hget.
  destruct (Z.leb_spec (Z.of_nat (length chunks)) (to_unsigned h / SIZE_Y)) as [Hge|Hlt].
  - destruct (Z.ltb_spec (to_unsigned h / SIZE_Y)
                (Z.of_nat (length (chunks ++ [new_Chunk (column_position.1, to_int (to_unsigned h),
                                                         column_position.2)]))))
      as [Hlen|Hlen]; [|discriminate].
    destruct (_ && _); [|discriminate]. injection Hget as <- <-. simpl.
    rewrite length_app in *. simpl in *. repeat split; try lia.
    intros r. apply get_material_snoc.
  - destruct (Z.ltb_spec (to_unsigned h / SIZE_Y) (Z.of_nat (length chunks)))
      as [Hlen|Hlen]; [|discriminate].
    destruct (_ && _); [|discriminate]. injection Hget as <- <-. simpl.
    repeat split; try lia.
Qed.

Lemma get_material_set_material (b : BlockRef) (m : BlockMaterial) (chunks : ChunkV)
    (r : BlockRef) :
  (ref_chunk b < length chunks)%nat ->
  get_material (set_material b m chunks) r =
  if decide (r = b) then m else get_material chunks r.
Proof.
  intros Hb. unfold get_material, set_material.
  destruct (lookup_lt_is_Some_2 chunks (ref_chunk b) Hb) as [c Hc].
  destruct (decide (ref_chunk r = ref_chunk b)) as [Hi|Hi].
  - rewrite Hi, list_lookup_alter_eq, Hc. simpl.
    unfold Chunk_material, Chunk_set_material. simpl.
    rewrite lookup_insert.
    destruct r as [ri rc], b as [bi bc]. simpl in *. subst ri.
    repeat case_decide; try congruence; reflexivity.
  - rewrite list_lookup_alter_ne by congruence.
    case_decide as Heq; [subst r; congruence | reflexivity].
Qed.

(** ** The vegetation pass *)

Lemma grown_from_refl (chunks : ChunkV) : grown_from chunks chunks.
Proof. intros r. now left. Qed.

Lemma grown_from_same (chunks0 chunks chunks' : ChunkV) :
  grown_from chunks0 chunks -> same_materials chunks chunks' -> grown_from chunks0 chunks'.
Proof. intros Hg Hs r. rewrite Hs. apply Hg. Qed.

Lemma place_leaf_grown (chunks0 : ChunkV) (column_position : Vector2i)
    (x z bottom y u v : Z) (chunks : ChunkV) :
  grown_from chunks0 chunks ->
  holds any_fault (grown_from chunks0) (place_leaf column_position x z bottom y u v chunks).
Proof.
  intros Hg. unfold place_leaf. case_decide; [|exact Hg].
  destruct (get_block _ _ _ _ _) as [[leaf_block chunks']|f] eqn:Hget; [|exact I].
  apply get_block_Ok in Hget as (_ & Hlt & _ & Hsame). simpl.
  pose proof (grown_from_same _ _ _ Hg Hsame) as Hg'.
  case_decide as Hair; simpl; [|exact Hg'].
  intros r. rewrite get_material_set_material by exact Hlt.
  case_decide as Hr; [|apply Hg'].
  subst r. right. right. split; [reflexivity|].
  destruct (Hg' leaf_block) as [Heq|[Htrunk|[Hleaf _]]]; congruence.
Qed.

Lemma grow_level_grown (chunks0 : ChunkV) (column_position : Vector2i)
    (x z bottom height radius y : Z) (chunks : ChunkV) :
  grown_from chunks0 chunks ->
  holds any_fault (grown_from chunks0)
    (grow_level column_position x z bottom height radius y chunks).
Proof.
  intros Hg. unfold grow_level.
  destruct (get_block _ _ _ _ _) as [[trunk_block chunks']|f] eqn:Hget; [|exact I].
  apply get_block_Ok in Hget as (_ & Hlt & _ & Hsame). simpl.
  pose proof (grown_from_same _ _ _ Hg Hsame) as Hg'.
  assert (Htrunk : grown_from chunks0
                     (set_material trunk_block BLOCK_MATERIAL_TREE_TRUNK chunks')).
  { intros r. rewrite get_material_set_material by exact Hlt.
    case_decide; [right; now left | apply Hg']. }
  case_match; [|exact Htrunk].
  apply (holds_for_each any_fault (grown_from chunks0)); [|exact Htrunk].
  intros u chunks1 _ H1.
  apply (holds_for_each any_fault (grown_from chunks0)); [|exact H1].
  intros v chunks2 _ H2. now apply place_leaf_grown.
Qed.

Lemma plant_tree_grown (chunks0 : ChunkV) (column_position : Vector2i)
    (heights : ChunkHeightmap) (state : rand48 * ChunkV) :
  grown_from chunks0 state.2 ->
  holds any_fault (fun state' => grown_from chunks0 state'.2)
    (plant_tree column_position heights state).
Proof.
  intros Hg. unfold plant_tree.
  destruct (uniform_int _ _ state.1) as [x g1].
  destruct (uniform_int _ _ g1) as [z g2].
  destruct (uniform_int _ _ g2) as [height g3].
  destruct (uniform_int _ _ g3) as [radius g4].
  case_match; [|exact I].
  destruct (get_block _ _ _ _ _) as [[bottom_block chunks]|f] eqn:Hget; [|exact I].
  apply get_block_Ok in Hget as (_ & _ & _ & Hsame). simpl.
  pose proof (grown_from_same _ _ _ Hg Hsame) as Hg'.
  case_decide; [|exact Hg'].
  eapply holds_bind with (Ψ := grown_from chunks0); [|intros chunks' H'; exact H'].
  apply (holds_for_each_range any_fault (fun _ => grown_from chunks0)); [|exact Hg'].
  intros y chunks1 _ H1. now apply grow_level_grown.
Qed.

Lemma populate_trees_grown (world_seed : Z) (chunks : ChunkV) (column_position : Vector2i)
    (heights : ChunkHeightmap) :
  holds any_fault (grown_from chunks)
    (populate_trees world_seed chunks column_position heights).
Proof.
  unfold populate_trees. case_match; [|exact I].
  eapply holds_bind with (Ψ := fun state => grown_from chunks state.2);
    [|intros state' H'; exact H'].
  apply (holds_for_each any_fault (fun state => grown_from chunks state.2));
    [|apply grown_from_refl].
  intros i state _ Hs. now apply plant_tree_grown.
Qed.

(** Without grass under the root nothing is planted. *)
Lemma populate_trees_not_rooted (world_seed : Z) (chunks chunks' : ChunkV)
    (column_position : Vector2i) (heights : ChunkHeightmap) (bottom : Z) :
  heights !! tree_site world_seed column_position = Some bottom ->
  material_at chunks (tree_site world_seed column_position).1 bottom
              (tree_site world_seed column_position).2 ≠ BLOCK_MATERIAL_GRASS ->
  populate_trees world_seed chunks column_position heights = Ok chunks' ->
  same_materials chunks chunks'.
Proof.
  unfold tree_site, material_at. intros Hbottom Hsurface Hrun.
  unfold populate_trees in Hrun.
  destruct (_ && _) in Hrun; [|discriminate].
  change (range 0 (TREES_PER_CHUNK - 1)) with [0] in Hrun. simpl in Hrun.
  unfold plant_tree in Hrun. simpl in Hrun.
  destruct (uniform_int _ _ (rand48_seed _)) as [x g1].
  destruct (uniform_int _ _ g1) as [z g2].
  destruct (uniform_int _ _ g2) as [height g3].
  destruct (uniform_int _ _ g3) as [radius g4]. simpl in *.
  rewrite Hbottom in Hrun.
  destruct (get_block _ _ _ _ _) as [[bottom_block chunks1]|f] eqn:Hget; [|discriminate].
  apply get_block_Ok in Hget as (-> & _ & _ & Hsame). simpl in Hrun.
  rewrite Hsame in Hrun. case_decide; [contradiction|].
  simpl in Hrun. injection Hrun as <-. exact Hsame.
Qed.

End Store.

(** C6.  The vegetation pass roots a tree only on grass: where the block
    read at the height map's height of the tree site is not grass, the pass
    changes no block.  A leaf is written only to a cell that is air: after
    the pass a block is as before, or trunk, or leaf in a cell that was
    air, so no block that was not air is replaced by a leaf. *)
Theorem trees_rooted_on_grass_leaves_in_air
    {constants : Constants} {noise : Noise} {random : Random}
    (world_seed : Z) (chunks : ChunkV) (column_position : Vector2i)
    (heights : ChunkHeightmap) :
  0 < SIZE_Y ->
  holds any_fault
    (fun chunks' =>
       grown_from chunks chunks' /\
       (forall bottom,
          heights !! tree_site world_seed column_position = Some bottom ->
          material_at chunks (tree_site world_seed column_position).1 bottom
                      (tree_site world_seed column_position).2 ≠ BLOCK_MATERIAL_GRASS ->
          same_materials chunks chunks'))
    (populate_trees world_seed chunks column_position heights).
Proof.
  intros Hpos.
  pose proof (populate_trees_grown Hpos world_seed chunks column_position heights) as Hh.
  destruct (populate_trees world_seed chunks column_position heights) as [chunks'|f] eqn:Hrun;
    [|exact I].
  split; [exact Hh|].
  intros bottom Hbottom Hsurface. eapply populate_trees_not_rooted; eauto.
Qed.

(** A run of the pass that plants: on the grass block at height 3 of the
    tree site (6, 10) a trunk stands at height 4, the block beside it at
    that height stays air, and the canopy spreads at height 9. *)
Example tree_planted_on_grass :
  @tree_site Sample.constants Sample.solid Sample.random 42 (0, 0) = (6, 10) /\
  match @populate_trees Sample.constants Sample.solid Sample.random 42 Sample.ground (0, 0)
          Sample.ground_heights with
  | Ok chunks' =>
      @material_at Sample.constants chunks' 6 3 10 = BLOCK_MATERIAL_GRASS /\
      @material_at Sample.constants chunks' 6 4 10 = BLOCK_MATERIAL_TREE_TRUNK /\
      @material_at Sample.constants chunks' 7 4 10 = BLOCK_MATERIAL_AIR /\
      @material_at Sample.constants chunks' 7 9 10 = BLOCK_MATERIAL_TREE_LEAF
  | Fault _ => False
  end.
Proof. vm_compute. repeat split. Qed.

(** ** Determinism *)

Section Determinism.
Context {constants : Constants} {noise : Noise} {random : Random}.

Lemma generate_regions_generator (this : WorldGenerator) (positions : list Vector2i) :
  (generate_regions this positions).2 = this.
Proof.
  induction positions as [|position positions IH]; simpl; [reflexivity|].
  destruct (generate_regions this positions) as [rest this'] eqn:Hrest.
  simpl in *. exact IH.
Qed.

End Determinism.

Section LeftoverProofs.
Context {constants : Constants} {noise : Noise} {random : Random}.

Lemma generate_block_column_over (leftover : ChunkHeightmap) (features : RegionFeatures)
    (region_position column_position : Vector2i) (x z : Z) (state : ChunkV * ChunkHeightmap) :
  generate_block_column features region_position column_position x z (over leftover state) =
  over_result leftover
    (generate_block_column features region_position column_position x z state).
Proof.
  unfold generate_block_column. cbn [over fst snd].
  destruct (total_height_at features _) as [total_height|f]; [|reflexivity].
  cbv beta iota delta [mbind result_bind].
  destruct (layer_bands _ _ _ _ _ _ _ _) as [[bottom chunks]|f]; [|reflexivity].
  cbn [over_result over fst snd]. now rewrite insert_union_l.
Qed.

Lemma for_each_over {A : Type} (leftover : ChunkHeightmap) (l : list A)
    (body : A -> ChunkV * ChunkHeightmap -> result (ChunkV * ChunkHeightmap))
    (state : ChunkV * ChunkHeightmap) :
  (forall a state, body a (over leftover state) = over_result leftover (body a state)) ->
  for_each l body (over leftover state) = over_result leftover (for_each l body state).
Proof.
  intros Hbody. revert state. induction l as [|a l IH]; intros state; simpl; [reflexivity|].
  rewrite Hbody. destruct (body a state) as [state'|f]; simpl; [apply IH | reflexivity].
Qed.

(** The layering never reads the height map: run on an array that holds
    [leftover], it gives the chunks and the entries of the run on an array
    without values, and leaves the other entries as they were. *)
Lemma generate_chunk_column_over (leftover : ChunkHeightmap) (chunks : ChunkV)
    (features : RegionFeatures) (region_position column_position : Vector2i) :
  generate_chunk_column chunks features region_position column_position leftover =
  over_result leftover
    (generate_chunk_column chunks features region_position column_position ∅).
Proof.
  unfold generate_chunk_column.
  replace (chunks, leftover) with (over leftover (chunks, ∅ : ChunkHeightmap)).
  2:{ unfold over. cbn [fst snd]. now rewrite (left_id_L ∅ (∪)). }
  apply for_each_over. intros x state. apply for_each_over. intros z state'.
  apply generate_block_column_over.
Qed.

(** Every block column of the footprint has its entry when the layering
    is over. *)
Lemma generate_chunk_column_entries (chunks : ChunkV) (features : RegionFeatures)
    (region_position column_position : Vector2i) (heights : ChunkHeightmap) :
  holds any_fault
    (fun state => forall x z, 0 <= x < SIZE_X -> 0 <= z < SIZE_Z ->
                              is_Some (state.2 !! (x, z)))
    (generate_chunk_column chunks features region_position column_position heights).
Proof.
  unfold generate_chunk_column.
  eapply holds_weaken.
  - apply (holds_for_each_range any_fault
             (fun i state => forall x z, 0 <= x < i -> 0 <= z < SIZE_Z ->
                                         is_Some (state.2 !! (x, z)))).
    + intros x state Hx Hdone.
      eapply holds_weaken.
      * apply (holds_for_each_range any_fault
                 (fun j state => forall x' z, (0 <= x' < x /\ 0 <= z < SIZE_Z) \/
                                              (x' = x /\ 0 <= z < j) ->
                                              is_Some (state.2 !! (x', z)))).
        -- intros z state' Hz Hin. unfold generate_block_column.
           destruct (total_height_at features _) as [total_height|f]; [|exact I].
           cbv beta iota delta [mbind result_bind].
           destruct (layer_bands _ _ _ _ _ _ _ _) as [[bottom chunks']|f]; [|exact I].
           cbn [holds snd]. intros x' z' Hcase.
           destruct (decide ((x, z) = (x', z'))) as [Heq|Hne].
           ++ rewrite Heq, lookup_insert_eq. eauto.
           ++ rewrite lookup_insert_ne by exact Hne. apply Hin.
              destruct Hcase as [?|[-> Hz']]; [now left|].
              right. split; [reflexivity|].
              assert (z' <> z) by congruence. lia.
        -- intros x' z [Hcase|[_ Hz]]; [|lia]. now apply Hdone.
      * cbn beta. intros state' Hin x' z Hx' Hz. apply Hin.
        destruct (decide (x' = x)) as [->|Hne]; [right; lia | left; lia].
    + intros x z Hx. lia.
  - cbn beta. intros state Hin x z Hx Hz. apply Hin; lia.
Qed.

Hypothesis draws_in_range : uniform_int_in_range.

(** The vegetation pass reads the height map at the block column it drew
    and nowhere else. *)
Lemma plant_tree_heights (column_position : Vector2i) (heights heights' : ChunkHeightmap)
    (state : rand48 * ChunkV) :
  MAX_TREE_RADIUS <= SIZE_X - MAX_TREE_RADIUS - 1 ->
  MAX_TREE_RADIUS <= SIZE_Z - MAX_TREE_RADIUS - 1 ->
  (forall x z, 0 <= x < SIZE_X -> 0 <= z < SIZE_Z -> heights' !! (x, z) = heights !! (x, z)) ->
  plant_tree column_position heights' state = plant_tree column_position heights state.
Proof.
  intros HX HZ Hsame. unfold plant_tree.
  pose proof (draws_in_range MAX_TREE_RADIUS (SIZE_X - MAX_TREE_RADIUS - 1) state.1 HX) as Hx.
  destruct (uniform_int MAX_TREE_RADIUS (SIZE_X - MAX_TREE_RADIUS - 1) state.1) as [x g1].
  pose proof (draws_in_range MAX_TREE_RADIUS (SIZE_Z - MAX_TREE_RADIUS - 1) g1 HZ) as Hz.
  destruct (uniform_int MAX_TREE_RADIUS (SIZE_Z - MAX_TREE_RADIUS - 1) g1) as [z g2].
  destruct (uniform_int MIN_TREE_HEIGHT MAX_TREE_HEIGHT g2) as [height g3].
  destruct (uniform_int MIN_TREE_RADIUS MAX_TREE_RADIUS g3) as [radius g4].
  cbn [fst] in Hx, Hz. unfold MAX_TREE_RADIUS in *.
  now rewrite Hsame by lia.
Qed.

Lemma populate_trees_heights (world_seed : Z) (chunks : ChunkV) (column_position : Vector2i)
    (heights heights' : ChunkHeightmap) :
  (forall x z, 0 <= x < SIZE_X -> 0 <= z < SIZE_Z -> heights' !! (x, z) = heights !! (x, z)) ->
  populate_trees world_seed chunks column_position heights' =
  populate_trees world_seed chunks column_position heights.
Proof.
  intros Hsame. unfold populate_trees.
  destruct (Z.leb_spec MAX_TREE_RADIUS (SIZE_X - MAX_TREE_RADIUS - 1)) as [HX|HX];
    [|reflexivity].
  destruct (Z.leb_spec MAX_TREE_RADIUS (SIZE_Z - MAX_TREE_RADIUS - 1)) as [HZ|HZ];
    [|reflexivity].
  cbn [andb].
  rewrite (for_each_ext _ (fun _ => plant_tree column_position heights')
             (fun _ => plant_tree column_position heights)); [reflexivity|].
  intros _ state _. now apply plant_tree_heights.
Qed.

(** What the array [heights] held when a chunk column was entered does not
    show in its chunks. *)
Lemma generate_column_from_leftover (leftover : ChunkHeightmap) (world_seed : Z)
    (region_features : RegionFeatures) (position : Vector2i) (x z : Z) (chunks : ChunkV) :
  generate_column_from leftover world_seed region_features position x z chunks =
  generate_column world_seed region_features position x z chunks.
Proof.
  unfold generate_column_from, generate_column.
  rewrite generate_chunk_column_over.
  pose proof (generate_chunk_column_entries [] region_features position
                (Vector2i_add position (x * SIZE_X, z * SIZE_Z)) ∅) as Hentries.
  destruct (generate_chunk_column [] region_features position _ ∅)
    as [[column_chunks heights]|f]; [|reflexivity].
  cbn [over_result over fst snd holds] in *.
  cbv beta iota delta [mbind result_bind over fst snd].
  rewrite (populate_trees_heights world_seed column_chunks _ heights (heights ∪ leftover));
    [reflexivity|].
  intros x' z' Hx' Hz'. destruct (Hentries x' z' Hx' Hz') as [b Hb].
  rewrite Hb. now apply lookup_union_Some_l.
Qed.

Lemma generate_region_from_leftover (leftover : Z -> Z -> ChunkHeightmap)
    (this : WorldGenerator) (position : Vector2i) :
  generate_region_from leftover this position = generate_region this position.
Proof.
  unfold generate_region_from, generate_region. f_equal.
  apply for_each_ext. intros x chunks _. apply for_each_ext. intros z chunks' _.
  apply generate_column_from_leftover.
Qed.

End LeftoverProofs.

(** C1.  Two generators made from one seed give the same region at a
    position - the same chunks in the same order, with the same origins and
    the same block materials - whichever regions each of them generated
    before, in whichever order, and whatever those calls left in the
    memory the array [heights] of each chunk column starts from: every
    entry the vegetation pass reads was written by the layering of that
    chunk column first, and the generator holds nothing but its seed. *)
Theorem generate_region_independent_of_history
    {constants : Constants} {noise : Noise} {random : Random}
    (world_seed : Z) (position : Vector2i) (before1 before2 : list Vector2i)
    (leftover1 leftover2 : Z -> Z -> ChunkHeightmap) :
  uniform_int_in_range ->
  let generator1 := (generate_regions (WorldGenerator_new world_seed) before1).2 in
  let generator2 := (generate_regions (WorldGenerator_new world_seed) before2).2 in
  (generate_region_from leftover1 generator1 position).1 =
  (generate_region_from leftover2 generator2 position).1.
Proof.
  intros Hdraws generator1 generator2. unfold generator1, generator2.
  rewrite !generate_regions_generator.
  now rewrite !(generate_region_from_leftover Hdraws).
Qed.

(** ** Scalars: digits, values and comparisons *)

Lemma digits2_pos_log2 (m : positive) : Z.pos (digits2_pos m) = Z.log2 (Z.pos m) + 1.
Proof.
  induction m as [m IH|m IH|]; simpl digits2_pos.
  - rewrite Pos2Z.inj_succ, IH.
    change (Z.pos m~1) with (2 * Z.pos m + 1). rewrite Z.log2_succ_double by lia. lia.
  - rewrite Pos2Z.inj_succ, IH.
    change (Z.pos m~0) with (2 * Z.pos m). rewrite Z.log2_double by lia. lia.
  - reflexivity.
Qed.

Lemma digits2_pos_bounds (m : positive) :
  2 ^ (Z.pos (digits2_pos m) - 1) <= Z.pos m < 2 ^ Z.pos (digits2_pos m).
Proof.
  rewrite digits2_pos_log2.
  pose proof (Z.log2_spec (Z.pos m) ltac:(lia)) as H.
  replace (Z.log2 (Z.pos m) + 1 - 1) with (Z.log2 (Z.pos m)) by lia.
  replace (Z.log2 (Z.pos m) + 1) with (Z.succ (Z.log2 (Z.pos m))) by lia. exact H.
Qed.

(** A datum of binary32 has a mantissa of at most 24 bits. *)
Lemma is_binary32_finite (s : bool) (m : positive) (e : Z) :
  Float.is_binary32 (S754_finite s m e) = true ->
  Z.pos m < 2 ^ 24 /\ -149 <= e <= 104.
Proof.
  unfold Float.is_binary32, valid_binary, bounded, canonical_mantissa, fexp, emin,
    Float.prec, Float.emax.
  intros [Hc%Z.eqb_eq He%Z.leb_le]%andb_true_iff.
  pose proof (digits2_pos_bounds m) as [_ Hm].
  assert (Hd : Z.pos (digits2_pos m) <= 24) by lia.
  split; [|lia].
  eapply Z.lt_le_trans; [exact Hm|]. apply Z.pow_le_mono_r; lia.
Qed.

Lemma Zpos_pow2 (k : Z) : 0 < k -> Z.pos (2 ^ Z.to_pos k) = 2 ^ k.
Proof. intros Hk. rewrite Pos2Z.inj_pow, Z2Pos.id by lia. reflexivity. Qed.

Lemma Qltb_lt (a b : Q) : Qltb a b = true <-> (a < b)%Q.
Proof.
  unfold Qltb. rewrite negb_true_iff, <- not_true_iff_false, Qle_bool_iff.
  split; [apply Qnot_le_lt | apply Qlt_not_le].
Qed.

Lemma ltb_Qlt (x y : spec_float) :
  Float.is_finite x = true -> Float.is_finite y = true ->
  Float.ltb x y = true <-> (Float.to_Q x < Float.to_Q y)%Q.
Proof.
  intros Hx Hy. unfold Float.ltb.
  assert (Hc : Float.compare x y = Some (Float.to_Q x ?= Float.to_Q y)%Q).
  { destruct x, y; try discriminate; reflexivity. }
  rewrite Hc, Qlt_alt. destruct (_ ?= _)%Q; split; congruence.
Qed.

Lemma window_test (d : Scalar) :
  Float.is_binary32 d = true ->
  Float.gtb d Float.dbl_0_45 && Float.ltb d Float.dbl_0_55 = strictly_inside d.
Proof.
  intros Hd. destruct d as [s|s| |s m e].
  - destruct s; reflexivity.
  - destruct s; reflexivity.
  - reflexivity.
  - apply is_binary32_finite in Hd as [Hm He].
    apply eq_iff_eq_true. unfold strictly_inside, Float.gtb.
    rewrite !andb_true_iff, !Qltb_lt, !ltb_Qlt by reflexivity.
    change (Float.to_Q Float.dbl_0_45) with (8106479329266893 # 18014398509481984).
    change (Float.to_Q Float.dbl_0_55) with (4953959590107546 # 9007199254740992).
    change (Float.is_finite (S754_finite s m e)) with true.
    assert (Hgoal :
      ((8106479329266893 # 18014398509481984) < Float.to_Q (S754_finite s m e) <->
       (9 # 20) < Float.to_Q (S754_finite s m e))%Q /\
      (Float.to_Q (S754_finite s m e) < (4953959590107546 # 9007199254740992) <->
       Float.to_Q (S754_finite s m e) < (11 # 20))%Q); [|tauto].
    unfold Float.to_Q. simpl Float.expo. simpl Float.signif.
    destruct (Z.leb_spec 0 e) as [Hpos|Hneg].
    + (* an integer, at least 1 or negative *)
      unfold Qlt. simpl Qnum. simpl Qden.
      pose proof (Z.pow_pos_nonneg 2 e ltac:(lia) Hpos) as Hp.
      destruct s; split; split; nia.
    + unfold Qlt. simpl Qnum. simpl Qden. rewrite Zpos_pow2 by lia.
      set (k := - e) in *.
      pose proof (Z.pow_pos_nonneg 2 k ltac:(lia) ltac:(lia)) as Hp.
      destruct s; [split; split; nia|].
      destruct (Z.le_gt_cases 26 k) as [Hbig|Hsmall].
      * assert (2 ^ 26 <= 2 ^ k) by (apply Z.pow_le_mono_r; lia).
        change (2 ^ 26) with 67108864 in *. change (2 ^ 24) with 16777216 in *.
        split; split; nia.
      * assert (Hk : 2 ^ k * 2 ^ (25 - k) = 2 ^ 25) by (rewrite <- Z.pow_add_r by lia; f_equal; lia).
        pose proof (Z.pow_pos_nonneg 2 (25 - k) ltac:(lia) ltac:(lia)) as Hj.
        set (D := 2 ^ k) in *. set (J := 2 ^ (25 - k)) in *.
        change (2 ^ 25) with 33554432 in Hk. change (2 ^ 24) with 16777216 in *.
        split; split; intros H; nia.
Qed.


(** ** Scalars: rounding and conversions *)

Lemma shr_1_m (mrs : shr_record) : 0 <= shr_m mrs -> shr_m (shr_1 mrs) = shr_m mrs / 2.
Proof.
  destruct mrs as [m r s]. simpl. intros Hm.
  destruct m as [|p|p]; [reflexivity| |lia].
  destruct p as [p|p|]; simpl.
  - rewrite Pos2Z.inj_xI. apply Z.div_unique with 1; lia.
  - rewrite Pos2Z.inj_xO. apply Z.div_unique with 0; lia.
  - reflexivity.
Qed.

Lemma pow2_xO (q : positive) : 2 ^ Z.pos q~0 = 2 ^ Z.pos q * 2 ^ Z.pos q.
Proof. rewrite Pos2Z.inj_xO, <- Z.pow_add_r by lia. f_equal. lia. Qed.

Lemma pow2_xI (q : positive) : 2 ^ Z.pos q~1 = 2 * (2 ^ Z.pos q * 2 ^ Z.pos q).
Proof.
  rewrite Pos2Z.inj_xI, <- Z.pow_add_r by lia.
  rewrite <- (Z.pow_succ_r 2) by lia. f_equal. lia.
Qed.

Lemma shr_m_iter (q : positive) (mrs : shr_record) :
  0 <= shr_m mrs -> shr_m (SpecFloat.iter_pos shr_1 q mrs) = shr_m mrs / 2 ^ Z.pos q.
Proof.
  revert mrs. induction q as [q IH|q IH|]; intros mrs Hm; simpl SpecFloat.iter_pos.
  - assert (H1 : 0 <= shr_m (shr_1 mrs)) by (rewrite shr_1_m by lia; apply Z.div_pos; lia).
    assert (H2 : 0 <= shr_m (SpecFloat.iter_pos shr_1 q (shr_1 mrs))).
    { rewrite IH by lia. apply Z.div_pos; lia. }
    rewrite IH, IH, shr_1_m by lia.
    rewrite !Z.div_div by lia. f_equal. rewrite pow2_xI. lia.
  - assert (H2 : 0 <= shr_m (SpecFloat.iter_pos shr_1 q mrs)).
    { rewrite IH by lia. apply Z.div_pos; lia. }
    rewrite IH, IH by lia.
    rewrite !Z.div_div by lia. f_equal. rewrite pow2_xO. lia.
  - rewrite shr_1_m by lia. reflexivity.
Qed.

(** Shifting right by [n] places (no shift for [n <= 0]). *)
Lemma shr_spec (mrs : shr_record) (e n : Z) :
  0 <= shr_m mrs ->
  shr_m (shr mrs e n).1 = shr_m mrs / 2 ^ Z.max n 0 /\ (shr mrs e n).2 = e + Z.max n 0.
Proof.
  intros Hm. destruct n as [|q|q]; simpl.
  - rewrite Z.div_1_r. lia.
  - rewrite shr_m_iter by lia. split; [reflexivity|lia].
  - rewrite Z.div_1_r. lia.
Qed.

Lemma round_nearest_even_range (m : Z) (l : location) :
  m <= round_nearest_even m l <= m + 1.
Proof. destruct l as [|[| |]]; simpl; try lia. destruct (Z.even m); lia. Qed.

Lemma Zdigits2_bounds (m : Z) : 0 < m -> 2 ^ (Zdigits2 m - 1) <= m < 2 ^ Zdigits2 m.
Proof.
  destruct m as [|p|p]; try lia. intros _. simpl Zdigits2.
  rewrite digits2_pos_log2.
  pose proof (Z.log2_spec (Z.pos p) ltac:(lia)) as H.
  replace (Z.log2 (Z.pos p) + 1 - 1) with (Z.log2 (Z.pos p)) by lia.
  replace (Z.log2 (Z.pos p) + 1) with (Z.succ (Z.log2 (Z.pos p))) by lia. exact H.
Qed.

Lemma shr_record_of_loc_m (m : Z) (l : location) : shr_m (shr_record_of_loc m l) = m.
Proof. destruct l as [|[| |]]; reflexivity. Qed.

(** After [shr_fexp] the mantissa has at most 24 bits. *)
Lemma shr_fexp_short (m e : Z) (l : location) :
  0 <= m ->
  0 <= shr_m (shr_fexp Float.prec Float.emax m e l).1 < 2 ^ 24.
Proof.
  intros Hm. unfold shr_fexp.
  pose proof (shr_spec (shr_record_of_loc m l) e
                (fexp Float.prec Float.emax (Zdigits2 m + e) - e)) as [Hs _].
  { rewrite shr_record_of_loc_m. lia. }
  rewrite Hs, shr_record_of_loc_m. clear Hs.
  set (n := fexp Float.prec Float.emax (Zdigits2 m + e) - e).
  assert (Hn : Zdigits2 m - 24 <= n).
  { unfold n, fexp, emin, Float.prec, Float.emax. lia. }
  split; [apply Z.div_pos; lia|].
  destruct (Z.eq_dec m 0) as [->|Hm0]; [rewrite Z.div_0_l; lia|].
  pose proof (Zdigits2_bounds m ltac:(lia)) as [_ Hd].
  apply Z.div_lt_upper_bound; [lia|].
  eapply Z.lt_le_trans; [exact Hd|].
  rewrite <- Z.pow_add_r by lia.
  apply Z.pow_le_mono_r; lia.
Qed.

Lemma fexp32 (x : Z) : fexp Float.prec Float.emax x = Z.max (x - 24) (-149).
Proof. reflexivity. Qed.

Lemma binary_round_aux_short (s : bool) (mx ex : Z) (lx : location) :
  0 <= mx -> short (binary_round_aux Float.prec Float.emax s mx ex lx).
Proof.
  intros Hmx. unfold binary_round_aux.
  pose proof (shr_fexp_short mx ex lx Hmx) as H1.
  destruct (shr_fexp Float.prec Float.emax mx ex lx) as [mrs' e']. simpl in H1.
  pose proof (round_nearest_even_range (shr_m mrs') (loc_of_shr_record mrs')) as Hr.
  pose proof (shr_fexp_short (round_nearest_even (shr_m mrs') (loc_of_shr_record mrs')) e'
                loc_Exact ltac:(lia)) as H2.
  destruct (shr_fexp Float.prec Float.emax _ e' loc_Exact) as [mrs'' e'']. simpl in H2.
  destruct (shr_m mrs'') as [|m|m]; simpl; [trivial| |trivial].
  destruct (e'' <=? _); simpl; [lia | trivial].
Qed.

Lemma binary_normalize_short (m e : Z) (szero : bool) :
  short (binary_normalize Float.prec Float.emax m e szero).
Proof.
  destruct m as [|p|p]; simpl; [trivial| |].
  - unfold binary_round. destruct (shl_align _ _ _) as [mz ez].
    apply binary_round_aux_short. lia.
  - unfold binary_round. destruct (shl_align _ _ _) as [mz ez].
    apply binary_round_aux_short. lia.
Qed.

Lemma of_int_short (n : Z) : short (Float.of_int n).
Proof. apply binary_normalize_short. Qed.

Lemma mul_short (x y : Scalar) : short (Float.mul x y).
Proof.
  destruct x as [sx|sx| |sx mx ex], y as [sy|sy| |sy my ey]; simpl; trivial.
  apply binary_round_aux_short. lia.
Qed.

Lemma add_short (x y : Scalar) : short x -> short y -> short (Float.add x y).
Proof.
  intros Hx Hy.
  destruct x as [sx|sx| |sx mx ex], y as [sy|sy| |sy my ey];
    try apply binary_normalize_short;
    simpl; trivial; destruct sx, sy; simpl; trivial.
Qed.

Lemma Zdigits2_unique (m d : Z) : 0 < d -> 2 ^ (d - 1) <= m < 2 ^ d -> Zdigits2 m = d.
Proof.
  intros Hd Hm.
  assert (Hpos : 0 < m).
  { pose proof (Z.pow_pos_nonneg 2 (d - 1) ltac:(lia) ltac:(lia)). lia. }
  destruct m as [|p|p]; try lia. simpl Zdigits2. rewrite digits2_pos_log2.
  rewrite (Z.log2_unique (Z.pos p) (d - 1)); [lia | lia |].
  replace (Z.succ (d - 1)) with d by lia. exact Hm.
Qed.

Lemma shr_fexp_noshift (m e : Z) (l : location) :
  fexp Float.prec Float.emax (Zdigits2 m + e) - e <= 0 ->
  shr_fexp Float.prec Float.emax m e l = (shr_record_of_loc m l, e).
Proof.
  intros Hn. unfold shr_fexp.
  destruct (fexp Float.prec Float.emax (Zdigits2 m + e) - e) as [|q|q]; [reflexivity|lia|reflexivity].
Qed.

(** Rounding a canonical mantissa and exponent changes nothing. *)
Lemma binary_round_aux_canonical (s : bool) (m : positive) (e : Z) :
  fexp Float.prec Float.emax (Zdigits2 (Z.pos m) + e) = e -> e <= 104 ->
  binary_round_aux Float.prec Float.emax s (Z.pos m) e loc_Exact = S754_finite s m e.
Proof.
  intros Hc He. unfold binary_round_aux.
  rewrite shr_fexp_noshift by lia. simpl shr_record_of_loc.
  cbn [shr_m loc_of_shr_record round_nearest_even].
  rewrite shr_fexp_noshift by lia. cbn [shr_record_of_loc shr_m].
  destruct (Z.leb_spec e (Float.emax - Float.prec)) as [_|Hbad]; [reflexivity|].
  unfold Float.emax, Float.prec in Hbad. lia.
Qed.

Lemma shl_align_spec (mx : positive) (ex ex' : Z) :
  ex' <= ex ->
  (shl_align mx ex ex').2 = ex' /\ Z.pos (shl_align mx ex ex').1 = Z.pos mx * 2 ^ (ex - ex').
Proof.
  intros Hle. unfold shl_align.
  destruct (ex' - ex) as [|d|d] eqn:Hd; simpl.
  - assert (ex' = ex) by lia. subst ex'. rewrite Z.sub_diag. simpl. lia.
  - lia.
  - split; [reflexivity|].
    change (Pos.iter xO mx d) with (shift_pos d mx).
    rewrite shift_pos_correct.
    replace (ex - ex') with (Z.pos d) by lia.
    rewrite Z.mul_comm. reflexivity.
Qed.

(** An integer of at most 24 bits converts exactly. *)
Lemma of_int_exact (p : positive) :
  Z.pos p < 2 ^ 24 ->
  exists m e, Float.of_int (Z.pos p) = S754_finite false m e /\
              -23 <= e <= 0 /\ Z.pos m = Z.pos p * 2 ^ (- e).
Proof.
  intros Hp.
  pose proof (digits2_pos_bounds p) as Hd.
  set (D := Z.pos (digits2_pos p)) in *.
  assert (HD : 1 <= D <= 24).
  { split; [unfold D; lia|].
    destruct (Z.le_gt_cases D 24) as [|Hgt]; [assumption|].
    assert (2 ^ 24 <= 2 ^ (D - 1)) by (apply Z.pow_le_mono_r; lia). lia. }
  unfold Float.of_int, binary_normalize, binary_round.
  fold D. rewrite fexp32.
  replace (Z.max (D + 0 - 24) (-149)) with (D - 24) by lia.
  pose proof (shl_align_spec p 0 (D - 24) ltac:(lia)) as [He Hm].
  destruct (shl_align p 0 (D - 24)) as [mz ez]. simpl in He, Hm. subst ez.
  replace (0 - (D - 24)) with (24 - D) in Hm by lia.
  assert (Hmz : 2 ^ 23 <= Z.pos mz < 2 ^ 24).
  { rewrite Hm.
    assert (E1 : 2 ^ (D - 1) * 2 ^ (24 - D) = 2 ^ 23).
    { rewrite <- Z.pow_add_r by lia. f_equal. lia. }
    assert (E2 : 2 ^ D * 2 ^ (24 - D) = 2 ^ 24).
    { rewrite <- Z.pow_add_r by lia. f_equal. lia. }
    pose proof (Z.pow_pos_nonneg 2 (24 - D) ltac:(lia) ltac:(lia)).
    nia. }
  assert (Hdz : Zdigits2 (Z.pos mz) = 24) by (apply Zdigits2_unique; [lia | exact Hmz]).
  rewrite binary_round_aux_canonical.
  - exists mz, (D - 24). split; [reflexivity|]. split; [lia|].
    rewrite Hm. f_equal. f_equal. lia.
  - rewrite Hdz, fexp32. lia.
  - lia.
Qed.

(** A larger integer converts to a float that is at least the integer
    with the bits below its 24 leading bits cleared. *)
Lemma of_int_large (p : positive) :
  2 ^ 24 <= Z.pos p < 2 ^ 100 ->
  exists m e, Float.of_int (Z.pos p) = S754_finite false m e /\
              Z.pos (digits2_pos p) - 24 <= e /\
              Z.pos p / 2 ^ (Z.pos (digits2_pos p) - 24) * 2 ^ (Z.pos (digits2_pos p) - 24)
              <= Z.pos m * 2 ^ e.
Proof.
  intros Hp.
  pose proof (digits2_pos_bounds p) as Hd.
  set (D := Z.pos (digits2_pos p)) in *.
  assert (HD : 25 <= D <= 100).
  { split.
    - destruct (Z.le_gt_cases 25 D) as [|Hlt]; [assumption|].
      assert (2 ^ D <= 2 ^ 24) by (apply Z.pow_le_mono_r; lia). lia.
    - destruct (Z.le_gt_cases D 100) as [|Hgt]; [assumption|].
      assert (2 ^ 100 <= 2 ^ (D - 1)) by (apply Z.pow_le_mono_r; lia). lia. }
  set (k := D - 24) in *.
  assert (Hk : 0 < 2 ^ k) by (apply Z.pow_pos_nonneg; lia).
  unfold Float.of_int, binary_normalize, binary_round.
  fold D. rewrite fexp32.
  replace (Z.max (D + 0 - 24) (-149)) with k by lia.
  assert (Hshl : shl_align p 0 k = (p, 0)).
  { unfold shl_align. destruct (k - 0) eqn:Hk0; try reflexivity. lia. }
  rewrite Hshl. unfold binary_round_aux, shr_fexp.
  change (Zdigits2 (Z.pos p)) with D. rewrite fexp32.
  replace (Z.max (D + 0 - 24) (-149) - 0) with k by lia.
  pose proof (shr_spec (shr_record_of_loc (Z.pos p) loc_Exact) 0 k ltac:(simpl; lia)) as [Hm1 He1].
  destruct (shr (shr_record_of_loc (Z.pos p) loc_Exact) 0 k) as [mrs' e'].
  simpl in Hm1, He1. rewrite Z.max_l in Hm1, He1 by lia. subst e'.
  assert (Hm1r : 2 ^ 23 <= shr_m mrs' < 2 ^ 24).
  { rewrite Hm1.
    assert (E1 : 2 ^ k * 2 ^ 23 = 2 ^ (D - 1)).
    { rewrite <- Z.pow_add_r by lia. f_equal. lia. }
    assert (E2 : 2 ^ k * 2 ^ 24 = 2 ^ D).
    { rewrite <- Z.pow_add_r by lia. f_equal. lia. }
    split.
    - apply Z.div_le_lower_bound; lia.
    - apply Z.div_lt_upper_bound; lia. }
  pose proof (round_nearest_even_range (shr_m mrs') (loc_of_shr_record mrs')) as Hr.
  set (m2 := round_nearest_even (shr_m mrs') (loc_of_shr_record mrs')) in *.
  assert (Hlow : Z.pos p / 2 ^ k * 2 ^ k <= m2 * 2 ^ k) by (rewrite <- Hm1; nia).
  destruct (Z.eq_dec m2 (2 ^ 24)) as [Heq|Hne].
  - (* the carry *)
    assert (Hd2 : Zdigits2 m2 = 25) by (apply Zdigits2_unique; [lia | rewrite Heq; simpl; lia]).
    rewrite Hd2, fexp32.
    replace (Z.max (25 + (0 + k) - 24) (-149) - (0 + k)) with 1 by lia.
    pose proof (shr_spec (shr_record_of_loc m2 loc_Exact) (0 + k) 1 ltac:(simpl; lia)) as [Hm3 He3].
    destruct (shr (shr_record_of_loc m2 loc_Exact) (0 + k) 1) as [mrs'' e''].
    change (Z.max 1 0) with 1 in Hm3, He3. cbn [fst snd] in Hm3, He3. subst e''.
    rewrite Hm3, Heq.
    change (2 ^ 24 / 2 ^ 1) with (Z.pos 8388608).
    cbv beta iota.
    destruct (Z.leb_spec (0 + k + 1) (Float.emax - Float.prec)) as [_|Hbad];
      [|unfold Float.emax, Float.prec in Hbad; lia].
    exists 8388608%positive, (0 + k + 1). split; [reflexivity|]. split; [lia|].
    rewrite Heq in Hlow. replace (0 + k + 1) with (k + 1) by lia.
    rewrite Z.pow_add_r by lia. change (2 ^ 1) with 2. change (2 ^ 24) with 16777216 in Hlow. lia.
  - assert (Hd2 : Zdigits2 m2 = 24) by (apply Zdigits2_unique; lia).
    rewrite Hd2, fexp32.
    replace (Z.max (24 + (0 + k) - 24) (-149) - (0 + k)) with 0 by lia.
    cbn [shr shr_record_of_loc shr_m].
    destruct m2 as [|q|q]; try lia.
    destruct (Z.leb_spec (0 + k) (Float.emax - Float.prec)) as [_|Hbad];
      [|unfold Float.emax, Float.prec in Hbad; lia].
    exists q, (0 + k). split; [reflexivity|]. split; [lia|].
    replace (0 + k) with k by lia. exact Hlow.
Qed.

Lemma at_least_Q (x : spec_float) (N : Z) :
  (inject_Z N <= Float.to_Q x)%Q <-> at_least x N.
Proof.
  unfold at_least, Float.to_Q.
  destruct (Z.leb_spec 0 (Float.expo x)) as [Hpos|Hneg].
  - rewrite <- Zle_Qle. rewrite Z.max_r, Z.max_l by lia. simpl (2 ^ 0). lia.
  - unfold Qle. simpl Qnum. simpl Qden. rewrite Zpos_pow2 by lia.
    rewrite Z.max_l, Z.max_r by lia. simpl (2 ^ 0). lia.
Qed.

Lemma to_unsigned_roundf_ge (h : Scalar) (N t : Z) :
  short h -> Float.is_finite h = true -> 0 <= N -> at_least h N ->
  Float.to_unsigned (Float.roundf h) = Some t ->
  N <= t /\ short_int t.
Proof.
  intros Hshort Hfin HN Hge.
  destruct h as [s|s| |s m e]; try discriminate.
  - simpl. intros [= <-]. unfold at_least in Hge. simpl in Hge.
    split; [lia|]. exists 0, 0. lia.
  - unfold at_least in Hge. simpl Float.expo in Hge. simpl Float.signif in Hge. simpl in Hshort.
    destruct s.
    { pose proof (Z.pow_pos_nonneg 2 (Z.max (- e) 0) ltac:(lia) ltac:(lia)).
      pose proof (Z.pow_pos_nonneg 2 (Z.max e 0) ltac:(lia) ltac:(lia)). nia. }
    unfold Float.roundf.
    destruct (Z.leb_spec 0 e) as [Hpos|Hneg].
    + unfold Float.to_unsigned. simpl Float.signif.
      replace (Z.max e 0) with e in * by lia.
      replace (Z.max (- e) 0) with 0 in * by lia. change (2 ^ 0) with 1 in *.
      rewrite Z.quot_1_r. destruct (_ && _); [|discriminate]. intros [= <-].
      split; [lia|]. exists (Z.pos m), e. lia.
    + replace (Z.max e 0) with 0 in Hge by lia.
      replace (Z.max (- e) 0) with (- e) in Hge by lia. change (2 ^ 0) with 1 in Hge.
      set (k := - e) in *.
      assert (Hk : 2 ^ k = 2 * 2 ^ (k - 1)).
      { rewrite <- (Z.pow_succ_r 2) by lia. f_equal. lia. }
      pose proof (Z.pow_pos_nonneg 2 (k - 1) ltac:(lia) ltac:(lia)) as Hk1.
      replace (- e - 1) with (k - 1) by lia.
      set (n := (Z.pos m + 2 ^ (k - 1)) / 2 ^ k).
      assert (Hn : N <= n) by (apply Z.div_le_lower_bound; lia).
      assert (Hnm : n <= Z.pos m) by (apply Z.div_le_upper_bound; nia).
      destruct n as [|p|p] eqn:Hnp.
      * simpl. intros [= <-]. split; [lia|]. exists 0, 0. lia.
      * destruct (of_int_exact p ltac:(lia)) as (mz & ez & Hof & Hez & Hmz).
        change (binary_normalize Float.prec Float.emax (Z.pos p) 0 false)
          with (Float.of_int (Z.pos p)).
        rewrite Hof. unfold Float.to_unsigned. simpl Float.signif.
        replace (Z.max ez 0) with 0 by lia.
        replace (Z.max (- ez) 0) with (- ez) by lia. change (2 ^ 0) with 1.
        rewrite Z.mul_1_r, Hmz, Z.quot_mul by lia.
        destruct (_ && _); [|discriminate]. intros [= <-].
        split; [lia|]. exists (Z.pos p), 0. lia.
      * pose proof (Z.div_pos (Z.pos m + 2 ^ (k - 1)) (2 ^ k) ltac:(lia) ltac:(lia)). lia.
Qed.

Lemma short_int_floor (bottom D : Z) :
  short_int bottom ->
  25 <= D -> 2 ^ (D - 1) <= bottom + 1 < 2 ^ D ->
  bottom <= (bottom + 1) / 2 ^ (D - 24) * 2 ^ (D - 24).
Proof.
  intros (m & e & He & Hm & ->) HD Hb.
  set (k := D - 24) in *.
  assert (Hk : 0 < 2 ^ k) by (apply Z.pow_pos_nonneg; lia).
  destruct (Z.eq_dec (m * 2 ^ e + 1) (2 ^ (D - 1))) as [Heq|Hne].
  - rewrite Heq. replace (D - 1) with (23 + k) by lia.
    rewrite Z.pow_add_r, Z.div_mul by lia.
    rewrite <- Z.pow_add_r by lia. replace (23 + k) with (D - 1) by lia. lia.
  - assert (Hek : k <= e).
    { destruct (Z.le_gt_cases k e) as [|Hlt]; [assumption|].
      assert (2 ^ e <= 2 ^ (k - 1)) by (apply Z.pow_le_mono_r; lia).
      assert (2 ^ 24 * 2 ^ (k - 1) = 2 ^ (D - 1)).
      { rewrite <- Z.pow_add_r by lia. f_equal. lia. }
      pose proof (Z.pow_pos_nonneg 2 e ltac:(lia) He). nia. }
    assert (Hsplit : 2 ^ e = 2 ^ (e - k) * 2 ^ k).
    { rewrite <- Z.pow_add_r by lia. f_equal. lia. }
    assert (Hdiv : m * 2 ^ (e - k) <= (m * 2 ^ e + 1) / 2 ^ k).
    { apply Z.div_le_lower_bound; [lia|]. rewrite Hsplit. lia. }
    rewrite Hsplit at 1. nia.
Qed.

Lemma short_int_succ_range (bottom : Z) :
  short_int bottom -> 0 <= bottom < 2 ^ 32 -> 0 < bottom + 1 < 2 ^ 32.
Proof.
  intros (m & e & He & Hm & ->) Hb. split; [lia|].
  destruct (Z.eq_dec (m * 2 ^ e) (2 ^ 32 - 1)) as [Heq|]; [|lia].
  destruct (Z.eq_dec e 0) as [->|Hne].
  - change (2 ^ 0) with 1 in Heq. change (2 ^ 24) with 16777216 in Hm. lia.
  - assert (2 ^ e = 2 * 2 ^ (e - 1)).
    { rewrite <- (Z.pow_succ_r 2) by lia. f_equal. lia. }
    change (2 ^ 32 - 1) with 4294967295 in Heq. lia.
Qed.

(** The float of [bottom + 1] is at least [bottom], and is [bottom + 1]
    below 2^24. *)
Lemma of_int_succ (bottom : Z) :
  short_int bottom -> 0 <= bottom < 2 ^ 32 ->
  exists m e, Float.of_int (to_unsigned (bottom + 1)) = S754_finite false m e /\
              at_least (S754_finite false m e) bottom /\
              (bottom + 1 < 2 ^ 24 -> at_least (S754_finite false m e) (bottom + 1)).
Proof.
  intros Hshort Hb.
  pose proof (short_int_succ_range bottom Hshort Hb) as Hn.
  rewrite to_unsigned_id by lia.
  destruct (bottom + 1) as [|p|p] eqn:Hp; try lia.
  destruct (Z.lt_ge_cases (Z.pos p) (2 ^ 24)) as [Hsmall|Hlarge].
  - destruct (of_int_exact p Hsmall) as (m & e & Hof & He & Hm).
    exists m, e. split; [exact Hof|].
    assert (Hge : at_least (S754_finite false m e) (Z.pos p)).
    { unfold at_least. simpl Float.expo. simpl Float.signif.
      replace (Z.max e 0) with 0 by lia. replace (Z.max (- e) 0) with (- e) by lia.
      change (2 ^ 0) with 1. lia. }
    split; [|intros _; exact Hge].
    unfold at_least in *. simpl Float.expo in *. simpl Float.signif in *.
    pose proof (Z.pow_pos_nonneg 2 (Z.max (- e) 0) ltac:(lia) ltac:(lia)). nia.
  - destruct (of_int_large p ltac:(change (2 ^ 32) with 4294967296 in Hn;
                                  change (2 ^ 100) with 1267650600228229401496703205376; lia))
      as (m & e & Hof & He & Hm).
    exists m, e. split; [exact Hof|].
    pose proof (digits2_pos_bounds p) as Hd.
    set (D := Z.pos (digits2_pos p)) in *.
    assert (HD : 25 <= D).
    { destruct (Z.le_gt_cases 25 D) as [|Hlt]; [assumption|].
      assert (2 ^ D <= 2 ^ 24) by (apply Z.pow_le_mono_r; lia). lia. }
    split; [|lia].
    pose proof (short_int_floor bottom D Hshort HD ltac:(rewrite Hp; exact Hd)) as Hfl.
    rewrite Hp in Hfl.
    unfold at_least. simpl Float.expo. simpl Float.signif.
    replace (Z.max e 0) with e by lia. replace (Z.max (- e) 0) with 0 by lia.
    change (2 ^ 0) with 1. lia.
Qed.

Lemma not_ltb_at_least (x b : spec_float) (N : Z) :
  Float.is_finite x = true -> Float.is_finite b = true ->
  Float.ltb x b = false -> at_least b N -> at_least x N.
Proof.
  intros Hx Hb Hlt Hge.
  apply at_least_Q. apply at_least_Q in Hge.
  eapply Qle_trans; [exact Hge|].
  apply Qnot_lt_le. intros Hq. apply (ltb_Qlt x b Hx Hb) in Hq. congruence.
Qed.

(** The top of a band lies above its bottom. *)
Lemma band_top_grows (second : Scalar) (bottom top : Z) :
  short second -> short_int bottom -> 0 <= bottom < 2 ^ 32 ->
  band_top second bottom = Some top ->
  bottom <= top /\ (bottom + 1 < 2 ^ 24 -> bottom + 1 <= top) /\ short_int top.
Proof.
  intros Hsecond Hshort Hb. unfold band_top.
  destruct (of_int_succ bottom Hshort Hb) as (m & e & Hof & Hge & Hge1).
  pose proof (of_int_short (to_unsigned (bottom + 1))) as Hbs.
  rewrite Hof in *. unfold Float.max.
  destruct (Float.ltb second (S754_finite false m e)) eqn:Hlt; intros Htop.
  - destruct (to_unsigned_roundf_ge _ bottom top Hbs eq_refl ltac:(lia) Hge Htop) as [H1 H2].
    repeat split; [exact H1| |exact H2].
    intros Hsmall.
    now destruct (to_unsigned_roundf_ge _ (bottom + 1) top Hbs eq_refl ltac:(lia)
                    (Hge1 Hsmall) Htop).
  - assert (Hfin : Float.is_finite second = true).
    { destruct second; try reflexivity; discriminate. }
    pose proof (not_ltb_at_least second (S754_finite false m e) bottom Hfin eq_refl Hlt Hge) as Hs.
    destruct (to_unsigned_roundf_ge _ bottom top Hsecond Hfin ltac:(lia) Hs Htop) as [H1 H2].
    repeat split; [exact H1| |exact H2].
    intros Hsmall.
    pose proof (not_ltb_at_least second (S754_finite false m e) (bottom + 1) Hfin eq_refl Hlt
                  (Hge1 Hsmall)) as Hs1.
    now destruct (to_unsigned_roundf_ge _ (bottom + 1) top Hsecond Hfin ltac:(lia) Hs1 Htop).
Qed.

(** ** Scalars: numbers of binary32 and their magnitude *)

Lemma shr_1_exact (m : positive) :
  shr_1 {| shr_m := Z.pos m~0; shr_r := false; shr_s := false |} =
  {| shr_m := Z.pos m; shr_r := false; shr_s := false |}.
Proof. reflexivity. Qed.

Lemma iter_pos_nat {A : Type} (f : A -> A) (q : positive) (x : A) :
  SpecFloat.iter_pos f q x = Nat.iter (Pos.to_nat q) f x.
Proof.
  revert x. induction q as [q IH|q IH|]; intros x; simpl SpecFloat.iter_pos.
  - rewrite !IH, Pos2Nat.inj_xI.
    replace (S (2 * Pos.to_nat q)) with (Pos.to_nat q + (Pos.to_nat q + 1))%nat by lia.
    rewrite !Nat.iter_add. reflexivity.
  - rewrite !IH, Pos2Nat.inj_xO.
    replace (2 * Pos.to_nat q)%nat with (Pos.to_nat q + Pos.to_nat q)%nat by lia.
    rewrite Nat.iter_add. reflexivity.
  - reflexivity.
Qed.

(** Shifting right the mantissa [m * 2^n] by [n] places is exact. *)
Lemma shr_nat_exact (n : nat) (m : positive) :
  Nat.iter n shr_1 {| shr_m := Z.pos m * 2 ^ Z.of_nat n; shr_r := false; shr_s := false |} =
  {| shr_m := Z.pos m; shr_r := false; shr_s := false |}.
Proof.
  revert m. induction n as [|n IH]; intros m.
  - simpl. now rewrite Z.mul_1_r.
  - rewrite Nat.iter_succ_r.
    replace (Z.pos m * 2 ^ Z.of_nat (S n)) with (Z.pos (m~0) * 2 ^ Z.of_nat n).
    + assert (Hstep : forall k : positive,
         shr_1 {| shr_m := Z.pos k~0 * 2 ^ Z.of_nat n; shr_r := false; shr_s := false |} =
         {| shr_m := Z.pos k * 2 ^ Z.of_nat n; shr_r := false; shr_s := false |}).
      { intros k.
        assert (Hp : exists j, Z.pos k * 2 ^ Z.of_nat n = Z.pos j).
        { pose proof (Z.pow_pos_nonneg 2 (Z.of_nat n) ltac:(lia) ltac:(lia)).
          destruct (Z.pos k * 2 ^ Z.of_nat n) as [|j|j] eqn:E; try lia. eauto. }
        destruct Hp as [j Hj].
        replace (Z.pos k~0 * 2 ^ Z.of_nat n) with (Z.pos j~0) by (rewrite Pos2Z.inj_xO, (Pos2Z.inj_xO k); lia).
        rewrite Hj. reflexivity. }
      rewrite Hstep. apply IH.
    + rewrite Nat2Z.inj_succ, Z.pow_succ_r by lia. rewrite Pos2Z.inj_xO. lia.
Qed.

Lemma Zdigits2_mul_pow2 (m : positive) (n : Z) :
  0 <= n -> Zdigits2 (Z.pos m * 2 ^ n) = Zdigits2 (Z.pos m) + n.
Proof.
  intros Hn.
  pose proof (digits2_pos_bounds m) as Hd.
  apply Zdigits2_unique; [simpl; lia|]. simpl Zdigits2.
  replace (Z.pos (digits2_pos m) + n - 1) with (Z.pos (digits2_pos m) - 1 + n) by lia.
  rewrite !Z.pow_add_r by lia.
  pose proof (Z.pow_pos_nonneg 2 n ltac:(lia) Hn). nia.
Qed.

(** Multiplying a number of binary32 by 1.0f gives the number back. *)
Lemma mul_lit_1_r (x : Scalar) :
  SpecModel.is_number x = true -> Float.mul x Float.lit_1 = x.
Proof.
  unfold SpecModel.is_number. intros [Hfin Hvalid]%andb_true_iff.
  destruct x as [s|s| |s m e]; try discriminate.
  - destruct s; reflexivity.
  - unfold Float.is_binary32, valid_binary, bounded in Hvalid.
    apply andb_true_iff in Hvalid as [Hc%Z.eqb_eq He%Z.leb_le].
    unfold Float.emax, Float.prec in He.
    unfold Float.mul, SFmul, Float.lit_1. rewrite xorb_false_r.
    unfold binary_round_aux, shr_fexp.
    replace (Z.pos (m * 8388608)) with (Z.pos m * 2 ^ 23) by reflexivity.
    rewrite Zdigits2_mul_pow2 by lia. simpl Zdigits2.
    replace (Z.pos (digits2_pos m) + 23 + (e + -23)) with (Z.pos (digits2_pos m) + e) by lia.
    rewrite Hc. replace (e - (e + -23)) with 23 by lia.
    unfold shr. rewrite iter_pos_nat.
    change (Pos.to_nat 23) with 23%nat.
    change (2 ^ 23) with (2 ^ Z.of_nat 23).
    cbn [shr_record_of_loc]. rewrite shr_nat_exact.
    cbn [shr_m loc_of_shr_record round_nearest_even].
    replace (e + -23 + 23) with e by lia.
    change (Zdigits2 (Z.pos m)) with (Z.pos (digits2_pos m)). rewrite Hc, Z.sub_diag.
    cbn [shr_record_of_loc shr_m].
    destruct (Z.leb_spec e (Float.emax - Float.prec)) as [_|Hbad]; [reflexivity|].
    unfold Float.emax, Float.prec in Hbad. lia.
Qed.

Lemma Zdigits2_lt_pow (m k : Z) : 0 < m < 2 ^ k -> Zdigits2 m <= k.
Proof.
  intros Hm. pose proof (Zdigits2_bounds m ltac:(lia)) as Hd.
  destruct (Z.le_gt_cases (Zdigits2 m) k) as [|Hgt]; [assumption|].
  assert (0 <= k).
  { destruct (Z.le_gt_cases 0 k); [assumption|]. rewrite Z.pow_neg_r in Hm; lia. }
  assert (2 ^ k <= 2 ^ (Zdigits2 m - 1)) by (apply Z.pow_le_mono_r; lia). lia.
Qed.

Lemma Zdigits2_pos (m : Z) : 0 < m -> 0 < Zdigits2 m.
Proof. destruct m; simpl; lia. Qed.

Lemma below_finite (s : bool) (q : positive) (e M : Z) :
  fexp Float.prec Float.emax (Z.pos (digits2_pos q) + e) = e -> e <= 104 ->
  Z.pos (digits2_pos q) + e <= M ->
  below M (S754_finite s q e).
Proof.
  intros Hc He HM. split; [|exact HM].
  unfold SpecModel.is_number, Float.is_binary32, valid_binary, bounded, canonical_mantissa.
  simpl Float.is_finite. rewrite Hc, Z.eqb_refl. simpl.
  apply Z.leb_le. unfold Float.emax, Float.prec. lia.
Qed.

(** Rounding a mantissa that has digits enough gives a number of binary32,
    at most one binade above the unrounded one. *)
Lemma binary_round_aux_below (s : bool) (mx ex : Z) (lx : location) :
  0 < mx ->
  ex <= fexp Float.prec Float.emax (Zdigits2 mx + ex) ->
  Zdigits2 mx + ex + 1 <= 128 ->
  below (Z.max (Zdigits2 mx + ex + 1) (-148))
        (binary_round_aux Float.prec Float.emax s mx ex lx).
Proof.
  intros Hmx HP Hsize.
  pose proof (Zdigits2_bounds mx Hmx) as HD.
  pose proof (Zdigits2_pos mx Hmx) as HDpos.
  set (D := Zdigits2 mx) in *.
  rewrite fexp32 in HP.
  unfold binary_round_aux, shr_fexp. fold D. rewrite fexp32.
  set (E := Z.max (D + ex - 24) (-149)) in *.
  pose proof (shr_spec (shr_record_of_loc mx lx) ex (E - ex)
                ltac:(rewrite shr_record_of_loc_m; lia)) as [Hm1 He1].
  destruct (shr (shr_record_of_loc mx lx) ex (E - ex)) as [mrs' e'].
  cbn [fst snd] in Hm1, He1. rewrite shr_record_of_loc_m in Hm1.
  replace (Z.max (E - ex) 0) with (E - ex) in Hm1, He1 by lia.
  replace (ex + (E - ex)) with E in He1 by lia. subst e'.
  pose proof (round_nearest_even_range (shr_m mrs') (loc_of_shr_record mrs')) as Hr.
  set (m2 := round_nearest_even (shr_m mrs') (loc_of_shr_record mrs')) in *.
  assert (Hpow : 0 < 2 ^ (E - ex)) by (apply Z.pow_pos_nonneg; lia).
  destruct (Z.le_gt_cases (-149) (D + ex - 24)) as [Hnormal|Hsub].
  - (* a normal number *)
    assert (HE : E = D + ex - 24) by lia.
    assert (Hm1r : 2 ^ 23 <= shr_m mrs' < 2 ^ 24).
    { rewrite Hm1. replace (E - ex) with (D - 24) in * by lia.
      assert (E1 : 2 ^ (D - 24) * 2 ^ 23 = 2 ^ (D - 1)).
      { rewrite <- Z.pow_add_r by lia. f_equal. lia. }
      assert (E2 : 2 ^ (D - 24) * 2 ^ 24 = 2 ^ D).
      { rewrite <- Z.pow_add_r by lia. f_equal. lia. }
      split; [apply Z.div_le_lower_bound; lia | apply Z.div_lt_upper_bound; lia]. }
    destruct (Z.eq_dec m2 (2 ^ 24)) as [Heq|Hne].
    + assert (Hd2 : Zdigits2 m2 = 25) by (apply Zdigits2_unique; [lia | rewrite Heq; simpl; lia]).
      rewrite Hd2, fexp32.
      replace (Z.max (25 + E - 24) (-149) - E) with 1 by lia.
      pose proof (shr_spec (shr_record_of_loc m2 loc_Exact) E 1 ltac:(simpl; lia)) as [Hm3 He3].
      destruct (shr (shr_record_of_loc m2 loc_Exact) E 1) as [mrs'' e''].
      change (Z.max 1 0) with 1 in Hm3, He3. cbn [fst snd] in Hm3, He3. subst e''.
      cbn [shr_record_of_loc shr_m] in Hm3.
      rewrite Hm3, Heq. change (2 ^ 24 / 2 ^ 1) with (Z.pos 8388608). cbv beta iota.
      destruct (Z.leb_spec (E + 1) (Float.emax - Float.prec)) as [_|Hbad];
        [|unfold Float.emax, Float.prec in Hbad; lia].
      apply below_finite; [rewrite fexp32; simpl digits2_pos; lia | lia | simpl digits2_pos; lia].
    + assert (Hd2 : Zdigits2 m2 = 24) by (apply Zdigits2_unique; lia).
      rewrite Hd2, fexp32.
      replace (Z.max (24 + E - 24) (-149) - E) with 0 by lia.
      cbn [shr shr_record_of_loc shr_m].
      destruct m2 as [|q|q] eqn:Hq; try lia.
      destruct (Z.leb_spec E (Float.emax - Float.prec)) as [_|Hbad];
        [|unfold Float.emax, Float.prec in Hbad; lia].
      change (Zdigits2 (Z.pos q)) with (Z.pos (digits2_pos q)) in Hd2.
      apply below_finite; [rewrite fexp32; lia | lia | lia].
  - (* at the bottom of the range *)
    assert (HE : E = -149) by lia.
    set (k := Z.max (D + ex + 149) 0).
    assert (Hm1r : 0 <= shr_m mrs' < 2 ^ k).
    { rewrite Hm1. split; [apply Z.div_pos; lia|].
      apply Z.div_lt_upper_bound; [lia|].
      rewrite <- Z.pow_add_r by lia.
      eapply Z.lt_le_trans; [apply HD|]. apply Z.pow_le_mono_r; lia. }
    destruct (Z.eq_dec m2 0) as [Hz|Hnz].
    + rewrite Hz. simpl Zdigits2. rewrite fexp32.
      replace (Z.max (0 + E - 24) (-149) - E) with 0 by lia.
      cbn [shr shr_record_of_loc shr_m]. split; reflexivity.
    + assert (Hm2 : 0 < m2 < 2 ^ (k + 1)).
      { rewrite Z.pow_add_r by lia. change (2 ^ 1) with 2. lia. }
      pose proof (Zdigits2_lt_pow m2 (k + 1) Hm2) as Hd2.
      pose proof (Zdigits2_pos m2 ltac:(lia)) as Hd2pos.
      rewrite fexp32.
      replace (Z.max (Zdigits2 m2 + E - 24) (-149) - E) with 0 by lia.
      cbn [shr shr_record_of_loc shr_m].
      destruct m2 as [|q|q] eqn:Hq; try lia.
      destruct (Z.leb_spec E (Float.emax - Float.prec)) as [_|Hbad];
        [|unfold Float.emax, Float.prec in Hbad; lia].
      change (Zdigits2 (Z.pos q)) with (Z.pos (digits2_pos q)) in *.
      apply below_finite; [rewrite fexp32; lia | lia | lia].
Qed.


Lemma below_mono (M M' : Z) (x : Scalar) : below M x -> M <= M' -> below M' x.
Proof. intros [Hn Hm] Hle. split; [exact Hn|]. destruct x; trivial. lia. Qed.

Lemma below_zero (M : Z) (s : bool) : below M (S754_zero s).
Proof. split; reflexivity. Qed.

(** What a finite number of binary32 is made of. *)
Lemma below_finite_inv (M : Z) (s : bool) (m : positive) (e : Z) :
  below M (S754_finite s m e) ->
  Z.pos (digits2_pos m) <= 24 /\ -149 <= e <= 104 /\
  (Z.pos (digits2_pos m) = 24 \/ e = -149) /\ Z.pos (digits2_pos m) + e <= M.
Proof.
  intros [Hn Hm]. unfold SpecModel.is_number in Hn. apply andb_true_iff in Hn as [_ Hv].
  unfold Float.is_binary32, valid_binary, bounded, canonical_mantissa in Hv.
  apply andb_true_iff in Hv as [Hc%Z.eqb_eq He%Z.leb_le].
  rewrite fexp32 in Hc. unfold Float.emax, Float.prec in He. lia.
Qed.

Lemma Zdigits2_mul (a b : positive) :
  Z.pos (digits2_pos a) + Z.pos (digits2_pos b) - 1 <= Zdigits2 (Z.pos (a * b))
  <= Z.pos (digits2_pos a) + Z.pos (digits2_pos b).
Proof.
  pose proof (digits2_pos_bounds a) as Ha. pose proof (digits2_pos_bounds b) as Hb.
  pose proof (Zdigits2_bounds (Z.pos (a * b)) ltac:(lia)) as Hab.
  set (da := Z.pos (digits2_pos a)) in *. set (db := Z.pos (digits2_pos b)) in *.
  set (d := Zdigits2 (Z.pos (a * b))) in *.
  assert (Hda : 0 < da) by (unfold da; lia). assert (Hdb : 0 < db) by (unfold db; lia).
  assert (Hd : 0 < d) by (unfold d; simpl; lia).
  rewrite Pos2Z.inj_mul in Hab.
  assert (Hlo : 2 ^ (da - 1 + (db - 1)) <= Z.pos a * Z.pos b).
  { rewrite Z.pow_add_r by lia. nia. }
  assert (Hhi : Z.pos a * Z.pos b < 2 ^ (da + db)).
  { rewrite Z.pow_add_r by lia. nia. }
  split.
  - destruct (Z.le_gt_cases (da + db - 1) d) as [|Hlt]; [assumption|].
    assert (2 ^ d <= 2 ^ (da - 1 + (db - 1))) by (apply Z.pow_le_mono_r; lia). lia.
  - destruct (Z.le_gt_cases d (da + db)) as [|Hgt]; [assumption|].
    assert (2 ^ (da + db) <= 2 ^ (d - 1)) by (apply Z.pow_le_mono_r; lia). lia.
Qed.

Lemma mul_below (M N : Z) (x y : Scalar) :
  below M x -> below N y -> M + N + 1 <= 128 ->
  below (Z.max (M + N + 1) (-148)) (Float.mul x y).
Proof.
  intros Hx Hy Hsize.
  destruct x as [sx|sx| |sx mx ex]; try (destruct Hx as [Hx _]; discriminate);
    destruct y as [sy|sy| |sy my ey]; try (destruct Hy as [Hy _]; discriminate);
    try apply below_zero.
  apply below_finite_inv in Hx as (Hdx & Hex & Hcx & HMx).
  apply below_finite_inv in Hy as (Hdy & Hey & Hcy & HMy).
  pose proof (Zdigits2_mul mx my) as Hd.
  unfold Float.mul, SFmul.
  eapply below_mono.
  - apply binary_round_aux_below; [lia | rewrite fexp32; lia | lia].
  - lia.
Qed.

Lemma binary_round_below (s : bool) (p : positive) (e : Z) :
  Z.pos (digits2_pos p) + e + 1 <= 128 ->
  below (Z.max (Z.pos (digits2_pos p) + e + 1) (-148))
        (binary_round Float.prec Float.emax s p e).
Proof.
  intros Hsize. unfold binary_round. rewrite fexp32.
  set (d := Z.pos (digits2_pos p)) in *.
  set (e' := Z.max (d + e - 24) (-149)).
  destruct (Z.le_gt_cases e' e) as [Hle|Hgt].
  - pose proof (shl_align_spec p e e' Hle) as [He Hm].
    destruct (shl_align p e e') as [mz ez]. cbn [fst snd] in He, Hm. subst ez.
    assert (Hdz : Zdigits2 (Z.pos mz) = d + (e - e')).
    { rewrite Hm. apply Zdigits2_mul_pow2. lia. }
    eapply below_mono.
    + apply binary_round_aux_below; [lia | rewrite fexp32, Hdz; lia | rewrite Hdz; lia].
    + rewrite Hdz. lia.
  - assert (Hshl : shl_align p e e' = (p, e)).
    { unfold shl_align. destruct (e' - e) eqn:Hd; try reflexivity. lia. }
    rewrite Hshl.
    apply binary_round_aux_below; [lia | rewrite fexp32; simpl Zdigits2; fold d; lia |].
    simpl Zdigits2. fold d. lia.
Qed.

Lemma binary_normalize_below (K : Z) (m e : Z) (szero : bool) :
  Z.abs m < 2 ^ (K - e) -> K + 1 <= 128 ->
  below (Z.max (K + 1) (-148)) (binary_normalize Float.prec Float.emax m e szero).
Proof.
  intros Hm Hsize.
  destruct m as [|p|p]; simpl binary_normalize; [apply below_zero| |].
  - pose proof (Zdigits2_lt_pow (Z.pos p) (K - e) ltac:(lia)) as Hd. simpl Zdigits2 in Hd.
    eapply below_mono; [apply binary_round_below; lia | lia].
  - pose proof (Zdigits2_lt_pow (Z.pos p) (K - e) ltac:(simpl Z.abs in Hm; lia)) as Hd.
    simpl Zdigits2 in Hd.
    eapply below_mono; [apply binary_round_below; lia | lia].
Qed.

(** The aligned mantissa of a number below [2^M]. *)
Lemma shl_align_below (M : Z) (m : positive) (e ez : Z) :
  Z.pos (digits2_pos m) + e <= M -> ez <= e ->
  Z.pos (shl_align m e ez).1 < 2 ^ (M - ez).
Proof.
  intros HM Hle. destruct (shl_align_spec m e ez Hle) as [_ Hm]. rewrite Hm.
  pose proof (digits2_pos_bounds m) as [_ Hd].
  eapply Z.lt_le_trans.
  - apply Z.mul_lt_mono_pos_r; [apply Z.pow_pos_nonneg; lia | exact Hd].
  - rewrite <- Z.pow_add_r by lia. apply Z.pow_le_mono_r; lia.
Qed.

Lemma cond_Zopp_abs (s : bool) (m : Z) : Z.abs (cond_Zopp s m) = Z.abs m.
Proof. destruct s; simpl; lia. Qed.

Lemma add_below (M N : Z) (x y : Scalar) :
  below M x -> below N y -> Z.max M N + 2 <= 128 ->
  below (Z.max (Z.max M N + 2) (-148)) (Float.add x y).
Proof.
  intros Hx Hy Hsize.
  destruct x as [sx|sx| |sx mx ex]; try (destruct Hx as [Hx _]; discriminate);
    destruct y as [sy|sy| |sy my ey]; try (destruct Hy as [Hy _]; discriminate).
  - destruct sx, sy; apply below_zero.
  - eapply below_mono; [exact Hy | lia].
  - eapply below_mono; [exact Hx | lia].
  - pose proof Hx as Hx'. pose proof Hy as Hy'.
    apply below_finite_inv in Hx' as (Hdx & Hex & Hcx & HMx).
    apply below_finite_inv in Hy' as (Hdy & Hey & Hcy & HMy).
    unfold Float.add, SFadd.
    set (ez := Z.min ex ey).
    pose proof (shl_align_below (Z.max M N) mx ex ez ltac:(lia) ltac:(lia)) as Hax.
    pose proof (shl_align_below (Z.max M N) my ey ez ltac:(lia) ltac:(lia)) as Hay.
    replace (Z.max M N + 2) with (Z.max M N + 1 + 1) by lia.
    apply binary_normalize_below; [|lia].
    replace (Z.max M N + 1 - ez) with (Z.succ (Z.max M N - ez)) by lia.
    rewrite Z.pow_succ_r by lia.
    pose proof (cond_Zopp_abs sx (Z.pos (shl_align mx ex ez).1)).
    pose proof (cond_Zopp_abs sy (Z.pos (shl_align my ey ez).1)). lia.
Qed.

Lemma sub_below (M N : Z) (x y : Scalar) :
  below M x -> below N y -> Z.max M N + 2 <= 128 ->
  below (Z.max (Z.max M N + 2) (-148)) (Float.sub x y).
Proof.
  intros Hx Hy Hsize.
  destruct x as [sx|sx| |sx mx ex]; try (destruct Hx as [Hx _]; discriminate);
    destruct y as [sy|sy| |sy my ey]; try (destruct Hy as [Hy _]; discriminate).
  - destruct sx, sy; apply below_zero.
  - eapply below_mono with (M := N); [|lia]. destruct Hy as [Hn Hm]. split; [|exact Hm].
    exact Hn.
  - eapply below_mono; [exact Hx | lia].
  - pose proof Hx as Hx'. pose proof Hy as Hy'.
    apply below_finite_inv in Hx' as (Hdx & Hex & Hcx & HMx).
    apply below_finite_inv in Hy' as (Hdy & Hey & Hcy & HMy).
    unfold Float.sub, SFsub.
    set (ez := Z.min ex ey).
    pose proof (shl_align_below (Z.max M N) mx ex ez ltac:(lia) ltac:(lia)) as Hax.
    pose proof (shl_align_below (Z.max M N) my ey ez ltac:(lia) ltac:(lia)) as Hay.
    replace (Z.max M N + 2) with (Z.max M N + 1 + 1) by lia.
    apply binary_normalize_below; [|lia].
    replace (Z.max M N + 1 - ez) with (Z.succ (Z.max M N - ez)) by lia.
    rewrite Z.pow_succ_r by lia.
    pose proof (cond_Zopp_abs sx (Z.pos (shl_align mx ex ez).1)).
    pose proof (cond_Zopp_abs sy (Z.pos (shl_align my ey ez).1)). lia.
Qed.

(** ** The order of the bands *)

Lemma lit_short :
  short Float.lit_1 /\ short Float.lit_20 /\ short Float.lit_52 /\
  short Float.lit_58 /\ short Float.lit_62 /\ short Float.lit_63.
Proof. repeat split; reflexivity. Qed.

Lemma layers_short (total_height : Scalar) :
  Forall (fun layer => short layer.2) (layers total_height).
Proof.
  destruct lit_short as (H1 & H20 & H52 & H58 & H62 & H63).
  unfold layers.
  repeat (apply List.Forall_cons; [cbn [snd]; first [exact H1 | apply add_short; [assumption | apply mul_short]]|]).
  apply List.Forall_nil.
Qed.

Lemma short_int_0 : short_int 0.
Proof. exists 0, 0. lia. Qed.

Lemma band_tops_ascend (ls : list (BlockMaterial * Scalar)) (bottom : Z) (tops : list Z) :
  Forall (fun layer => short layer.2) ls ->
  short_int bottom -> 0 <= bottom < 2 ^ 32 ->
  band_tops ls bottom = Some tops ->
  bands_ascend bottom tops /\ length tops = length ls.
Proof.
  revert bottom tops. induction ls as [|[material second] ls IH]; intros bottom tops Hls Hs Hb.
  - simpl. intros [= <-]. split; [exact I | reflexivity].
  - simpl. inversion Hls as [|? ? Hsecond Hls']. subst. simpl in Hsecond.
    destruct (band_top second bottom) as [top|] eqn:Htop; [|discriminate]. simpl.
    destruct (band_tops ls top) as [tops'|] eqn:Htops; [|discriminate]. simpl.
    intros [= <-].
    pose proof (band_top_range _ _ _ Htop) as Hrange.
    destruct (band_top_grows second bottom top Hsecond Hs Hb Htop) as (H1 & H2 & H3).
    destruct (IH top tops' Hls' H3 Hrange Htops) as [IH1 IH2].
    simpl. repeat split; auto.
Qed.

Lemma bands_ascend_sorted (bottom : Z) (tops : list Z) :
  bands_ascend bottom tops -> Sorted Z.le (bottom :: tops).
Proof.
  revert bottom. induction tops as [|top tops IH]; intros bottom Ha.
  - repeat constructor.
  - destruct Ha as (H1 & _ & H3). constructor; [now apply IH|]. now constructor.
Qed.

(** Whenever the conversions to [unsigned] are defined the tops do not
    decrease, whatever the total height is. *)
Lemma band_tops_non_decreasing (total_height : Scalar) (tops : list Z) :
  band_tops (layers total_height) 0 = Some tops ->
  length tops = 6%nat /\ Sorted Z.le tops /\ bands_ascend 0 tops.
Proof.
  intros Htops.
  destruct (band_tops_ascend (layers total_height) 0 tops (layers_short total_height)
              short_int_0 ltac:(lia) Htops) as [Ha Hlen].
  split; [exact Hlen|]. split; [|exact Ha].
  apply bands_ascend_sorted in Ha. now inversion Ha.
Qed.

Lemma below_short (M : Z) (x : Scalar) : below M x -> short x.
Proof.
  destruct x as [s|s| |s m e]; simpl; trivial. intros H.
  apply below_finite_inv in H as (Hd & _).
  pose proof (digits2_pos_bounds m) as [_ Hm].
  eapply Z.lt_le_trans; [exact Hm|]. apply Z.pow_le_mono_r; lia.
Qed.

Lemma below_is_finite (M : Z) (x : Scalar) : below M x -> Float.is_finite x = true.
Proof. intros [Hn _]. unfold SpecModel.is_number in Hn. now apply andb_true_iff in Hn as [H _]. Qed.

(** [unsigned( roundf( h ) )] is defined for a number that is not negative
    and below [2^M], [M <= 31], and is at most [2^M]. *)
Lemma to_unsigned_roundf_defined (h : Scalar) (M : Z) :
  below M h -> 0 <= M <= 31 -> at_least h 0 ->
  exists t, Float.to_unsigned (Float.roundf h) = Some t /\ t <= 2 ^ M.
Proof.
  intros Hb HM Hge.
  pose proof (Z.pow_pos_nonneg 2 M ltac:(lia) ltac:(lia)) as HpM.
  destruct h as [s|s| |s m e]; try (destruct Hb as [Hb _]; discriminate).
  - exists 0. split; [reflexivity | lia].
  - apply below_finite_inv in Hb as (Hd & He & _ & Hmag).
    pose proof (digits2_pos_bounds m) as [_ Hm].
    set (d := Z.pos (digits2_pos m)) in *.
    unfold at_least in Hge. simpl Float.expo in Hge. simpl Float.signif in Hge.
    destruct s.
    { pose proof (Z.pow_pos_nonneg 2 (Z.max e 0) ltac:(lia) ltac:(lia)). nia. }
    unfold Float.roundf.
    destruct (Z.leb_spec 0 e) as [Hpos|Hneg].
    + unfold Float.to_unsigned. simpl Float.signif.
      replace (Z.max e 0) with e by lia. replace (Z.max (- e) 0) with 0 by lia.
      change (2 ^ 0) with 1. rewrite Z.quot_1_r.
      assert (Hval : Z.pos m * 2 ^ e < 2 ^ M).
      { eapply Z.lt_le_trans.
        - apply Z.mul_lt_mono_pos_r; [apply Z.pow_pos_nonneg; lia | exact Hm].
        - rewrite <- Z.pow_add_r by lia. apply Z.pow_le_mono_r; lia. }
      assert (2 ^ M <= 2 ^ 32) by (apply Z.pow_le_mono_r; lia).
      pose proof (Z.pow_pos_nonneg 2 e ltac:(lia) Hpos).
      destruct (Z.leb_spec 0 (Z.pos m * 2 ^ e)); [|nia].
      destruct (Z.ltb_spec (Z.pos m * 2 ^ e) (2 ^ 32)); [|lia].
      simpl. eexists. split; [reflexivity | lia].
    + set (k := - e) in *.
      assert (Hk : 2 ^ k = 2 * 2 ^ (k - 1)).
      { rewrite <- (Z.pow_succ_r 2) by lia. f_equal. lia. }
      pose proof (Z.pow_pos_nonneg 2 (k - 1) ltac:(lia) ltac:(lia)) as Hk1.
      replace (- e - 1) with (k - 1) by lia.
      set (n := (Z.pos m + 2 ^ (k - 1)) / 2 ^ k).
      assert (Hnm : 0 <= n <= Z.pos m).
      { split; [apply Z.div_pos; lia | apply Z.div_le_upper_bound; nia]. }
      assert (Hn24 : n < 2 ^ 24).
      { assert (2 ^ d <= 2 ^ 24) by (apply Z.pow_le_mono_r; lia). lia. }
      assert (HnM : n <= 2 ^ M).
      { destruct (Z.le_gt_cases k d) as [Hkd|Hkd].
        - assert (Hsplit : 2 ^ d = 2 ^ (d - k) * 2 ^ k).
          { rewrite <- Z.pow_add_r by lia. f_equal. lia. }
          assert (2 ^ (d - k) <= 2 ^ M) by (apply Z.pow_le_mono_r; lia).
          assert (n <= 2 ^ (d - k)); [|lia].
          apply Z.lt_succ_r. apply Z.div_lt_upper_bound; [lia|]. nia.
        - assert (2 ^ d <= 2 ^ (k - 1)) by (apply Z.pow_le_mono_r; lia).
          assert (n < 1); [|lia].
          apply Z.div_lt_upper_bound; lia. }
      destruct n as [|p|p] eqn:Hnp; try lia.
      * exists 0. split; [reflexivity | lia].
      * destruct (of_int_exact p Hn24) as (mz & ez & Hof & Hez & Hmz).
        change (binary_normalize Float.prec Float.emax (Z.pos p) 0 false)
          with (Float.of_int (Z.pos p)).
        rewrite Hof. unfold Float.to_unsigned. simpl Float.signif.
        replace (Z.max ez 0) with 0 by lia.
        replace (Z.max (- ez) 0) with (- ez) by lia. change (2 ^ 0) with 1.
        rewrite Z.mul_1_r, Hmz, Z.quot_mul by lia.
        change (2 ^ 24) with 16777216 in Hn24.
        destruct (Z.leb_spec 0 (Z.pos p)); [|lia].
        destruct (Z.ltb_spec (Z.pos p) (2 ^ 32)); [|change (2 ^ 32) with 4294967296 in *; lia].
        simpl. eexists. split; [reflexivity | lia].
Qed.

(** The conversion does not exceed an integer the number does not
    exceed. *)
Lemma to_unsigned_roundf_le (h : Scalar) (N t : Z) :
  short h -> at_least h 0 -> at_most h N ->
  Float.to_unsigned (Float.roundf h) = Some t -> t <= N.
Proof.
  intros Hshort Hge Hle.
  destruct h as [s|s| |s m e]; try discriminate.
  - simpl. intros [= <-]. unfold at_most in Hle. simpl in Hle. lia.
  - unfold at_most in Hle. simpl Float.expo in Hle. simpl Float.signif in Hle.
    unfold at_least in Hge. simpl Float.expo in Hge. simpl Float.signif in Hge.
    simpl in Hshort.
    destruct s.
    { pose proof (Z.pow_pos_nonneg 2 (Z.max e 0) ltac:(lia) ltac:(lia)). nia. }
    clear Hge. unfold Float.roundf.
    destruct (Z.leb_spec 0 e) as [Hpos|Hneg].
    + unfold Float.to_unsigned. simpl Float.signif.
      replace (Z.max e 0) with e in * by lia. replace (Z.max (- e) 0) with 0 in * by lia.
      change (2 ^ 0) with 1 in *. rewrite Z.quot_1_r.
      destruct (_ && _); [|discriminate]. intros [= <-]. lia.
    + replace (Z.max e 0) with 0 in Hle by lia.
      replace (Z.max (- e) 0) with (- e) in Hle by lia. change (2 ^ 0) with 1 in Hle.
      set (k := - e) in *.
      assert (Hk : 2 ^ k = 2 * 2 ^ (k - 1)).
      { rewrite <- (Z.pow_succ_r 2) by lia. f_equal. lia. }
      pose proof (Z.pow_pos_nonneg 2 (k - 1) ltac:(lia) ltac:(lia)) as Hk1.
      replace (- e - 1) with (k - 1) by lia.
      set (n := (Z.pos m + 2 ^ (k - 1)) / 2 ^ k).
      assert (Hn : n <= N).
      { apply Z.lt_succ_r. apply Z.div_lt_upper_bound; lia. }
      assert (Hnm : 0 <= n <= Z.pos m).
      { split; [apply Z.div_pos; lia | apply Z.div_le_upper_bound; nia]. }
      destruct n as [|p|p] eqn:Hnp; try lia.
      * simpl. intros [= <-]. lia.
      * destruct (of_int_exact p ltac:(lia)) as (mz & ez & Hof & Hez & Hmz).
        change (binary_normalize Float.prec Float.emax (Z.pos p) 0 false)
          with (Float.of_int (Z.pos p)).
        rewrite Hof. unfold Float.to_unsigned. simpl Float.signif.
        replace (Z.max ez 0) with 0 by lia.
        replace (Z.max (- ez) 0) with (- ez) by lia. change (2 ^ 0) with 1.
        rewrite Z.mul_1_r, Hmz, Z.quot_mul by lia.
        destruct (_ && _); [|discriminate]. intros [= <-]. lia.
Qed.

Lemma at_least_mono (x : spec_float) (N N' : Z) : at_least x N -> N' <= N -> at_least x N'.
Proof.
  unfold at_least. intros H Hle.
  pose proof (Z.pow_pos_nonneg 2 (Z.max (- Float.expo x) 0) ltac:(lia) ltac:(lia)). nia.
Qed.

(** Below 2^24 the float of [bottom + 1] is [bottom + 1]. *)
Lemma of_int_succ_exact (bottom : Z) :
  0 <= bottom -> bottom + 1 < 2 ^ 24 ->
  exists m e, Float.of_int (to_unsigned (bottom + 1)) = S754_finite false m e /\
              at_least (S754_finite false m e) (bottom + 1) /\
              at_most (S754_finite false m e) (bottom + 1) /\
              below 25 (S754_finite false m e).
Proof.
  intros Hb Hsmall.
  rewrite to_unsigned_id by (change (2 ^ 24) with 16777216 in Hsmall;
                             change (2 ^ 32) with 4294967296; lia).
  destruct (bottom + 1) as [|p|p] eqn:Hp; try lia.
  destruct (of_int_exact p Hsmall) as (m & e & Hof & He & Hm).
  exists m, e. split; [exact Hof|].
  unfold at_least, at_most. simpl Float.expo. simpl Float.signif.
  replace (Z.max e 0) with 0 by lia. replace (Z.max (- e) 0) with (- e) by lia.
  change (2 ^ 0) with 1. split; [lia|]. split; [lia|].
  rewrite <- Hof. unfold Float.of_int.
  apply (binary_normalize_below 24); [simpl Z.abs; rewrite Z.sub_0_r; exact Hsmall | lia].
Qed.

Lemma band_top_defined (second : Scalar) (bottom : Z) :
  below 22 second -> short_int bottom -> 0 <= bottom -> bottom + 1 < 2 ^ 23 ->
  exists top, band_top second bottom = Some top /\
              bottom + 1 <= top <= Z.max (2 ^ 22) (bottom + 1) /\ short_int top.
Proof.
  intros Hsecond Hshort Hb Hsmall.
  assert (Hsmall' : bottom + 1 < 2 ^ 24).
  { change (2 ^ 23) with 8388608 in Hsmall. change (2 ^ 24) with 16777216. lia. }
  destruct (of_int_succ_exact bottom Hb Hsmall') as (m & e & Hof & Hge & Hle & Hbelow).
  unfold band_top. rewrite Hof. unfold Float.max.
  destruct (Float.ltb second (S754_finite false m e)) eqn:Hlt.
  - destruct (to_unsigned_roundf_defined _ 25 Hbelow ltac:(lia)
                (at_least_mono _ _ 0 Hge ltac:(lia))) as (t & Ht & _).
    exists t. split; [exact Ht|].
    destruct (to_unsigned_roundf_ge _ (bottom + 1) t (below_short _ _ Hbelow) eq_refl
                ltac:(lia) Hge Ht) as [H1 H2].
    pose proof (to_unsigned_roundf_le _ (bottom + 1) t (below_short _ _ Hbelow)
                  (at_least_mono _ _ 0 Hge ltac:(lia)) Hle Ht) as H3.
    split; [lia | exact H2].
  - pose proof (below_is_finite _ _ Hsecond) as Hfin.
    pose proof (not_ltb_at_least second (S754_finite false m e) (bottom + 1) Hfin eq_refl
                  Hlt Hge) as Hs.
    destruct (to_unsigned_roundf_defined _ 22 Hsecond ltac:(lia)
                (at_least_mono _ _ 0 Hs ltac:(lia))) as (t & Ht & Hmax).
    exists t. split; [exact Ht|].
    destruct (to_unsigned_roundf_ge _ (bottom + 1) t (below_short _ _ Hsecond) Hfin
                ltac:(lia) Hs Ht) as [H1 H2].
    split; [lia | exact H2].
Qed.

Lemma band_tops_defined (ls : list (BlockMaterial * Scalar)) (bottom : Z) :
  Forall (fun layer => below 22 layer.2) ls ->
  short_int bottom -> 0 <= bottom ->
  (length ls <= 100)%nat -> bottom + Z.of_nat (length ls) <= 2 ^ 22 + 100 ->
  exists tops, band_tops ls bottom = Some tops /\ length tops = length ls /\
               bands_grow bottom tops.
Proof.
  revert bottom.
  induction ls as [|[material second] ls IH]; intros bottom Hls Hs Hb Hlen100 Hsize.
  - exists []. repeat split.
  - inversion Hls as [|? ? Hsecond Hls']. subst. simpl in Hsecond.
    simpl length in Hsize, Hlen100. change (2 ^ 22) with 4194304 in *.
    destruct (band_top_defined second bottom Hsecond Hs Hb
                ltac:(change (2 ^ 23) with 8388608; lia)) as (top & Htop & Hrange & Hs').
    change (2 ^ 22) with 4194304 in Hrange.
    destruct (IH top Hls' Hs' ltac:(lia) ltac:(lia) ltac:(lia))
      as (tops & Htops & Hlen & Hgrow).
    exists (top :: tops). simpl. rewrite Htop. simpl. rewrite Htops. simpl.
    repeat split; [now rewrite Hlen | lia | exact Hgrow].
Qed.

Lemma lit_below :
  below 1 Float.lit_1 /\ below (-1) Float.lit_0_25 /\ below 5 Float.lit_20 /\
  below 6 Float.lit_52 /\ below 6 Float.lit_58 /\ below 6 Float.lit_62 /\
  below 6 Float.lit_63.
Proof. repeat split; simpl; lia. Qed.

Lemma layers_below (total_height : Scalar) :
  below 18 total_height ->
  Forall (fun layer => below 22 layer.2) (layers total_height).
Proof.
  intros Hth.
  destruct lit_below as (H1 & H025 & H20 & H52 & H58 & H62 & H63).
  pose proof (mul_below 18 (-1) total_height Float.lit_0_25 Hth H025 ltac:(lia)) as Hq.
  pose proof (mul_below 18 1 total_height Float.lit_1 Hth H1 ltac:(lia)) as Hu.
  unfold layers.
  repeat (apply List.Forall_cons; [cbn [snd]|]); [| | | | | |apply List.Forall_nil].
  - eapply below_mono; [exact H1 | lia].
  - eapply below_mono; [apply (add_below 5 18); [exact H20 | eapply below_mono; [exact Hq|lia] | lia] | lia].
  - eapply below_mono; [apply (add_below 6 20); [exact H52 | eapply below_mono; [exact Hu|lia] | lia] | lia].
  - eapply below_mono; [apply (add_below 6 20); [exact H58 | eapply below_mono; [exact Hu|lia] | lia] | lia].
  - eapply below_mono; [apply (add_below 6 20); [exact H62 | eapply below_mono; [exact Hu|lia] | lia] | lia].
  - eapply below_mono; [apply (add_below 6 20); [exact H63 | eapply below_mono; [exact Hu|lia] | lia] | lia].
Qed.

(** ** The height map *)

Section Heightmap.
Context {constants : Constants} {noise : Noise} {random : Random}.
Hypothesis SIZE_Y_pos : 0 < SIZE_Y.

Lemma block_ref_inj_y (x z y y' : Z) :
  0 <= y < 2 ^ 32 -> 0 <= y' < 2 ^ 32 ->
  block_ref x z y = block_ref x z y' -> y = y'.
Proof.
  intros Hy Hy'. unfold block_ref.
  rewrite (to_unsigned_id y), (to_unsigned_id y') by assumption.
  intros [= Hq Hr].
  apply Z2Nat.inj in Hq; [|apply Z.div_pos; lia|apply Z.div_pos; lia].
  rewrite (Z.div_mod y SIZE_Y), (Z.div_mod y' SIZE_Y) by lia. congruence.
Qed.

Lemma block_ref_inj_xz (x z y x' z' y' : Z) :
  - 2 ^ 31 <= x < 2 ^ 31 -> - 2 ^ 31 <= z < 2 ^ 31 ->
  - 2 ^ 31 <= x' < 2 ^ 31 -> - 2 ^ 31 <= z' < 2 ^ 31 ->
  block_ref x z y = block_ref x' z' y' -> x = x' /\ z = z'.
Proof.
  intros Hx Hz Hx' Hz'. unfold block_ref.
  rewrite (to_int_to_unsigned x), (to_int_to_unsigned z), (to_int_to_unsigned x'),
    (to_int_to_unsigned z') by assumption.
  intros [= _ Hx0 _ Hz0]. auto.
Qed.

Lemma layer_block_effect (features : RegionFeatures) (column_position relative_position : Vector2i)
    (x z : Z) (material : BlockMaterial) (y : Z) (chunks chunks' : ChunkV) :
  layer_block features column_position relative_position x z material y chunks = Ok chunks' ->
  forall r, get_material chunks' r =
            if decide (r = block_ref x z y)
            then cell_material features relative_position material y
            else get_material chunks r.
Proof.
  unfold layer_block. intros Hrun r.
  destruct (get_block chunks column_position x z y) as [[block chunks1]|f] eqn:Hget;
    [|discriminate].
  apply (get_block_Ok SIZE_Y_pos) in Hget as (-> & Hlt & _ & Hsame).
  cbv beta iota delta [mbind result_bind] in Hrun.
  assert (Hset : chunks' = set_material (block_ref x z y)
                             (cell_material features relative_position material y) chunks1).
  { unfold cell_material. repeat case_match; congruence. }
  rewrite Hset, get_material_set_material by exact Hlt.
  destruct (decide (r = block_ref x z y)); [reflexivity | apply Hsame].
Qed.

(** A band gives its cells, and no other block, a material; the last cell
    written is the one at the top. *)
Lemma layer_band_effect (features : RegionFeatures) (column_position relative_position : Vector2i)
    (x z : Z) (material : BlockMaterial) (bottom top : Z) (chunks chunks' : ChunkV) :
  0 <= bottom -> top < 2 ^ 32 ->
  for_each (range bottom top)
    (layer_block features column_position relative_position x z material) chunks = Ok chunks' ->
  (forall r, (forall y, bottom <= y <= top -> r ≠ block_ref x z y) ->
             get_material chunks' r = get_material chunks r) /\
  (bottom <= top ->
   get_material chunks' (block_ref x z top) =
   cell_material features relative_position material top).
Proof.
  intros Hbottom Htop Hrun.
  pose (I := fun (i : Z) (c : ChunkV) =>
    (forall r, (forall y, bottom <= y < i -> r ≠ block_ref x z y) ->
               get_material c r = get_material chunks r) /\
    (bottom < i ->
     get_material c (block_ref x z (i - 1)) =
     cell_material features relative_position material (i - 1))).
  assert (Hh : holds any_fault (I (Z.max bottom (top + 1)))
                 (for_each (range bottom top)
                    (layer_block features column_position relative_position x z material)
                    chunks)).
  { apply (holds_for_each_range any_fault I).
    - intros i c Hi [Hframe Hlast].
      destruct (layer_block _ _ _ _ _ _ i c) as [c'|f] eqn:Hstep; [|exact Logic.I].
      pose proof (layer_block_effect _ _ _ _ _ _ _ _ _ Hstep) as Heff.
      split.
      + intros r Hr. rewrite Heff. case_decide as Heq.
        * exfalso. apply (Hr i); [lia | exact Heq].
        * apply Hframe. intros y Hy. apply Hr. lia.
      + intros _. replace (i + 1 - 1) with i by lia. rewrite Heff.
        case_decide; [reflexivity | congruence].
    - split; [reflexivity | lia]. }
  rewrite Hrun in Hh. destruct Hh as [Hframe Hlast]. split.
  - intros r Hr. apply Hframe. intros y Hy. apply Hr. lia.
  - intros Hle. replace (Z.max bottom (top + 1)) with (top + 1) in Hlast by lia.
    replace (top + 1 - 1) with top in Hlast by lia. apply Hlast. lia.
Qed.

(** The bands of a block column: the blocks outside of [bottom .. top] of
    the column keep their material, and the block at the last top has the
    material of the last band, carved or not. *)
Lemma layer_bands_effect (features : RegionFeatures) (column_position relative_position : Vector2i)
    (x z : Z) (ls : list (BlockMaterial * Scalar)) (bottom top : Z)
    (chunks chunks' : ChunkV) :
  Forall (fun layer => short layer.2) ls ->
  short_int bottom -> 0 <= bottom < 2 ^ 32 ->
  layer_bands features column_position relative_position x z ls bottom chunks
    = Ok (top, chunks') ->
  bottom <= top < 2 ^ 32 /\
  (forall r, (forall y, bottom <= y <= top -> r ≠ block_ref x z y) ->
             get_material chunks' r = get_material chunks r) /\
  (forall material, last (ls.*1) = Some material ->
     get_material chunks' (block_ref x z top) =
     cell_material features relative_position material top).
Proof.
  revert bottom chunks.
  induction ls as [|[material second] ls IH]; intros bottom chunks Hls Hs Hb Hrun.
  - simpl in Hrun. injection Hrun as <- <-. split; [lia|].
    split; [intros r _; reflexivity | intros material' Hmat; discriminate].
  - simpl in Hrun. inversion Hls as [|? ? Hsecond Hls']. subst. simpl in Hsecond.
    destruct (band_top second bottom) as [top1|] eqn:Htop; [|discriminate].
    pose proof (band_top_range _ _ _ Htop) as Hrange.
    destruct (band_top_grows second bottom top1 Hsecond Hs Hb Htop) as (Hle & _ & Hs1).
    destruct (for_each (range bottom top1) _ chunks) as [chunks1|f] eqn:Hband; [|discriminate].
    cbv beta iota delta [mbind result_bind] in Hrun.
    destruct (layer_band_effect features column_position relative_position x z material
                bottom top1 chunks chunks1 ltac:(lia) ltac:(lia) Hband)
      as [Hframe1 Hlast1].
    destruct (IH top1 chunks1 Hls' Hs1 Hrange Hrun) as (Hle2 & Hframe2 & Hlast2).
    split; [lia|]. split.
    + intros r Hr. rewrite Hframe2, Hframe1; [reflexivity| |].
      * intros y Hy. apply Hr. lia.
      * intros y Hy. apply Hr. lia.
    + intros material' Hmat. destruct ls as [|layer ls].
      * simpl in Hrun, Hmat. injection Hrun as <- <-. injection Hmat as <-.
        apply Hlast1. exact Hle.
      * apply Hlast2. exact Hmat.
Qed.


Lemma generate_block_column_effect (features : RegionFeatures)
    (region_position column_position : Vector2i) (x z : Z)
    (state state' : ChunkV * ChunkHeightmap) :
  generate_block_column features region_position column_position x z state = Ok state' ->
  exists top,
    0 <= top < 2 ^ 32 /\
    state'.2 = <[(x, z) := to_int top]> state.2 /\
    (forall r, (forall y, 0 <= y <= top -> r ≠ block_ref x z y) ->
               get_material state'.1 r = get_material state.1 r) /\
    get_material state'.1 (block_ref x z top) =
      cell_material features
        (Vector2i_add (Vector2i_sub column_position region_position) (x, z))
        BLOCK_MATERIAL_GRASS top.
Proof.
  unfold generate_block_column. intros Hrun.
  destruct (total_height_at features _) as [total_height|f]; [|discriminate].
  cbv beta iota delta [mbind result_bind] in Hrun.
  destruct (layer_bands _ _ _ _ _ _ _ _) as [[top chunks']|f] eqn:Hbands; [|discriminate].
  injection Hrun as <-.
  destruct (layer_bands_effect _ _ _ _ _ _ _ _ _ _ (layers_short total_height)
              short_int_0 ltac:(lia) Hbands) as (Htop & Hframe & Hlast).
  exists top. simpl. repeat split; try lia; [exact Hframe|].
  apply Hlast. reflexivity.
Qed.

Hypothesis SIZE_X_int : SIZE_X <= 2 ^ 31.
Hypothesis SIZE_Z_int : SIZE_Z <= 2 ^ 31.

Lemma columns_done_ext (features : RegionFeatures) (region_position column_position : Vector2i)
    (done done' : Z -> Z -> Prop) (state : ChunkV * ChunkHeightmap) :
  (forall x z, 0 <= x < SIZE_X -> 0 <= z < SIZE_Z -> done x z <-> done' x z) ->
  columns_done features region_position column_position done state ->
  columns_done features region_position column_position done' state.
Proof.
  intros Hext Hdone x z Hx Hz. destruct (Hdone x z Hx Hz) as [H1 H2].
  split; intros H; [apply H1 | apply H2]; rewrite (Hext x z Hx Hz); exact H.
Qed.

(** One more block column is done. *)
Lemma columns_done_step (features : RegionFeatures) (region_position column_position : Vector2i)
    (done : Z -> Z -> Prop) (x0 z0 : Z) (state : ChunkV * ChunkHeightmap) :
  0 <= x0 < SIZE_X -> 0 <= z0 < SIZE_Z -> ~ done x0 z0 ->
  columns_done features region_position column_position done state ->
  holds any_fault
    (columns_done features region_position column_position
       (fun x z => done x z \/ (x = x0 /\ z = z0)))
    (generate_block_column features region_position column_position x0 z0 state).
Proof.
  intros Hx0 Hz0 Hnew Hdone.
  destruct (generate_block_column _ _ _ x0 z0 state) as [state'|f] eqn:Hrun; [|exact I].
  destruct (generate_block_column_effect _ _ _ _ _ _ _ Hrun)
    as (top & Htop & Hheights & Hframe & Hlast).
  simpl. intros x z Hx Hz.
  destruct (decide (x = x0 /\ z = z0)) as [[-> ->]|Hother].
  - split; [intros _ | intros Hn; exfalso; apply Hn; now right].
    destruct (Hdone x0 z0 Hx Hz) as [_ Huntouched]. specialize (Huntouched Hnew).
    exists top. rewrite Hheights, lookup_insert_eq.
    split; [reflexivity|]. split; [exact Htop|]. split; [exact Hlast|].
    intros y Hy. unfold material_at. rewrite Hframe.
    + apply Huntouched. lia.
    + intros y' Hy' Heq. apply block_ref_inj_y in Heq; lia.
  - assert (Hsame : forall y, material_at state'.1 x y z = material_at state.1 x y z).
    { intros y. unfold material_at. apply Hframe. intros y' _ Heq.
      apply block_ref_inj_xz in Heq; [tauto|lia..]. }
    assert (Hkey : state'.2 !! (x, z) = state.2 !! (x, z)).
    { rewrite Hheights. apply lookup_insert_ne. intros [= -> ->]. tauto. }
    destruct (Hdone x z Hx Hz) as [H1 H2]. split.
    + intros [Hd|[-> ->]]; [|tauto].
      destruct (H1 Hd) as (top' & Ha & Hb & Hc & Hd'). exists top'.
      rewrite Hkey, !Hsame. repeat split; try assumption; try lia.
      intros y Hy. rewrite Hsame. now apply Hd'.
    + intros Hn y Hy. rewrite Hsame. apply H2; [|exact Hy]. intros Hd. apply Hn. now left.
Qed.

Lemma generate_chunk_column_surface (features : RegionFeatures)
    (region_position column_position : Vector2i) :
  holds any_fault
    (fun state => forall x z, 0 <= x < SIZE_X -> 0 <= z < SIZE_Z ->
       surface_recorded features region_position column_position state.1 state.2 x z)
    (generate_chunk_column [] features region_position column_position ∅).
Proof.
  unfold generate_chunk_column.
  eapply holds_weaken.
  - apply (holds_for_each_range any_fault
             (fun i => columns_done features region_position column_position
                         (fun x z => x < i))).
    + intros x0 state Hx0 Hstate.
      eapply holds_weaken.
      * apply (holds_for_each_range any_fault
                 (fun j => columns_done features region_position column_position
                             (fun x z => x < x0 \/ (x = x0 /\ z < j)))).
        -- intros z0 state' Hz0 Hstate'.
           eapply holds_weaken.
           ++ apply (columns_done_step features region_position column_position
                       (fun x z => x < x0 \/ (x = x0 /\ z < z0)));
                [lia | lia | cbv beta; lia | exact Hstate'].
           ++ intros state''. apply columns_done_ext. intros x z Hx Hz. lia.
        -- revert Hstate. apply columns_done_ext. intros x z Hx Hz. lia.
      * intros state'. apply columns_done_ext. intros x z Hx Hz. lia.
    + intros x z Hx Hz. split; [lia|]. intros _ y Hy. reflexivity.
  - intros state Hstate x z Hx Hz. apply (Hstate x z Hx Hz). simpl. lia.
Qed.

End Heightmap.

(** C5, as the code has it.  After [generate_chunk_column] (a run that
    ends without a fault) the height map entry of every block column is the
    top of the column's grass band: the block stored at that height is
    grass, or air where both densities fall into the carving window there,
    and every block above it is air. *)
Theorem heightmap_holds_grass_band_top
    {constants : Constants} {noise : Noise} {random : Random}
    (features : RegionFeatures) (region_position column_position : Vector2i) :
  0 < SIZE_Y -> SIZE_X <= 2 ^ 31 -> SIZE_Z <= 2 ^ 31 ->
  holds any_fault
    (fun state : ChunkV * ChunkHeightmap =>
       forall x z, 0 <= x < SIZE_X -> 0 <= z < SIZE_Z ->
       exists top,
         state.2 !! (x, z) = Some (to_int top) /\ 0 <= top < 2 ^ 32 /\
         material_at state.1 x top z =
           (if in_window
                 (TrilinearBox_interpolate (get_box features 0)
                    (box_position
                       (Vector2i_add (Vector2i_sub column_position region_position) (x, z))
                       top))
                 (TrilinearBox_interpolate (get_box features 1)
                    (box_position
                       (Vector2i_add (Vector2i_sub column_position region_position) (x, z))
                       top))
            then BLOCK_MATERIAL_AIR else BLOCK_MATERIAL_GRASS) /\
         forall y, top < y < 2 ^ 32 -> material_at state.1 x y z = BLOCK_MATERIAL_AIR)
    (generate_chunk_column [] features region_position column_position ∅).
Proof.
  intros HY HX HZ.
  eapply holds_weaken;
    [apply (generate_chunk_column_surface HY HX HZ features region_position column_position)|].
  intros state Hstate x z Hx Hz. exact (Hstate x z Hx Hz).
Qed.

(** The claim C5 itself fails where a cave reaches the surface: with
    density boxes that meet the carving test everywhere, the block at the
    recorded height of the block column (0, 0) is air. *)
Lemma heightmap_surface_carved_to_air :
  exists chunks heights top,
    @generate_chunk_column Sample.constants Sample.hollow []
      (@RegionFeatures_new Sample.constants Sample.hollow 42 (0, 0)
         fundamental_features octave_features)
      (0, 0) (0, 0) ∅ = Ok (chunks, heights) /\
    heights !! (0, 0) = Some top /\
    @material_at Sample.constants chunks 0 top 0 = BLOCK_MATERIAL_AIR.
Proof.
  assert (Hc : match @generate_chunk_column Sample.constants Sample.hollow []
                       (@RegionFeatures_new Sample.constants Sample.hollow 42 (0, 0)
                          fundamental_features octave_features)
                       (0, 0) (0, 0) ∅ with
               | Ok (c, h) =>
                   bool_decide (h !! (0, 0) = Some 63) &&
                   bool_decide (@material_at Sample.constants c 0 63 0 = BLOCK_MATERIAL_AIR)
               | Fault _ => false
               end = true) by (vm_compute; reflexivity).
  destruct (@generate_chunk_column Sample.constants Sample.hollow [] _ (0, 0) (0, 0) ∅)
    as [[chunks heights]|f]; [|discriminate].
  exists chunks, heights, 63.
  apply andb_true_iff in Hc as [H1 H2].
  apply bool_decide_eq_true in H1, H2. auto.
Qed.

(** ** Cave carving *)

Section Carving.
Context {constants : Constants} {noise : Noise} {random : Random}.
Hypothesis SIZE_Y_pos : 0 < SIZE_Y.
Hypothesis SIZE_X_int : SIZE_X <= 2 ^ 31.
Hypothesis SIZE_Z_int : SIZE_Z <= 2 ^ 31.

(** [get_block] answers when the block lies in the chunk's footprint and
    its chunk is allocated or is the one that comes next. *)
Lemma get_block_defined (chunks : ChunkV) (column_position : Vector2i) (x z h : Z) :
  0 <= x < SIZE_X -> 0 <= z < SIZE_Z ->
  to_unsigned h / SIZE_Y <= Z.of_nat (length chunks) ->
  exists chunks', get_block chunks column_position x z h = Ok (block_ref x z h, chunks').
Proof.
  intros Hx Hz Hh. unfold get_block, block_ref.
  rewrite (to_int_to_unsigned x), (to_int_to_unsigned z) by lia.
  destruct (Z.leb_spec 0 x); [|lia]. destruct (Z.ltb_spec x SIZE_X); [|lia].
  destruct (Z.leb_spec 0 z); [|lia]. destruct (Z.ltb_spec z SIZE_Z); [|lia].
  cbn [andb].
  destruct (Z.leb_spec (Z.of_nat (length chunks)) (to_unsigned h / SIZE_Y)) as [Hge|Hlt].
  - rewrite length_app. cbn [length].
    destruct (Z.ltb_spec (to_unsigned h / SIZE_Y) (Z.of_nat (length chunks + 1))); [|lia].
    eauto.
  - destruct (Z.ltb_spec (to_unsigned h / SIZE_Y) (Z.of_nat (length chunks))); [|lia].
    eauto.
Qed.

(** The test of the code, on [float] densities against the [double]
    literals, is the rule of the specification. *)
Lemma cell_material_carved (features : RegionFeatures) (relative_position : Vector2i)
    (material : BlockMaterial) (y : Z) :
  let densityA :=
    TrilinearBox_interpolate (get_box features 0) (box_position relative_position y) in
  let densityB :=
    TrilinearBox_interpolate (get_box features 1) (box_position relative_position y) in
  Float.is_binary32 densityA = true -> Float.is_binary32 densityB = true ->
  cell_material features relative_position material y =
  carved_material material densityA densityB.
Proof.
  intros densityA densityB HA HB. unfold cell_material. fold densityA densityB.
  assert (Hw : in_window densityA densityB =
               strictly_inside densityA && strictly_inside densityB).
  { unfold in_window. rewrite <- (window_test densityA HA), <- (window_test densityB HB).
    now rewrite !andb_assoc. }
  unfold carved_material. rewrite Hw.
  repeat case_decide; try congruence; try reflexivity.
Qed.

End Carving.


(** ** The bicubic patch of the specification *)

Section PatchProperties.
Import SpecModel.

Lemma same_number_refl (x : Scalar) : same_number x x.
Proof. now left. Qed.

Lemma same_number_sym (x y : Scalar) : same_number x y -> same_number y x.
Proof. intros [->|(s & s' & -> & ->)]; [now left | right; eauto]. Qed.

Lemma same_number_trans (x y z : Scalar) :
  same_number x y -> same_number y z -> same_number x z.
Proof.
  intros [->|(s & s' & -> & ->)] [<-|(t & t' & Hy & ->)]; try (now left); try (right; eauto).
Qed.

Lemma same_number_is_number (x y : Scalar) :
  same_number x y -> is_number y = true -> is_number x = true.
Proof. intros [->|(s & s' & -> & ->)] Hy; [exact Hy | reflexivity]. Qed.

(** Products and sums of the same numbers are the same numbers. *)
Lemma mul_same_number (x x' w : Scalar) :
  same_number x x' -> same_number (Float.mul x w) (Float.mul x' w).
Proof.
  intros [->|(s & s' & -> & ->)]; [now left|].
  destruct w as [sw|sw| |sw mw ew]; simpl; try (now left); right; eauto.
Qed.

Lemma add_same_number (u u' v v' : Scalar) :
  same_number u u' -> same_number v v' ->
  same_number (Float.add u v) (Float.add u' v').
Proof.
  intros [->|(s & s' & -> & ->)] [->|(t & t' & -> & ->)]; [now left | | |].
  - destruct u' as [su|su| |su mu eu]; simpl; try (now left).
    destruct su, t, t'; simpl; try (now left); right; eauto.
  - destruct v' as [sv|sv| |sv mv ev]; simpl; try (now left).
    destruct s, s', sv; simpl; try (now left); right; eauto.
  - destruct s, s', t, t'; simpl; try (now left); right; eauto.
Qed.

Lemma blend_same_number (a a' b b' w : Scalar) :
  same_number a a' -> same_number b b' -> same_number (blend a b w) (blend a' b' w).
Proof. intros Ha Hb. unfold blend. apply add_same_number; now apply mul_same_number. Qed.

Lemma mul_zero_r (x : Scalar) :
  Float.is_finite x = true -> exists s, Float.mul x lit_0 = S754_zero s.
Proof. destruct x as [s|s| |s m e]; try discriminate; simpl; eauto. Qed.

Lemma add_zero_r (x : Scalar) (s : bool) :
  Float.is_finite x = true -> same_number (Float.add x (S754_zero s)) x.
Proof.
  destruct x as [sx|sx| |sx m e]; try discriminate; intros _; simpl.
  - destruct sx, s; simpl; try (now left); right; eauto.
  - now left.
Qed.

Lemma add_zero_l (x : Scalar) (s : bool) :
  Float.is_finite x = true -> same_number (Float.add (S754_zero s) x) x.
Proof.
  destruct x as [sx|sx| |sx m e]; try discriminate; intros _; simpl.
  - destruct sx, s; simpl; try (now left); right; eauto.
  - now left.
Qed.

Lemma is_number_finite (x : Scalar) : is_number x = true -> Float.is_finite x = true.
Proof. unfold is_number. now intros [H _]%andb_true_iff. Qed.

(** With weight 0 a blend is its first value, with weight 1 its second. *)
Lemma blend_0 (a b : Scalar) :
  is_number a = true -> is_number b = true -> same_number (blend a b lit_0) a.
Proof.
  intros Ha Hb. unfold blend.
  change (Float.sub Float.lit_1 lit_0) with Float.lit_1.
  rewrite (mul_lit_1_r a Ha).
  destruct (mul_zero_r b (is_number_finite b Hb)) as [s ->].
  apply add_zero_r. now apply is_number_finite.
Qed.

Lemma blend_1 (a b : Scalar) :
  is_number a = true -> is_number b = true -> same_number (blend a b Float.lit_1) b.
Proof.
  intros Ha Hb. unfold blend.
  change (Float.sub Float.lit_1 Float.lit_1) with lit_0.
  rewrite (mul_lit_1_r b Hb).
  destruct (mul_zero_r a (is_number_finite a Ha)) as [s ->].
  apply add_zero_l. now apply is_number_finite.
Qed.

Lemma smoothstep_0 : smoothstep lit_0 = lit_0.
Proof. reflexivity. Qed.

Lemma smoothstep_1 : smoothstep Float.lit_1 = Float.lit_1.
Proof. reflexivity. Qed.

(** C9.  [interpolate] at each of the four corners of the unit square,
    (0,0), (1,0), (1,1) and (0,1), returns the seeded value of that corner:
    the same number, without an interpolation error. *)
Theorem interpolate_corners (patch : BicubicPatch) :
  corners_are_numbers patch ->
  same_number (interpolate patch (lit_0, lit_0)) (corner_00 patch) /\
  same_number (interpolate patch (Float.lit_1, lit_0)) (corner_10 patch) /\
  same_number (interpolate patch (Float.lit_1, Float.lit_1)) (corner_11 patch) /\
  same_number (interpolate patch (lit_0, Float.lit_1)) (corner_01 patch).
Proof.
  intros (H00 & H10 & H11 & H01). unfold interpolate. cbn [fst snd].
  rewrite smoothstep_0, smoothstep_1.
  pose proof (blend_0 _ _ H00 H10) as L0. pose proof (blend_0 _ _ H01 H11) as U0.
  pose proof (blend_1 _ _ H00 H10) as L1. pose proof (blend_1 _ _ H01 H11) as U1.
  repeat split.
  - eapply same_number_trans; [apply blend_0|exact L0]; eapply same_number_is_number; eauto.
  - eapply same_number_trans; [apply blend_0|exact L1]; eapply same_number_is_number; eauto.
  - eapply same_number_trans; [apply blend_1|exact U1]; eapply same_number_is_number; eauto.
  - eapply same_number_trans; [apply blend_1|exact U0]; eapply same_number_is_number; eauto.
Qed.


Lemma lit_below_patch : below 2 lit_2 /\ below 2 lit_3 /\ below 1 Float.lit_1.
Proof. repeat split; simpl; lia. Qed.

Lemma smoothstep_below (t : Scalar) : below 1 t -> below 10 (smoothstep t).
Proof.
  intros Ht. destruct lit_below_patch as (H2 & H3 & _). unfold smoothstep.
  pose proof (mul_below 1 1 t t Ht Ht ltac:(lia)) as Htt.
  pose proof (mul_below 2 1 lit_2 t H2 Ht ltac:(lia)) as H2t.
  pose proof (sub_below 2 4 lit_3 (Float.mul lit_2 t) H3
                ltac:(eapply below_mono; [exact H2t | lia]) ltac:(lia)) as Hs.
  eapply below_mono.
  - apply (mul_below 3 6); [eapply below_mono; [exact Htt | lia] | | lia].
    eapply below_mono; [exact Hs | lia].
  - lia.
Qed.

Lemma blend_is_number (a b w : Scalar) :
  below 8 a -> below 8 b -> below 10 w -> is_number (blend a b w) = true.
Proof.
  intros Ha Hb Hw. destruct lit_below_patch as (_ & _ & H1). unfold blend.
  pose proof (sub_below 1 10 Float.lit_1 w H1 Hw ltac:(lia)) as Hs.
  pose proof (mul_below 8 12 a (Float.sub Float.lit_1 w) Ha
                ltac:(eapply below_mono; [exact Hs | lia]) ltac:(lia)) as H1w.
  pose proof (mul_below 8 10 b w Hb Hw ltac:(lia)) as H2w.
  apply (add_below 21 19); [eapply below_mono; [exact H1w | lia] | | lia].
  eapply below_mono; [exact H2w | lia].
Qed.

Lemma below_is_number (M : Z) (x : Scalar) : below M x -> is_number x = true.
Proof. now intros [H _]. Qed.

Lemma Vector2i_add_0_r (p : Vector2i) : Vector2i_add p (0, 0) = p.
Proof. destruct p as [a b]. unfold Vector2i_add. simpl. f_equal; lia. Qed.

End PatchProperties.

(** C2.  For every seed and every region, the fundamental patch built for
    the region and the ones built, independently, for its neighbours
    across the high-X and the high-Z edge agree at every coordinate [t] of
    the shared edge: [interpolate] gives the same height on both sides. *)
Theorem fundamental_patches_agree_on_shared_edge {constants : Constants}
    (derive : Z -> Vector2i -> Z) (next_uniform : Z -> Scalar -> Scalar -> Scalar)
    (density : Scalar) (world_seed : Z) (position : Vector2i) (t : Scalar) :
  let fundamental_patch_at := fun p : Vector2i =>
    get_fundamental_patch
      (@RegionFeatures_new constants (SpecModel.noise derive next_uniform density)
         world_seed p fundamental_features octave_features) in
  let here := fundamental_patch_at position in
  let beyond_x := fundamental_patch_at (Vector2i_add position (REGION_SIZE, 0)) in
  let beyond_z := fundamental_patch_at (Vector2i_add position (0, REGION_SIZE)) in
  corners_below 8 here -> corners_below 8 beyond_x -> corners_below 8 beyond_z ->
  below 1 t ->
  SpecModel.same_number (SpecModel.interpolate here (Float.lit_1, t))
                        (SpecModel.interpolate beyond_x (SpecModel.lit_0, t)) /\
  SpecModel.same_number (SpecModel.interpolate here (t, Float.lit_1))
                        (SpecModel.interpolate beyond_z (t, SpecModel.lit_0)).
Proof.
  intros fundamental_patch_at here beyond_x beyond_z
    (H00 & H10 & H11 & H01) (X00 & X10 & X11 & X01) (Z00 & Z10 & Z11 & Z01) Ht.
  assert (EX0 : SpecModel.corner_00 beyond_x = SpecModel.corner_10 here).
  { unfold beyond_x, here, fundamental_patch_at. simpl.
    now rewrite Vector2i_add_0_r. }
  assert (EX1 : SpecModel.corner_01 beyond_x = SpecModel.corner_11 here).
  { unfold beyond_x, here, fundamental_patch_at. simpl.
    unfold SpecModel.sample_corner. do 2 f_equal.
    destruct position as [a b]. unfold Vector2i_add. simpl. f_equal; lia. }
  assert (EZ0 : SpecModel.corner_00 beyond_z = SpecModel.corner_01 here).
  { unfold beyond_z, here, fundamental_patch_at. simpl.
    now rewrite Vector2i_add_0_r. }
  assert (EZ1 : SpecModel.corner_10 beyond_z = SpecModel.corner_11 here).
  { unfold beyond_z, here, fundamental_patch_at. simpl.
    unfold SpecModel.sample_corner. do 2 f_equal.
    destruct position as [a b]. unfold Vector2i_add. simpl. f_equal; lia. }
  pose proof (smoothstep_below t Ht) as Hw.
  unfold SpecModel.interpolate. cbn [fst snd].
  rewrite smoothstep_0, smoothstep_1. split.
  - apply blend_same_number.
    + eapply same_number_trans; [apply blend_1; eapply below_is_number; eassumption|].
      rewrite <- EX0. apply same_number_sym.
      apply blend_0; eapply below_is_number; eassumption.
    + eapply same_number_trans; [apply blend_1; eapply below_is_number; eassumption|].
      rewrite <- EX1. apply same_number_sym.
      apply blend_0; eapply below_is_number; eassumption.
  - eapply same_number_trans; [apply blend_1; now apply blend_is_number|].
    rewrite EZ0, EZ1. apply same_number_sym.
    apply blend_0; apply blend_is_number; assumption.
Qed.

(** * The theorems at sample inputs *)

(** The sample generator draws inside the range it is asked for. *)
Lemma sample_uniform_int_in_range : @uniform_int_in_range Sample.random.
Proof.
  intros lo hi g Hle. simpl.
  pose proof (Z.mod_pos_bound (Z.shiftr ((g * 0x5DEECE66D + 0xB) mod 2 ^ 48) 17)
                              (hi - lo + 1)).
  lia.
Qed.

Lemma get_block_index_in_bounds_witness :
  0 < @SIZE_Y Sample.constants /\
  (@generate_region Sample.constants Sample.solid Sample.random
     (WorldGenerator_new 42) (0, 0)).1 ≠ Fault ChunkIndexOutOfRange.
Proof.
  split; [reflexivity|].
  apply (@get_block_index_in_bounds Sample.constants Sample.solid Sample.random
           (WorldGenerator_new 42) (0, 0)).
  reflexivity.
Defined.

Lemma tree_cells_inside_footprint_witness :
  @uniform_int_in_range Sample.random /\
  @SIZE_X Sample.constants <= 2 ^ 31 /\ @SIZE_Z Sample.constants <= 2 ^ 31 /\
  @populate_trees Sample.constants Sample.solid Sample.random 42
     Sample.ground (0, 0) Sample.ground_heights ≠ Fault BlockOutsideChunk.
Proof.
  split; [exact sample_uniform_int_in_range|].
  split; [simpl; lia|]. split; [simpl; lia|].
  apply (@tree_cells_inside_footprint Sample.constants Sample.solid Sample.random 42
           Sample.ground (0, 0) Sample.ground_heights).
  - exact sample_uniform_int_in_range.
  - simpl; lia.
  - simpl; lia.
Defined.

Lemma trees_rooted_on_grass_leaves_in_air_witness :
  0 < @SIZE_Y Sample.constants /\
  holds any_fault
    (fun chunks' =>
       grown_from Sample.ground chunks' /\
       (forall bottom,
          Sample.ground_heights
            !! @tree_site Sample.constants Sample.solid Sample.random 42 (0, 0)
            = Some bottom ->
          @material_at Sample.constants Sample.ground
            (@tree_site Sample.constants Sample.solid Sample.random 42 (0, 0)).1 bottom
            (@tree_site Sample.constants Sample.solid Sample.random 42 (0, 0)).2
            ≠ BLOCK_MATERIAL_GRASS ->
          same_materials Sample.ground chunks'))
    (@populate_trees Sample.constants Sample.solid Sample.random 42
       Sample.ground (0, 0) Sample.ground_heights).
Proof.
  split; [reflexivity|].
  apply (@trees_rooted_on_grass_leaves_in_air Sample.constants Sample.solid Sample.random
           42 Sample.ground (0, 0) Sample.ground_heights).
  reflexivity.
Defined.


Lemma heightmap_holds_grass_band_top_witness :
  0 < @SIZE_Y Sample.constants /\
  @SIZE_X Sample.constants <= 2 ^ 31 /\ @SIZE_Z Sample.constants <= 2 ^ 31 /\
  holds any_fault
    (fun state : ChunkV * ChunkHeightmap =>
       forall x z, 0 <= x < @SIZE_X Sample.constants -> 0 <= z < @SIZE_Z Sample.constants ->
       exists top,
         state.2 !! (x, z) = Some (to_int top) /\ 0 <= top < 2 ^ 32 /\
         @material_at Sample.constants state.1 x top z =
           (if in_window
                 (@TrilinearBox_interpolate Sample.solid (get_box Sample.solid_features 0)
                    (@box_position Sample.constants
                       (Vector2i_add (Vector2i_sub (0, 0) (0, 0)) (x, z)) top))
                 (@TrilinearBox_interpolate Sample.solid (get_box Sample.solid_features 1)
                    (@box_position Sample.constants
                       (Vector2i_add (Vector2i_sub (0, 0) (0, 0)) (x, z)) top))
            then BLOCK_MATERIAL_AIR else BLOCK_MATERIAL_GRASS) /\
         forall y, top < y < 2 ^ 32 ->
                   @material_at Sample.constants state.1 x y z = BLOCK_MATERIAL_AIR)
    (@generate_chunk_column Sample.constants Sample.solid [] Sample.solid_features
       (0, 0) (0, 0) ∅).
Proof.
  split; [reflexivity|]. split; [simpl; lia|]. split; [simpl; lia|].
  apply (@heightmap_holds_grass_band_top Sample.constants Sample.solid Sample.random
           Sample.solid_features (0, 0) (0, 0)).
  - reflexivity.
  - simpl; lia.
  - simpl; lia.
Defined.

Lemma interpolate_corners_witness :
  SpecModel.corners_are_numbers Sample.slope /\
  SpecModel.same_number
    (SpecModel.interpolate Sample.slope (SpecModel.lit_0, SpecModel.lit_0)) Float.lit_20 /\
  SpecModel.same_number
    (SpecModel.interpolate Sample.slope (Float.lit_1, SpecModel.lit_0)) Float.lit_32 /\
  SpecModel.same_number
    (SpecModel.interpolate Sample.slope (Float.lit_1, Float.lit_1)) Float.lit_52 /\
  SpecModel.same_number
    (SpecModel.interpolate Sample.slope (SpecModel.lit_0, Float.lit_1)) Float.lit_58.
Proof.
  assert (H : SpecModel.corners_are_numbers Sample.slope) by (repeat split; reflexivity).
  split; [exact H|].
  exact (interpolate_corners Sample.slope H).
Defined.

Lemma fundamental_patches_agree_on_shared_edge_witness :
  corners_below 8 (Varied.fundamental_patch_at (0, 0)) /\
  corners_below 8 (Varied.fundamental_patch_at (128, 0)) /\
  corners_below 8 (Varied.fundamental_patch_at (0, 128)) /\
  below 1 Sample.lit_0_5 /\
  SpecModel.same_number
    (SpecModel.interpolate (Varied.fundamental_patch_at (0, 0))
                           (Float.lit_1, Sample.lit_0_5))
    (SpecModel.interpolate (Varied.fundamental_patch_at (128, 0))
                           (SpecModel.lit_0, Sample.lit_0_5)) /\
  SpecModel.same_number
    (SpecModel.interpolate (Varied.fundamental_patch_at (0, 0))
                           (Sample.lit_0_5, Float.lit_1))
    (SpecModel.interpolate (Varied.fundamental_patch_at (0, 128))
                           (Sample.lit_0_5, SpecModel.lit_0)).
Proof.
  assert (Hh : corners_below 8 (Varied.fundamental_patch_at (0, 0)))
    by (repeat split; try reflexivity; vm_compute; discriminate).
  assert (Hx : corners_below 8 (Varied.fundamental_patch_at (128, 0)))
    by (repeat split; try reflexivity; vm_compute; discriminate).
  assert (Hz : corners_below 8 (Varied.fundamental_patch_at (0, 128)))
    by (repeat split; try reflexivity; vm_compute; discriminate).
  assert (Ht : below 1 Sample.lit_0_5) by (split; [reflexivity|vm_compute; discriminate]).
  split; [exact Hh|]. split; [exact Hx|]. split; [exact Hz|]. split; [exact Ht|].
  exact (@fundamental_patches_agree_on_shared_edge Sample.constants
           Sample.derive Varied.next_uniform (S754_zero false) 42 (0, 0) Sample.lit_0_5
           Hh Hx Hz Ht).
Defined.

(** The patches of that run: the corners of the fundamental patch of the
    region at the origin stand at 0, 93, 66 and 31, those of its neighbour
    across the high-X edge at 93, 58, 37 and 66, those of its neighbour
    across the high-Z edge at 31, 66, 99 and 62; half way along the shared
    edges the height is 79.5 and 48.5 on both sides. *)
Example varied_patches_on_shared_edges :
  Varied.fundamental_patch_at (0, 0) =
    {| SpecModel.corner_00 := Float.of_int 0; SpecModel.corner_10 := Float.of_int 93;
       SpecModel.corner_11 := Float.of_int 66; SpecModel.corner_01 := Float.of_int 31 |} /\
  Varied.fundamental_patch_at (128, 0) =
    {| SpecModel.corner_00 := Float.of_int 93; SpecModel.corner_10 := Float.of_int 58;
       SpecModel.corner_11 := Float.of_int 37; SpecModel.corner_01 := Float.of_int 66 |} /\
  Varied.fundamental_patch_at (0, 128) =
    {| SpecModel.corner_00 := Float.of_int 31; SpecModel.corner_10 := Float.of_int 66;
       SpecModel.corner_11 := Float.of_int 99; SpecModel.corner_01 := Float.of_int 62 |} /\
  SpecModel.interpolate (Varied.fundamental_patch_at (0, 0)) (Float.lit_1, Sample.lit_0_5)
    = Float.div (Float.of_int 159) (Float.of_int 2) /\
  SpecModel.interpolate (Varied.fundamental_patch_at (128, 0)) (SpecModel.lit_0, Sample.lit_0_5)
    = Float.div (Float.of_int 159) (Float.of_int 2) /\
  SpecModel.interpolate (Varied.fundamental_patch_at (0, 0)) (Sample.lit_0_5, Float.lit_1)
    = Float.div (Float.of_int 97) (Float.of_int 2) /\
  SpecModel.interpolate (Varied.fundamental_patch_at (0, 128)) (Sample.lit_0_5, SpecModel.lit_0)
    = Float.div (Float.of_int 97) (Float.of_int 2).
Proof. repeat split; vm_compute; reflexivity. Qed.

Lemma generate_region_independent_of_history_witness :
  @uniform_int_in_range Sample.random /\
  (@generate_region_from Sample.constants Varied.noise Sample.random
     (fun _ _ => ∅)
     (@generate_regions Sample.constants Varied.noise Sample.random
        (WorldGenerator_new 42) []).2 (0, 0)).1 =
  (@generate_region_from Sample.constants Varied.noise Sample.random
     (fun _ _ => Varied.leftover)
     (@generate_regions Sample.constants Varied.noise Sample.random
        (WorldGenerator_new 42) [(128, 0); (0, 128)]).2 (0, 0)).1.
Proof.
  split; [exact sample_uniform_int_in_range|].
  exact (@generate_region_independent_of_history Sample.constants Varied.noise Sample.random
           42 (0, 0) [] [(128, 0); (0, 128)] (fun _ _ => ∅) (fun _ _ => Varied.leftover)
           sample_uniform_int_in_range).
Defined.

(** ** Outcomes of two kinds *)

Lemma holds_and {A : Type} (E1 E2 : fault -> Prop) (P Q : A -> Prop) (r : result A) :
  holds E1 P r -> holds E2 Q r -> holds any_fault (fun a => P a /\ Q a) r.
Proof. destruct r; simpl; [auto | intros; exact I]. Qed.

(** A run that returns has the properties its outcome has. *)
Lemma holds_returns {A : Type} (E : fault -> Prop) (P Q : A -> Prop) (r : result A) :
  holds no_fault P r -> holds E Q r -> holds no_fault (fun a => P a /\ Q a) r.
Proof. destruct r; simpl; [auto | unfold no_fault; tauto]. Qed.

Lemma holds_no_fault_Ok {A : Type} (P : A -> Prop) (r : result A) :
  holds no_fault P r -> exists a, r = Ok a /\ P a.
Proof. destruct r as [a|f]; simpl; [eauto | unfold no_fault; tauto]. Qed.

(** ** The layering of a chunk column *)

Section LayeringProofs.
Context {constants : Constants} {noise : Noise} {random : Random}.
Hypothesis SIZE_Y_pos : 0 < SIZE_Y.

(** A band gives each of its cells the material of the band, carved or
    not. *)
Lemma layer_band_cells (features : RegionFeatures) (column_position relative_position : Vector2i)
    (x z : Z) (material : BlockMaterial) (bottom top : Z) (chunks chunks' : ChunkV) :
  0 <= bottom -> top < 2 ^ 32 ->
  for_each (range bottom top)
    (layer_block features column_position relative_position x z material) chunks = Ok chunks' ->
  forall y, bottom <= y <= top ->
    get_material chunks' (block_ref x z y) =
    cell_material features relative_position material y.
Proof.
  intros Hbottom Htop Hrun.
  pose (I := fun (i : Z) (c : ChunkV) =>
    forall y, bottom <= y < i ->
      get_material c (block_ref x z y) = cell_material features relative_position material y).
  assert (Hh : holds any_fault (I (Z.max bottom (top + 1)))
                 (for_each (range bottom top)
                    (layer_block features column_position relative_position x z material)
                    chunks)).
  { apply (holds_for_each_range any_fault I).
    - intros i c Hi Hcells.
      destruct (layer_block _ _ _ _ _ _ i c) as [c'|f] eqn:Hstep; [|exact Logic.I].
      pose proof (layer_block_effect SIZE_Y_pos _ _ _ _ _ _ _ _ _ Hstep) as Heff.
      intros y Hy. rewrite Heff. case_decide as Heq.
      + apply (block_ref_inj_y SIZE_Y_pos) in Heq; [|lia|lia]. now subst y.
      + apply Hcells. assert (y <> i) by congruence. lia.
    - intros y Hy. lia. }
  rewrite Hrun in Hh. intros y Hy. apply Hh. lia.
Qed.

Lemma last_cons_default {A : Type} (l : list A) (a d : A) :
  List.last (a :: l) d = List.last l a.
Proof.
  revert a d. induction l as [|b l IH]; intros a d; [reflexivity|].
  change (List.last (a :: b :: l) d) with (List.last (b :: l) d).
  now rewrite !IH.
Qed.

(** The loop over the layers computes the tops of [band_tops], and leaves
    each height of the column in the band of [band_at]. *)
Lemma layer_bands_layout (features : RegionFeatures) (column_position relative_position : Vector2i)
    (x z : Z) (ls : list (BlockMaterial * Scalar)) (bottom top : Z)
    (chunks chunks' : ChunkV) :
  0 <= bottom < 2 ^ 32 ->
  layer_bands features column_position relative_position x z ls bottom chunks
    = Ok (top, chunks') ->
  exists tops,
    band_tops ls bottom = Some tops /\ top = List.last tops bottom /\
    forall y, 0 <= y < 2 ^ 32 ->
      get_material chunks' (block_ref x z y) =
      match band_at (zip (ls.*1) tops) bottom y with
      | Some material => cell_material features relative_position material y
      | None => get_material chunks (block_ref x z y)
      end.
Proof.
  revert bottom chunks.
  induction ls as [|[material second] ls IH]; intros bottom chunks Hb Hrun.
  - simpl in Hrun. injection Hrun as <- <-. exists []. simpl. auto.
  - simpl in Hrun.
    destruct (band_top second bottom) as [top1|] eqn:Htop; [|discriminate].
    pose proof (band_top_range _ _ _ Htop) as Hrange.
    destruct (for_each (range bottom top1) _ chunks) as [chunks1|f] eqn:Hband; [|discriminate].
    cbv beta iota delta [mbind result_bind] in Hrun.
    destruct (IH top1 chunks1 Hrange Hrun) as (tops & Htops & Hlast & Hcells).
    exists (top1 :: tops).
    split; [simpl; rewrite Htop; simpl; rewrite Htops; reflexivity|].
    split; [rewrite last_cons_default; exact Hlast|].
    intros y Hy. rewrite (Hcells y Hy). cbn [fmap list_fmap fst zip zip_with band_at].
    destruct (band_at (zip (ls.*1) tops) top1 y) as [later|]; [reflexivity|].
    destruct (Z.leb_spec bottom y) as [H1|H1]; simpl.
    + destruct (Z.leb_spec y top1) as [H2|H2].
      * apply (layer_band_cells features column_position relative_position x z material
                 bottom top1 chunks chunks1); [lia | lia | exact Hband | lia].
      * destruct (layer_band_effect SIZE_Y_pos features column_position relative_position
                    x z material bottom top1 chunks chunks1 ltac:(lia) ltac:(lia) Hband)
          as [Hframe _].
        apply Hframe. intros y' Hy' Heq.
        apply (block_ref_inj_y SIZE_Y_pos) in Heq; lia.
    + destruct (layer_band_effect SIZE_Y_pos features column_position relative_position
                  x z material bottom top1 chunks chunks1 ltac:(lia) ltac:(lia) Hband)
        as [Hframe _].
      apply Hframe. intros y' Hy' Heq.
      apply (block_ref_inj_y SIZE_Y_pos) in Heq; lia.
Qed.

Lemma band_at_layers (t1 t2 t3 t4 t5 y : Z) :
  1 <= t1 <= t2 -> t2 <= t3 <= t4 -> t4 <= t5 -> 0 <= y ->
  band_at [(BLOCK_MATERIAL_MAGMA, 1); (BLOCK_MATERIAL_BEDROCK, t1);
           (BLOCK_MATERIAL_STONE, t2); (BLOCK_MATERIAL_CLAY, t3);
           (BLOCK_MATERIAL_DIRT, t4); (BLOCK_MATERIAL_GRASS, t5)] 0 y =
  if y =? 0 then Some BLOCK_MATERIAL_MAGMA
  else if y <? t1 then Some BLOCK_MATERIAL_BEDROCK
  else if y <? t2 then Some BLOCK_MATERIAL_STONE
  else if y <? t3 then Some BLOCK_MATERIAL_CLAY
  else if y <? t4 then Some BLOCK_MATERIAL_DIRT
  else if y <=? t5 then Some BLOCK_MATERIAL_GRASS
  else None.
Proof.
  intros H12 H34 H5 Hy. cbn [band_at].
  destruct (Z.eqb_spec y 0) as [->|H0].
  { repeat (match goal with |- context [(?a <=? ?b)] =>
              destruct (Z.leb_spec a b); try lia end); reflexivity. }
  destruct (Z.ltb_spec y t1); destruct (Z.ltb_spec y t2); try lia;
  destruct (Z.ltb_spec y t3); try lia; destruct (Z.ltb_spec y t4); try lia;
  repeat (match goal with |- context [(?a <=? ?b)] =>
            destruct (Z.leb_spec a b); try lia end); reflexivity.
Qed.

Lemma magma_top : band_top Float.lit_1 0 = Some 1.
Proof. vm_compute. reflexivity. Qed.

Lemma band_tops_cons (material : BlockMaterial) (second : Scalar)
    (ls : list (BlockMaterial * Scalar)) (bottom : Z) (tops : list Z) :
  band_tops ((material, second) :: ls) bottom = Some tops ->
  exists top tops', tops = top :: tops' /\ band_top second bottom = Some top /\
                    band_tops ls top = Some tops'.
Proof.
  cbn [band_tops]. destruct (band_top second bottom) as [top|] eqn:Htop; [|discriminate].
  cbn [mbind option_bind]. destruct (band_tops ls top) as [tops'|] eqn:Htops; [|discriminate].
  cbn [mbind option_bind]. intros [= <-]. exists top, tops'. auto.
Qed.

Lemma band_tops_range (ls : list (BlockMaterial * Scalar)) (bottom : Z) (tops : list Z) :
  band_tops ls bottom = Some tops -> Forall (fun top => 0 <= top < 2 ^ 32) tops.
Proof.
  revert bottom tops. induction ls as [|[material second] ls IH]; intros bottom tops.
  - intros [= <-]. apply List.Forall_nil.
  - intros (top & tops' & -> & Htop & Htops)%band_tops_cons.
    apply List.Forall_cons; [eapply band_top_range; eauto | eapply IH; eauto].
Qed.

(** The bands of the six layers: the magma band ends at 1, the others
    follow in order, and the grass band ends at 6 or above. *)
Lemma layers_tops (total_height : Scalar) (tops : list Z) :
  band_tops (layers total_height) 0 = Some tops ->
  exists t1 t2 t3 t4 t5,
    tops = [1; t1; t2; t3; t4; t5] /\
    2 <= t1 <= t2 /\ t2 <= t3 <= t4 /\ t4 <= t5 < 2 ^ 32 /\ 6 <= t5.
Proof.
  intros Htops.
  destruct (band_tops_non_decreasing total_height tops Htops) as (Hlen & _ & Ha).
  pose proof (band_tops_range _ _ _ Htops) as Hr.
  unfold layers in Htops.
  apply band_tops_cons in Htops as (t0 & tops' & -> & Htop & _).
  rewrite magma_top in Htop. injection Htop as <-.
  destruct tops' as [|t1 [|t2 [|t3 [|t4 [|t5 [|? ?]]]]]]; simpl in Hlen; try lia.
  exists t1, t2, t3, t4, t5. split; [reflexivity|].
  assert (Hr5 : 0 <= t5 < 2 ^ 32).
  { rewrite Forall_forall in Hr. apply Hr.
    do 5 apply list_elem_of_further. apply list_elem_of_here. }
  simpl in Ha. lia.
Qed.

Lemma generate_block_column_layout (features : RegionFeatures)
    (region_position column_position : Vector2i) (x z : Z)
    (state state' : ChunkV * ChunkHeightmap) :
  generate_block_column features region_position column_position x z state = Ok state' ->
  exists total_height t1 t2 t3 t4 t5,
    total_height_at features
      (Vector2i_add (Vector2i_sub column_position region_position) (x, z)) = Ok total_height /\
    band_tops (layers total_height) 0 = Some [1; t1; t2; t3; t4; t5] /\
    2 <= t1 <= t2 /\ t2 <= t3 <= t4 /\ t4 <= t5 < 2 ^ 32 /\ 6 <= t5 /\
    state'.2 = <[(x, z) := to_int t5]> state.2 /\
    (forall r, (forall y, 0 <= y <= t5 -> r ≠ block_ref x z y) ->
               get_material state'.1 r = get_material state.1 r) /\
    (forall y, 0 <= y <= t5 ->
       get_material state'.1 (block_ref x z y) =
       column_material features
         (Vector2i_add (Vector2i_sub column_position region_position) (x, z))
         t1 t2 t3 t4 t5 y).
Proof.
  intros Hrun.
  destruct (generate_block_column_effect SIZE_Y_pos _ _ _ _ _ _ _ Hrun)
    as (top & Htop & Hheights & Hframe & _).
  unfold generate_block_column in Hrun.
  destruct (total_height_at features _) as [total_height|f] eqn:Hth; [|discriminate].
  cbv beta iota delta [mbind result_bind] in Hrun.
  destruct (layer_bands _ _ _ _ _ _ _ _) as [[top' chunks']|f] eqn:Hbands; [|discriminate].
  injection Hrun as Hstate.
  assert (H0 : 0 <= 0 < 2 ^ 32) by lia.
  destruct (layer_bands_layout _ _ _ _ _ _ _ _ _ _ H0 Hbands)
    as (tops & Htops & Hlast & Hcells).
  destruct (layers_tops total_height tops Htops)
    as (t1 & t2 & t3 & t4 & t5 & -> & H12 & H34 & H5 & H6).
  simpl in Hlast. subst top'.
  assert (top = t5).
  { rewrite <- Hstate in Hheights. simpl in Hheights.
    assert (Hl : (<[(x, z) := to_int t5]> state.2 : ChunkHeightmap) !! (x, z)
                 = (<[(x, z) := to_int top]> state.2 : ChunkHeightmap) !! (x, z))
      by now rewrite Hheights.
    rewrite !lookup_insert_eq in Hl. injection Hl as Hl.
    apply (f_equal to_unsigned) in Hl. rewrite !to_unsigned_to_int in Hl.
    rewrite !to_unsigned_id in Hl by lia. congruence. }
  subst top.
  exists total_height, t1, t2, t3, t4, t5.
  split; [reflexivity|]. split; [exact Htops|].
  split; [exact H12|]. split; [exact H34|]. split; [exact H5|]. split; [exact H6|].
  split; [exact Hheights|]. split; [exact Hframe|].
  intros y Hy. rewrite <- Hstate. cbn [fst].
  rewrite (Hcells y ltac:(lia)).
  unfold layers. cbn [fmap list_fmap fst zip zip_with].
  rewrite band_at_layers by lia. unfold column_material.
  destruct (y =? 0); [reflexivity|].
  destruct (y <? t1); [reflexivity|]. destruct (y <? t2); [reflexivity|].
  destruct (y <? t3); [reflexivity|]. destruct (y <? t4); [reflexivity|].
  destruct (Z.leb_spec y t5); [reflexivity | lia].
Qed.

Hypothesis SIZE_X_int : SIZE_X <= 2 ^ 31.
Hypothesis SIZE_Z_int : SIZE_Z <= 2 ^ 31.

Lemma columns_layered_ext (features : RegionFeatures) (region_position column_position : Vector2i)
    (done done' : Z -> Z -> Prop) (state : ChunkV * ChunkHeightmap) :
  (forall x z, 0 <= x < SIZE_X -> 0 <= z < SIZE_Z -> done x z <-> done' x z) ->
  columns_layered features region_position column_position done state ->
  columns_layered features region_position column_position done' state.
Proof.
  intros Hext Hdone x z Hx Hz. destruct (Hdone x z Hx Hz) as [H1 H2].
  split; intros H; [apply H1 | apply H2]; rewrite (Hext x z Hx Hz); exact H.
Qed.

(** One more block column is layered. *)
Lemma columns_layered_step (features : RegionFeatures)
    (region_position column_position : Vector2i)
    (done : Z -> Z -> Prop) (x0 z0 : Z) (state : ChunkV * ChunkHeightmap) :
  0 <= x0 < SIZE_X -> 0 <= z0 < SIZE_Z -> ~ done x0 z0 ->
  columns_layered features region_position column_position done state ->
  holds any_fault
    (columns_layered features region_position column_position
       (fun x z => done x z \/ (x = x0 /\ z = z0)))
    (generate_block_column features region_position column_position x0 z0 state).
Proof.
  intros Hx0 Hz0 Hnew Hdone.
  destruct (generate_block_column _ _ _ x0 z0 state) as [state'|f] eqn:Hrun; [|exact I].
  destruct (generate_block_column_layout _ _ _ _ _ _ _ Hrun)
    as (th & t1 & t2 & t3 & t4 & t5 & Hth & Htops & H12 & H34 & H5 & H6 &
        Hheights & Hframe & Hcells).
  simpl. intros x z Hx Hz.
  destruct (decide (x = x0 /\ z = z0)) as [[-> ->]|Hother].
  - split; [intros _ | intros Hn; exfalso; apply Hn; now right].
    destruct (Hdone x0 z0 Hx Hz) as [_ Huntouched]. specialize (Huntouched Hnew).
    exists th, t1, t2, t3, t4, t5.
    split; [exact Hth|]. split; [exact Htops|].
    split; [exact H12|]. split; [exact H34|]. split; [exact H5|]. split; [exact H6|].
    split; [rewrite Hheights; apply lookup_insert_eq|].
    intros y Hy. unfold material_at.
    destruct (Z.le_gt_cases y t5) as [Hle|Hgt].
    + apply Hcells. lia.
    + rewrite Hframe.
      * pose proof (Huntouched y Hy) as Hu. unfold material_at in Hu. rewrite Hu.
        unfold column_material.
        destruct (Z.eqb_spec y 0); [lia|].
        destruct (Z.ltb_spec y t1); [lia|]. destruct (Z.ltb_spec y t2); [lia|].
        destruct (Z.ltb_spec y t3); [lia|]. destruct (Z.ltb_spec y t4); [lia|].
        destruct (Z.leb_spec y t5); [lia | reflexivity].
      * intros y' Hy' Heq. apply (block_ref_inj_y SIZE_Y_pos) in Heq; lia.
  - assert (Hsame : forall y, material_at state'.1 x y z = material_at state.1 x y z).
    { intros y. unfold material_at. apply Hframe. intros y' _ Heq.
      apply block_ref_inj_xz in Heq; [tauto|lia..]. }
    assert (Hkey : state'.2 !! (x, z) = state.2 !! (x, z)).
    { rewrite Hheights. apply lookup_insert_ne. intros [= -> ->]. tauto. }
    destruct (Hdone x z Hx Hz) as [H1 H2]. split.
    + intros [Hd|[-> ->]]; [|tauto].
      destruct (H1 Hd) as (th' & u1 & u2 & u3 & u4 & u5 & Ha & Hb & Hc & Hd' & He & Hf & Hg & Hh).
      exists th', u1, u2, u3, u4, u5.
      rewrite Hkey. repeat (split; [assumption|]).
      intros y Hy. rewrite Hsame. now apply Hh.
    + intros Hn y Hy. rewrite Hsame. apply H2; [|exact Hy]. intros Hd. apply Hn. now left.
Qed.

Lemma generate_chunk_column_layered (features : RegionFeatures)
    (region_position column_position : Vector2i) :
  holds any_fault
    (fun state => forall x z, 0 <= x < SIZE_X -> 0 <= z < SIZE_Z ->
       column_layered features region_position column_position state.1 state.2 x z)
    (generate_chunk_column [] features region_position column_position ∅).
Proof.
  unfold generate_chunk_column.
  eapply holds_weaken.
  - apply (holds_for_each_range any_fault
             (fun i => columns_layered features region_position column_position
                         (fun x z => x < i))).
    + intros x0 state Hx0 Hstate.
      eapply holds_weaken.
      * apply (holds_for_each_range any_fault
                 (fun j => columns_layered features region_position column_position
                             (fun x z => x < x0 \/ (x = x0 /\ z < j)))).
        -- intros z0 state' Hz0 Hstate'.
           eapply holds_weaken.
           ++ apply (columns_layered_step features region_position column_position
                       (fun x z => x < x0 \/ (x = x0 /\ z < z0)));
                [lia | lia | cbv beta; lia | exact Hstate'].
           ++ intros state''. apply columns_layered_ext. intros x z Hx Hz. lia.
        -- revert Hstate. apply columns_layered_ext. intros x z Hx Hz. lia.
      * intros state'. apply columns_layered_ext. intros x z Hx Hz. lia.
    + intros x z Hx Hz. split; [lia|]. intros _ y Hy. reflexivity.
  - intros state Hstate x z Hx Hz. apply (Hstate x z Hx Hz). simpl. lia.
Qed.

Lemma cell_material_not_magma (features : RegionFeatures) (relative_position : Vector2i)
    (material : BlockMaterial) (y : Z) :
  material ≠ BLOCK_MATERIAL_MAGMA ->
  cell_material features relative_position material y ≠ BLOCK_MATERIAL_MAGMA.
Proof.
  intros Hm. unfold cell_material. case_decide; [|tauto]. case_match; [discriminate | exact Hm].
Qed.

End LayeringProofs.

(** X1.  The layering of a chunk column.  After [generate_chunk_column]
    each block column of the chunk's footprint holds, from the bottom up:
    magma at height 0, then bedrock, stone, clay, dirt and grass, a band
    reaching from the top of the band below it (whose top cell it
    overwrites) to one below its own top, the grass band to its top
    included, and air above; the cells of the bands other than magma are
    air where the cave test carved them.  The tops are those of
    [band_tops], they do not decrease, the first is at least 2 and the last
    at least 6, and the last is the height map entry of the column. *)
Theorem generate_chunk_column_layers
    {constants : Constants} {noise : Noise} {random : Random}
    (features : RegionFeatures) (region_position column_position : Vector2i) :
  0 < SIZE_Y -> SIZE_X <= 2 ^ 31 -> SIZE_Z <= 2 ^ 31 ->
  holds any_fault
    (fun state : ChunkV * ChunkHeightmap =>
       forall x z, 0 <= x < SIZE_X -> 0 <= z < SIZE_Z ->
       let relative_position :=
         Vector2i_add (Vector2i_sub column_position region_position) (x, z) in
       exists total_height t1 t2 t3 t4 t5,
         total_height_at features relative_position = Ok total_height /\
         band_tops (layers total_height) 0 = Some [1; t1; t2; t3; t4; t5] /\
         2 <= t1 <= t2 /\ t2 <= t3 <= t4 /\ t4 <= t5 < 2 ^ 32 /\ 6 <= t5 /\
         state.2 !! (x, z) = Some (to_int t5) /\
         forall y, 0 <= y < 2 ^ 32 ->
           material_at state.1 x y z =
           column_material features relative_position t1 t2 t3 t4 t5 y)
    (generate_chunk_column [] features region_position column_position ∅).
Proof.
  intros HY HX HZ.
  eapply holds_weaken;
    [apply (generate_chunk_column_layered HY HX HZ features region_position column_position)|].
  intros state Hstate x z Hx Hz. exact (Hstate x z Hx Hz).
Qed.

(** X2.  The floor of the world.  After [generate_chunk_column] the block
    at height 0 of every block column is magma and no block above it is:
    the magma band ends at height 1, but the bedrock band starts there and
    overwrites that cell, and the cave test never applies to magma. *)
Theorem magma_floor
    {constants : Constants} {noise : Noise} {random : Random}
    (features : RegionFeatures) (region_position column_position : Vector2i) :
  0 < SIZE_Y -> SIZE_X <= 2 ^ 31 -> SIZE_Z <= 2 ^ 31 ->
  holds any_fault
    (fun state : ChunkV * ChunkHeightmap =>
       forall x z, 0 <= x < SIZE_X -> 0 <= z < SIZE_Z ->
       material_at state.1 x 0 z = BLOCK_MATERIAL_MAGMA /\
       forall y, 1 <= y < 2 ^ 32 -> material_at state.1 x y z ≠ BLOCK_MATERIAL_MAGMA)
    (generate_chunk_column [] features region_position column_position ∅).
Proof.
  intros HY HX HZ.
  eapply holds_weaken;
    [apply (generate_chunk_column_layered HY HX HZ features region_position column_position)|].
  intros state Hstate x z Hx Hz.
  destruct (Hstate x z Hx Hz) as (th & t1 & t2 & t3 & t4 & t5 & _ & _ & _ & _ & _ & _ & _ & Hm).
  split.
  - rewrite Hm by lia. reflexivity.
  - intros y Hy. rewrite Hm by lia. unfold column_material.
    destruct (Z.eqb_spec y 0); [lia|].
    repeat (case_match; [apply cell_material_not_magma; discriminate|]).
    discriminate.
Qed.

(** ** The block store *)

Section BlockStore.
Context {constants : Constants} {noise : Noise} {random : Random}.
Hypothesis SIZE_Y_pos : 0 < SIZE_Y.

Lemma block_ref_inj (x z y x' z' y' : Z) :
  - 2 ^ 31 <= x < 2 ^ 31 -> - 2 ^ 31 <= z < 2 ^ 31 -> 0 <= y < 2 ^ 32 ->
  - 2 ^ 31 <= x' < 2 ^ 31 -> - 2 ^ 31 <= z' < 2 ^ 31 -> 0 <= y' < 2 ^ 32 ->
  block_ref x z y = block_ref x' z' y' -> x = x' /\ z = z' /\ y = y'.
Proof.
  intros Hx Hz Hy Hx' Hz' Hy' Heq.
  destruct (block_ref_inj_xz _ _ _ _ _ _ Hx Hz Hx' Hz' Heq) as [-> ->].
  repeat split. eapply (block_ref_inj_y SIZE_Y_pos); eauto.
Qed.

End BlockStore.

(** X3.  The block store.  A material written through the reference that
    [get_block] returns for the block [(x, y, z)] of a column is what the
    column holds at [(x, y, z)] afterwards, and no other block of the
    column changes: different coordinates never address the same cell,
    and the chunk [get_block] may have allocated holds air only. *)
Theorem get_block_write_read {constants : Constants}
    (chunks chunks1 : ChunkV) (column_position : Vector2i) (x z y : Z)
    (block : BlockRef) (material : BlockMaterial) (x' z' y' : Z) :
  0 < SIZE_Y ->
  0 <= x < SIZE_X -> 0 <= z < SIZE_Z -> 0 <= y < 2 ^ 32 ->
  - 2 ^ 31 <= x' < 2 ^ 31 -> - 2 ^ 31 <= z' < 2 ^ 31 -> 0 <= y' < 2 ^ 32 ->
  SIZE_X <= 2 ^ 31 -> SIZE_Z <= 2 ^ 31 ->
  get_block chunks column_position x z y = Ok (block, chunks1) ->
  material_at (set_material block material chunks1) x' y' z' =
  if decide (x' = x /\ y' = y /\ z' = z) then material else material_at chunks x' y' z'.
Proof.
  intros HY Hx Hz Hy Hx' Hz' Hy' HX HZ Hget.
  apply (get_block_Ok HY) in Hget as (-> & Hlt & _ & Hsame).
  unfold material_at. rewrite get_material_set_material by exact Hlt.
  case_decide as Href; case_decide as Hc.
  - reflexivity.
  - apply (block_ref_inj HY) in Href; [|lia..]. tauto.
  - destruct Hc as (-> & -> & ->). congruence.
  - apply Hsame.
Qed.

(** ** The chunk grid *)

Section GridProofs.
Context {constants : Constants} {noise : Noise} {random : Random}.
Hypothesis SIZE_Y_pos : 0 < SIZE_Y.

Lemma on_grid_set_material (column_position : Vector2i) (b : BlockRef) (m : BlockMaterial)
    (chunks : ChunkV) :
  on_grid column_position chunks -> on_grid column_position (set_material b m chunks).
Proof.
  intros Hg i c. unfold set_material.
  destruct (decide (i = ref_chunk b)) as [->|Hne].
  - rewrite list_lookup_alter_eq. destruct (chunks !! ref_chunk b) as [c0|] eqn:Hc; [|discriminate].
    simpl. intros [= <-]. simpl. now apply Hg.
  - rewrite list_lookup_alter_ne by congruence. apply Hg.
Qed.

(** [get_block] allocates a chunk only at the first height of the chunk. *)
Lemma get_block_on_grid (chunks : ChunkV) (column_position : Vector2i) (x z h : Z) :
  reached chunks (to_unsigned h) -> on_grid column_position chunks ->
  holds any_fault (fun bc => on_grid column_position bc.2)
    (get_block chunks column_position x z h).
Proof.
  unfold reached, get_block. intros Hr Hg.
  pose proof (to_unsigned_range h) as Hh.
  set (u := to_unsigned h) in *.
  destruct (Z.leb_spec (Z.of_nat (length chunks)) (u / SIZE_Y)) as [Hge|Hlt].
  - assert (Hu : u = Z.of_nat (length chunks) * SIZE_Y).
    { pose proof (Z.mul_div_le u SIZE_Y SIZE_Y_pos). nia. }
    case_match; [|exact I]. case_match; [|exact I]. simpl.
    intros i c Hi. apply lookup_app_Some in Hi as [Hi|[Hlen Hi]]; [now apply Hg|].
    apply list_lookup_singleton_Some in Hi as [Hi <-]. simpl.
    replace i with (length chunks) by lia. rewrite <- Hu. reflexivity.
  - case_match; [|exact I]. case_match; [|exact I]. simpl. exact Hg.
Qed.

Lemma layer_block_on_grid (features : RegionFeatures) (column_position relative_position : Vector2i)
    (x z : Z) (material : BlockMaterial) (y : Z) (chunks : ChunkV) :
  0 <= y < 2 ^ 32 -> reached chunks y -> on_grid column_position chunks ->
  holds any_fault (on_grid column_position)
    (layer_block features column_position relative_position x z material y chunks).
Proof.
  intros Hy Hr Hg. unfold layer_block.
  eapply holds_bind.
  - apply get_block_on_grid; [now rewrite to_unsigned_id | exact Hg].
  - intros [block chunks'] Hg'. simpl in Hg'.
    repeat case_match; simpl; now apply on_grid_set_material.
Qed.

Lemma layer_bands_on_grid (features : RegionFeatures) (column_position relative_position : Vector2i)
    (x z : Z) (ls : list (BlockMaterial * Scalar)) (bottom : Z) (chunks : ChunkV) :
  0 <= bottom < 2 ^ 32 -> reached chunks bottom -> on_grid column_position chunks ->
  holds any_fault
    (fun bc => (0 <= bc.1 < 2 ^ 32 /\ reached bc.2 bc.1 /\ (length chunks <= length bc.2)%nat) /\
               on_grid column_position bc.2)
    (layer_bands features column_position relative_position x z ls bottom chunks).
Proof.
  revert bottom chunks. induction ls as [|[material second] ls IH]; intros bottom chunks Hb Hr Hg.
  - simpl. auto.
  - simpl. destruct (band_top second bottom) as [top|] eqn:Htop; [|exact I].
    apply band_top_range in Htop.
    eapply holds_bind.
    + apply (holds_for_each_range any_fault
               (fun y chunks' => (reached chunks' y /\ (length chunks <= length chunks')%nat) /\
                                 on_grid column_position chunks')).
      * intros y chunks' Hy [[Hr' Hlen] Hg'].
        eapply holds_weaken.
        -- eapply holds_and.
           ++ apply (layer_block_in_vector SIZE_Y_pos features column_position
                       relative_position x z material y chunks'); [lia | exact Hr'].
           ++ apply (layer_block_on_grid features column_position relative_position
                       x z material y chunks'); [lia | exact Hr' | exact Hg'].
        -- intros chunks'' [[Hr'' Hlen'] Hg'']. repeat split; [exact Hr'' | lia | exact Hg''].
      * repeat split; [exact Hr | lia | exact Hg].
    + intros chunks' [[Hr' Hlen] Hg']. simpl.
      eapply holds_weaken; [apply IH; [exact Htop| |exact Hg']|].
      * unfold reached in *. lia.
      * intros [b' chunks''] [(Hb' & Hr'' & Hlen') Hg'']. simpl in *.
        repeat split; try lia; assumption.
Qed.

Lemma generate_block_column_on_grid (features : RegionFeatures)
    (region_position column_position : Vector2i) (x z : Z) (state : ChunkV * ChunkHeightmap) :
  heights_reached state.1 state.2 -> on_grid column_position state.1 ->
  holds any_fault
    (fun state' => heights_reached state'.1 state'.2 /\ on_grid column_position state'.1)
    (generate_block_column features region_position column_position x z state).
Proof.
  intros Hh Hg.
  eapply holds_and with (E1 := in_vector) (E2 := any_fault).
  - now apply generate_block_column_in_vector.
  - unfold generate_block_column.
    destruct (total_height_at _ _) as [total_height|f]; [|exact I].
    cbv beta iota delta [mbind result_bind].
    eapply holds_bind.
    + apply layer_bands_on_grid; [lia | unfold reached; lia | exact Hg].
    + intros [bottom chunks] [_ Hg']. simpl. exact Hg'.
Qed.

Lemma generate_chunk_column_on_grid (features : RegionFeatures)
    (region_position column_position : Vector2i) :
  holds any_fault
    (fun state => heights_reached state.1 state.2 /\ on_grid column_position state.1)
    (generate_chunk_column [] features region_position column_position ∅).
Proof.
  unfold generate_chunk_column.
  set (I := fun state : ChunkV * ChunkHeightmap =>
              heights_reached state.1 state.2 /\ on_grid column_position state.1).
  apply (holds_for_each any_fault I).
  - intros x state _ Hs. apply (holds_for_each any_fault I); [|exact Hs].
    intros z state' _ [Hh Hg]. now apply generate_block_column_on_grid.
  - split; [intros k b Hk; simpl in Hk; now rewrite lookup_empty in Hk
           | intros i c Hi; simpl in Hi; discriminate].
Qed.

Lemma place_leaf_on_grid (column_position : Vector2i) (x z bottom y u v : Z) (chunks : ChunkV) :
  reached chunks (to_unsigned (bottom + y) + 1) -> on_grid column_position chunks ->
  holds any_fault (on_grid column_position)
    (place_leaf column_position x z bottom y u v chunks).
Proof.
  intros Hr Hg. unfold place_leaf. case_decide; [|exact Hg].
  eapply holds_bind.
  - apply get_block_on_grid; [unfold reached in *; lia | exact Hg].
  - intros [leaf_block chunks'] Hg'. simpl in Hg'.
    case_decide; simpl; [now apply on_grid_set_material | exact Hg'].
Qed.

Lemma grow_level_on_grid (column_position : Vector2i) (x z bottom height radius y : Z)
    (chunks : ChunkV) :
  reached chunks (to_unsigned (bottom + y)) -> on_grid column_position chunks ->
  holds any_fault (on_grid column_position)
    (grow_level column_position x z bottom height radius y chunks).
Proof.
  intros Hr Hg. unfold grow_level.
  eapply holds_bind.
  - eapply holds_and with (E1 := in_vector) (E2 := any_fault).
    + apply (get_block_in_vector SIZE_Y_pos). exact Hr.
    + apply get_block_on_grid; [exact Hr | exact Hg].
  - intros [trunk_block chunks'] [[Hr' Hlen] Hg']. simpl in Hr', Hlen, Hg'.
    set (I := fun chunks'' : ChunkV =>
                reached chunks'' (to_unsigned (bottom + y) + 1) /\
                on_grid column_position chunks'').
    assert (HI : I (set_material trunk_block BLOCK_MATERIAL_TREE_TRUNK chunks')).
    { split; [unfold reached in *; now rewrite length_set_material
             | now apply on_grid_set_material]. }
    case_match; [|exact (proj2 HI)].
    eapply holds_weaken with (Ψ := I); [|intros c Hc; exact (proj2 Hc)].
    apply (holds_for_each any_fault I); [|exact HI].
    intros u chunks1 _ H1.
    apply (holds_for_each any_fault I); [|exact H1].
    intros v chunks2 _ [H2 Hg2].
    eapply holds_weaken.
    + eapply holds_and with (E1 := in_vector) (E2 := any_fault).
      * apply (place_leaf_in_vector SIZE_Y_pos). exact H2.
      * apply place_leaf_on_grid; [exact H2 | exact Hg2].
    + intros chunks3 [[H3 _] Hg3]. split; assumption.
Qed.

Lemma plant_tree_on_grid (column_position : Vector2i) (heights : ChunkHeightmap)
    (state : rand48 * ChunkV) :
  heights_reached state.2 heights -> on_grid column_position state.2 ->
  holds any_fault (fun state' => on_grid column_position state'.2)
    (plant_tree column_position heights state).
Proof.
  intros Hh Hg. unfold plant_tree.
  destruct (uniform_int _ _ state.1) as [x g1].
  destruct (uniform_int _ _ g1) as [z g2].
  destruct (uniform_int _ _ g2) as [height g3].
  destruct (uniform_int _ _ g3) as [radius g4].
  destruct (heights !! (x, z)) as [bottom|] eqn:Hbottom; [|exact I].
  apply Hh in Hbottom.
  eapply holds_bind.
  - eapply holds_and with (E1 := in_vector) (E2 := any_fault).
    + apply (get_block_in_vector SIZE_Y_pos). exact Hbottom.
    + apply get_block_on_grid; [exact Hbottom | exact Hg].
  - intros [bottom_block chunks] [[Hr Hlen] Hg']. simpl in Hr, Hlen, Hg'.
    case_decide; [|exact Hg'].
    eapply holds_bind.
    + apply (holds_for_each_range any_fault
               (fun y chunks' => reached chunks' (to_unsigned (bottom + y)) /\
                                 on_grid column_position chunks')).
      * intros y chunks1 _ [H1 Hg1].
        eapply holds_weaken.
        -- eapply holds_and with (E1 := in_vector) (E2 := any_fault).
           ++ apply (grow_level_in_vector SIZE_Y_pos). exact H1.
           ++ apply grow_level_on_grid; [exact H1 | exact Hg1].
        -- intros chunks2 [[H2 _] Hg2]. split; assumption.
      * pose proof (to_unsigned_succ bottom). unfold reached in *. split; [lia | exact Hg'].
    + intros chunks' [_ Hg'']. exact Hg''.
Qed.

Lemma populate_trees_on_grid (world_seed : Z) (chunks : ChunkV) (column_position : Vector2i)
    (heights : ChunkHeightmap) :
  heights_reached chunks heights -> on_grid column_position chunks ->
  holds any_fault (on_grid column_position)
    (populate_trees world_seed chunks column_position heights).
Proof.
  intros Hh Hg. unfold populate_trees.
  case_match; [|exact I].
  set (I := fun state : rand48 * ChunkV =>
              heights_reached state.2 heights /\ on_grid column_position state.2).
  eapply holds_bind with (Ψ := I); [|intros state' [_ Hg']; exact Hg'].
  apply (holds_for_each any_fault I); [|split; assumption].
  intros i state _ [Hs Hgs].
  eapply holds_weaken.
  - eapply holds_and with (E1 := in_vector) (E2 := any_fault).
    + apply (plant_tree_in_vector SIZE_Y_pos). exact Hs.
    + apply plant_tree_on_grid; [exact Hs | exact Hgs].
  - intros state' [Hlen Hg']. split; [|exact Hg'].
    eapply (heights_reached_mono SIZE_Y_pos); [exact Hlen | exact Hs].
Qed.

Lemma populate_trees_length (world_seed : Z) (chunks : ChunkV) (column_position : Vector2i)
    (heights : ChunkHeightmap) :
  heights_reached chunks heights ->
  holds any_fault (fun chunks' => (length chunks <= length chunks')%nat)
    (populate_trees world_seed chunks column_position heights).
Proof.
  intros Hh. unfold populate_trees.
  case_match; [|exact I].
  set (I := fun state : rand48 * ChunkV =>
              heights_reached state.2 heights /\ (length chunks <= length state.2)%nat).
  eapply holds_bind with (Ψ := I); [|intros state' [_ Hlen]; exact Hlen].
  apply (holds_for_each any_fault I); [|split; [exact Hh | simpl; lia]].
  intros i state _ [Hs Hlen].
  eapply holds_weaken.
  - eapply holds_and with (E1 := in_vector) (E2 := any_fault) (Q := fun _ => True).
    + apply (plant_tree_in_vector SIZE_Y_pos). exact Hs.
    + destruct (plant_tree _ _ _); exact Logic.I.
  - intros state' [Hlen' _]. split; [|lia].
    eapply (heights_reached_mono SIZE_Y_pos); [exact Hlen' | exact Hs].
Qed.

Hypothesis SIZE_X_int : SIZE_X <= 2 ^ 31.
Hypothesis SIZE_Z_int : SIZE_Z <= 2 ^ 31.

(** A chunk column adds a stack of chunks to the region. *)
Lemma generate_column_stack (world_seed : Z) (region_features : RegionFeatures)
    (position : Vector2i) (x z : Z) (chunks : ChunkV) :
  holds any_fault
    (fun chunks' => exists stack,
       chunks' = chunks ++ stack /\
       column_stack (Vector2i_add position (x * SIZE_X, z * SIZE_Z)) stack)
    (generate_column world_seed region_features position x z chunks).
Proof.
  unfold generate_column.
  eapply holds_bind.
  - eapply holds_and with (E1 := any_fault) (E2 := any_fault).
    + apply (generate_chunk_column_on_grid region_features position
               (Vector2i_add position (x * SIZE_X, z * SIZE_Z))).
    + apply (generate_chunk_column_layered SIZE_Y_pos SIZE_X_int SIZE_Z_int).
  - intros [column_chunks heights] [[Hh Hg] Hs]. simpl in Hh, Hg, Hs.
    destruct (populate_trees world_seed column_chunks _ heights) as [stack|f] eqn:Hrun;
      [|exact I].
    simpl. exists stack. split; [reflexivity|].
    pose proof (populate_trees_on_grid world_seed column_chunks _ heights Hh Hg) as Hg'.
    pose proof (populate_trees_length world_seed column_chunks
                  (Vector2i_add position (x * SIZE_X, z * SIZE_Z)) heights Hh) as Hlen.
    rewrite Hrun in Hg', Hlen. simpl in Hg', Hlen.
    split; [|exact Hg'].
    unfold populate_trees in Hrun.
    destruct (Z.leb_spec MAX_TREE_RADIUS (SIZE_X - MAX_TREE_RADIUS - 1)) as [HX|_];
      [|discriminate].
    destruct (Z.leb_spec MAX_TREE_RADIUS (SIZE_Z - MAX_TREE_RADIUS - 1)) as [HZ|_];
      [|discriminate].
    unfold MAX_TREE_RADIUS in HX, HZ.
    assert (H0x : 0 <= 0 < SIZE_X) by lia. assert (H0z : 0 <= 0 < SIZE_Z) by lia.
    destruct (Hs 0 0 H0x H0z) as (th & t1 & t2 & t3 & t4 & t5 & _ & _ & _ & _ & H5 & H6 & Hkey & _).
    pose proof (Hh _ _ Hkey) as Hr. unfold reached in Hr.
    rewrite to_unsigned_to_int, to_unsigned_id in Hr by lia.
    intros ->. destruct column_chunks as [|c column_chunks]; [|simpl in Hlen; lia].
    simpl in Hr. lia.
Qed.

(** A loop over a list with an invariant that follows the elements done. *)
Lemma holds_for_each_done {S A : Type} (E : fault -> Prop) (I : list A -> S -> Prop)
    (l : list A) (body : A -> S -> result S) (s : S) :
  (forall done a s, I done s -> holds E (I (done ++ [a])) (body a s)) ->
  I [] s -> holds E (I l) (for_each l body s).
Proof.
  intros Hbody.
  assert (Hgen : forall done s, I done s -> holds E (I (done ++ l)) (for_each l body s)).
  { induction l as [|a l IH]; intros done s0 Hs; simpl.
    - now rewrite app_nil_r.
    - eapply holds_bind; [apply Hbody; exact Hs|].
      intros s' Hs'. replace (done ++ a :: l) with ((done ++ [a]) ++ l) by now rewrite <- app_assoc.
      now apply IH. }
  intros Hs. apply (Hgen [] s Hs).
Qed.

End GridProofs.

(** X4.  The chunks of a region.  [generate_region] returns the chunks
    column by column, in the order of its loops over [x] and [z], and for
    each chunk column a stack of one chunk or more, from the bottom up:
    the chunk at index [i] of the stack has its origin at the column's
    position [position + (x * SIZE_X, z * SIZE_Z)] and at the height
    [i * SIZE_Y].  (A chunk is allocated only when the first block of it
    is asked for, and [get_block] takes the height of that block as the
    chunk's origin.) *)
Theorem generate_region_stacks
    {constants : Constants} {noise : Noise} {random : Random}
    (this : WorldGenerator) (position : Vector2i) :
  0 < SIZE_Y -> SIZE_X <= 2 ^ 31 -> SIZE_Z <= 2 ^ 31 ->
  holds any_fault
    (fun chunks => exists stacks : list ChunkV,
       chunks = concat stacks /\
       Forall2 column_stack (region_columns position) stacks)
    (generate_region this position).1.
Proof.
  intros HY HX HZ. unfold generate_region, region_columns. cbn [fst].
  set (column := fun x z : Z => Vector2i_add position (x * SIZE_X, z * SIZE_Z)).
  set (zs := range 0 (CHUNKS_PER_REGION_EDGE.2 - 1)).
  set (I := fun (done : list Vector2i) (chunks : ChunkV) =>
              exists stacks : list ChunkV,
                chunks = concat stacks /\ Forall2 column_stack done stacks).
  apply (holds_for_each_done any_fault
           (fun done_x => I (concat (map (fun x => map (column x) zs) done_x)))).
  - intros done_x x chunks Hdone.
    rewrite map_app, concat_app. cbn [map concat]. rewrite app_nil_r.
    apply (holds_for_each_done any_fault
             (fun done_z => I (concat (map (fun x => map (column x) zs) done_x)
                               ++ map (column x) done_z))).
    + intros done_z z chunks' (stacks & -> & Hstacks).
      eapply holds_weaken; [apply (generate_column_stack HY HX HZ)|].
      intros chunks'' (stack & -> & Hstack).
      exists (stacks ++ [stack]). split.
      * rewrite concat_app. simpl. now rewrite app_nil_r.
      * rewrite map_app, app_assoc. apply Forall2_app; [exact Hstacks|].
        simpl. constructor; [exact Hstack | constructor].
    + simpl. now rewrite app_nil_r.
  - exists []. split; [reflexivity | constructor].
Qed.

(** ** Runs that return *)

Lemma abs_below (M : Z) (x : Scalar) : below M x -> below M (Float.abs x).
Proof. destruct x; simpl; auto. Qed.

Section Returns.
Context {constants : Constants} {noise : Noise} {random : Random}.
Hypothesis SIZE_Y_pos : 0 < SIZE_Y.
Hypothesis SIZE_X_int : SIZE_X <= 2 ^ 31.
Hypothesis SIZE_Z_int : SIZE_Z <= 2 ^ 31.

Lemma get_block_returns (chunks : ChunkV) (column_position : Vector2i) (x z h : Z) :
  reached chunks (to_unsigned h) -> 0 <= x < SIZE_X -> 0 <= z < SIZE_Z ->
  holds no_fault
    (fun bc => reached bc.2 (to_unsigned h + 1) /\ (length chunks <= length bc.2)%nat)
    (get_block chunks column_position x z h).
Proof.
  intros Hr Hx Hz.
  pose proof (get_block_in_vector SIZE_Y_pos chunks column_position x z h Hr) as Hv.
  pose proof (get_block_inside_chunk SIZE_X_int SIZE_Z_int chunks column_position x z h Hx Hz)
    as Hi.
  destruct (get_block chunks column_position x z h) as [bc|f] eqn:Hget; [exact Hv|].
  simpl in *. unfold in_vector, inside_chunk in *.
  unfold get_block in Hget. repeat case_match; congruence.
Qed.

Lemma layer_block_returns (features : RegionFeatures) (column_position relative_position : Vector2i)
    (x z : Z) (material : BlockMaterial) (y : Z) (chunks : ChunkV) :
  0 <= y < 2 ^ 32 -> reached chunks y -> 0 <= x < SIZE_X -> 0 <= z < SIZE_Z ->
  holds no_fault
    (fun chunks' => reached chunks' (y + 1) /\ (length chunks <= length chunks')%nat)
    (layer_block features column_position relative_position x z material y chunks).
Proof.
  intros Hy Hr Hx Hz. unfold layer_block.
  eapply holds_bind.
  - apply get_block_returns; [now rewrite to_unsigned_id | exact Hx | exact Hz].
  - intros [block chunks'] [Hr' Hlen]. simpl in Hr', Hlen.
    rewrite to_unsigned_id in Hr' by exact Hy.
    repeat case_match; simpl; unfold reached in *; rewrite length_set_material; auto.
Qed.

Lemma layer_bands_returns (features : RegionFeatures) (column_position relative_position : Vector2i)
    (x z : Z) (ls : list (BlockMaterial * Scalar)) (bottom : Z) (tops : list Z)
    (chunks : ChunkV) :
  band_tops ls bottom = Some tops ->
  0 <= bottom < 2 ^ 32 -> reached chunks bottom -> 0 <= x < SIZE_X -> 0 <= z < SIZE_Z ->
  holds no_fault
    (fun bc => 0 <= bc.1 < 2 ^ 32 /\ reached bc.2 bc.1 /\ (length chunks <= length bc.2)%nat)
    (layer_bands features column_position relative_position x z ls bottom chunks).
Proof.
  intros Htops Hb Hr Hx Hz. revert bottom tops chunks Htops Hb Hr.
  induction ls as [|[material second] ls IH]; intros bottom tops chunks Htops Hb Hr.
  - simpl. auto.
  - cbn [band_tops] in Htops. cbn [layer_bands].
    destruct (band_top second bottom) as [top|] eqn:Htop; [|discriminate].
    cbn [mbind option_bind] in Htops.
    destruct (band_tops ls top) as [tops'|] eqn:Htops'; [|discriminate].
    apply band_top_range in Htop.
    eapply holds_bind.
    + apply (holds_for_each_range no_fault
               (fun y chunks' => reached chunks' y /\ (length chunks <= length chunks')%nat)).
      * intros y chunks' Hy [Hr' Hlen].
        eapply holds_weaken;
          [apply layer_block_returns; [lia | exact Hr' | exact Hx | exact Hz]|].
        intros chunks'' [Hr'' Hlen']. split; [exact Hr'' | lia].
      * split; [exact Hr | lia].
    + intros chunks' [Hr' Hlen]. simpl.
      eapply holds_weaken; [eapply IH; [exact Htops' | exact Htop |]|].
      * unfold reached in *. lia.
      * intros [b' chunks''] (Hb' & Hr'' & Hlen'). simpl in *. repeat split; try lia. exact Hr''.
Qed.

Hypothesis EDGE_pos : 0 < BICUBIC_OCTAVE_EDGE.
Hypothesis EDGE_half : REGION_SIZE <= 2 * BICUBIC_OCTAVE_EDGE.

(** Inside the region every block column has its octave patch. *)
Lemma octave_patch_in_region (features : RegionFeatures) (relative_position : Vector2i) :
  0 <= relative_position.1 < REGION_SIZE -> 0 <= relative_position.2 < REGION_SIZE ->
  exists octave_patch,
    get_octave_patch features (octave_index relative_position) = Some octave_patch.
Proof.
  intros H1 H2. unfold octave_index.
  rewrite !Z.quot_div_nonneg by lia.
  assert (Hq : forall a, 0 <= a < REGION_SIZE ->
            a / BICUBIC_OCTAVE_EDGE = 0 \/ a / BICUBIC_OCTAVE_EDGE = 1).
  { intros a Ha.
    assert (0 <= a / BICUBIC_OCTAVE_EDGE) by (apply Z.div_pos; lia).
    assert (a / BICUBIC_OCTAVE_EDGE < 2) by (apply Z.div_lt_upper_bound; lia).
    lia. }
  destruct (Hq _ H1) as [-> | ->], (Hq _ H2) as [-> | ->]; simpl; eauto.
Qed.

Lemma total_height_returns (features : RegionFeatures) (relative_position : Vector2i) :
  heights_bounded features ->
  0 <= relative_position.1 < REGION_SIZE -> 0 <= relative_position.2 < REGION_SIZE ->
  exists total_height,
    total_height_at features relative_position = Ok total_height /\ below 18 total_height.
Proof.
  intros Hb H1 H2. unfold total_height_at.
  destruct (octave_patch_in_region features relative_position H1 H2) as [octave_patch Ho].
  destruct (Hb relative_position H1 H2) as [Hf Hoct]. specialize (Hoct octave_patch Ho).
  rewrite Ho. eexists. split; [reflexivity|].
  destruct lit_below as (_ & _ & _ & H52 & _).
  assert (H32 : below 6 Float.lit_32) by (split; [reflexivity | simpl; lia]).
  pose proof (add_below 6 14 _ _ H32 Hf ltac:(lia)) as Ha.
  pose proof (sub_below _ 14 _ _ Ha (abs_below _ _ Hoct) ltac:(lia)) as Hs.
  eapply below_mono; [exact Hs | lia].
Qed.

Lemma layers_tops_defined (total_height : Scalar) :
  below 18 total_height -> exists tops, band_tops (layers total_height) 0 = Some tops.
Proof.
  intros Hth.
  destruct (band_tops_defined (layers total_height) 0 (layers_below total_height Hth)
              short_int_0 ltac:(lia) ltac:(simpl; lia) ltac:(simpl; lia))
    as (tops & Htops & _).
  eauto.
Qed.

Lemma generate_block_column_returns (features : RegionFeatures)
    (region_position column_position : Vector2i) (x z : Z) (state : ChunkV * ChunkHeightmap) :
  heights_bounded features -> column_in_region region_position column_position ->
  0 <= x < SIZE_X -> 0 <= z < SIZE_Z ->
  heights_reached state.1 state.2 ->
  holds no_fault (fun state' => heights_reached state'.1 state'.2)
    (generate_block_column features region_position column_position x z state).
Proof.
  intros Hb (Hc1 & Hc2 & Hc3 & Hc4) Hx Hz Hh.
  pose proof (generate_block_column_in_vector SIZE_Y_pos features region_position
                column_position x z state Hh) as Hv.
  assert (Hok : holds no_fault (fun _ => True)
                  (generate_block_column features region_position column_position x z state)).
  { unfold generate_block_column.
    destruct (total_height_returns features
                (Vector2i_add (Vector2i_sub column_position region_position) (x, z)) Hb)
      as (total_height & Hth & Hbelow).
    { unfold Vector2i_add, Vector2i_sub. cbn [fst snd]. lia. }
    { unfold Vector2i_add, Vector2i_sub. cbn [fst snd]. lia. }
    rewrite Hth. cbv beta iota delta [mbind result_bind].
    destruct (layers_tops_defined total_height Hbelow) as [tops Htops].
    eapply holds_bind.
    - eapply layer_bands_returns; [exact Htops | lia | unfold reached; lia | exact Hx | exact Hz].
    - intros [bottom chunks] _. simpl. trivial. }
  destruct (generate_block_column _ _ _ _ _ _); [exact Hv | exact Hok].
Qed.

Lemma generate_chunk_column_returns (features : RegionFeatures)
    (region_position column_position : Vector2i) :
  heights_bounded features -> column_in_region region_position column_position ->
  holds no_fault (fun state => heights_reached state.1 state.2)
    (generate_chunk_column [] features region_position column_position ∅).
Proof.
  intros Hb Hc. unfold generate_chunk_column.
  apply (holds_for_each no_fault (fun state => heights_reached state.1 state.2)).
  - intros x state Hx%elem_of_range Hs.
    apply (holds_for_each no_fault (fun state => heights_reached state.1 state.2)); [|exact Hs].
    intros z state' Hz%elem_of_range Hs'.
    apply generate_block_column_returns; [exact Hb | exact Hc | lia | lia | exact Hs'].
  - intros k b Hk. simpl in Hk. now rewrite lookup_empty in Hk.
Qed.

Hypothesis draws_in_range : uniform_int_in_range.
Hypothesis SIZE_X_tree : MAX_TREE_RADIUS <= SIZE_X - MAX_TREE_RADIUS - 1.
Hypothesis SIZE_Z_tree : MAX_TREE_RADIUS <= SIZE_Z - MAX_TREE_RADIUS - 1.

Lemma place_leaf_returns (column_position : Vector2i) (x z bottom y u v : Z) (chunks : ChunkV) :
  reached chunks (to_unsigned (bottom + y) + 1) ->
  0 <= x + u < SIZE_X -> 0 <= z + v < SIZE_Z ->
  holds no_fault
    (fun chunks' => reached chunks' (to_unsigned (bottom + y) + 1) /\
                    (length chunks <= length chunks')%nat)
    (place_leaf column_position x z bottom y u v chunks).
Proof.
  intros Hr Hx Hz. unfold place_leaf. case_decide; [|simpl; auto].
  eapply holds_bind.
  - apply get_block_returns; [unfold reached in *; lia | exact Hx | exact Hz].
  - intros [leaf_block chunks'] [Hr' Hlen]. simpl in Hr', Hlen.
    case_decide; simpl; unfold reached in *; rewrite ?length_set_material; auto.
Qed.

Lemma grow_level_returns (column_position : Vector2i) (x z bottom height radius y : Z)
    (chunks : ChunkV) :
  reached chunks (to_unsigned (bottom + y)) ->
  MAX_TREE_RADIUS <= x <= SIZE_X - MAX_TREE_RADIUS - 1 ->
  MAX_TREE_RADIUS <= z <= SIZE_Z - MAX_TREE_RADIUS - 1 ->
  radius <= MAX_TREE_RADIUS ->
  holds no_fault
    (fun chunks' => reached chunks' (to_unsigned (bottom + (y + 1))) /\
                    (length chunks <= length chunks')%nat)
    (grow_level column_position x z bottom height radius y chunks).
Proof.
  unfold MAX_TREE_RADIUS. intros Hr Hx Hz Hradius. unfold grow_level.
  pose proof (to_unsigned_succ (bottom + y)) as Hsucc.
  replace (bottom + y + 1) with (bottom + (y + 1)) in Hsucc by lia.
  eapply holds_bind.
  - apply get_block_returns; [exact Hr | lia | lia].
  - intros [trunk_block chunks'] [Hr' Hlen]. simpl in Hr', Hlen.
    set (I := fun chunks'' : ChunkV =>
                reached chunks'' (to_unsigned (bottom + y) + 1) /\
                (length chunks <= length chunks'')%nat).
    assert (HI : I (set_material trunk_block BLOCK_MATERIAL_TREE_TRUNK chunks')).
    { unfold I, reached in *. rewrite length_set_material. auto. }
    assert (Hout : forall chunks'', I chunks'' ->
              reached chunks'' (to_unsigned (bottom + (y + 1))) /\
              (length chunks <= length chunks'')%nat).
    { unfold I, reached. intros chunks'' [H1 H2]. split; [lia | exact H2]. }
    destruct (Z.leb_spec 0 (y - (height - radius - 1))) as [Hleaf|_];
      [|simpl; now apply Hout].
    eapply holds_weaken; [|exact Hout].
    apply (holds_for_each no_fault I); [|exact HI].
    intros u chunks1 Hu%elem_of_range H1.
    apply (holds_for_each no_fault I); [|exact H1].
    intros v chunks2 Hv%elem_of_range [H2 Hlen2].
    eapply holds_weaken; [apply place_leaf_returns; [exact H2 | lia | lia]|].
    intros chunks3 [H3 Hlen3]. split; [exact H3 | lia].
Qed.

Lemma plant_tree_returns (column_position : Vector2i) (heights : ChunkHeightmap)
    (state : rand48 * ChunkV) :
  heights_reached state.2 heights ->
  (forall x z, 0 <= x < SIZE_X -> 0 <= z < SIZE_Z -> is_Some (heights !! (x, z))) ->
  holds no_fault (fun state' => (length state.2 <= length state'.2)%nat)
    (plant_tree column_position heights state).
Proof.
  intros Hh Hkeys. unfold plant_tree.
  pose proof (draws_in_range _ _ state.1 SIZE_X_tree) as Hx.
  destruct (uniform_int _ _ state.1) as [x g1]. simpl in Hx.
  pose proof (draws_in_range _ _ g1 SIZE_Z_tree) as Hz.
  destruct (uniform_int _ _ g1) as [z g2]. simpl in Hz.
  destruct (uniform_int _ _ g2) as [height g3].
  pose proof (draws_in_range MIN_TREE_RADIUS MAX_TREE_RADIUS g3
                ltac:(unfold MIN_TREE_RADIUS, MAX_TREE_RADIUS; lia)) as Hradius.
  destruct (uniform_int _ _ g3) as [radius g4]. simpl in Hradius.
  unfold MAX_TREE_RADIUS in Hx, Hz.
  destruct (Hkeys x z ltac:(lia) ltac:(lia)) as [bottom Hbottom]. rewrite Hbottom.
  apply Hh in Hbottom.
  eapply holds_bind.
  - apply get_block_returns; [exact Hbottom | lia | lia].
  - intros [bottom_block chunks] [Hr Hlen]. simpl in Hr, Hlen.
    case_decide; [|simpl; exact Hlen].
    eapply holds_bind.
    + apply (holds_for_each_range no_fault
               (fun y chunks' => reached chunks' (to_unsigned (bottom + y)) /\
                                 (length chunks <= length chunks')%nat)).
      * intros y chunks1 _ [H1 Hlen1].
        eapply holds_weaken;
          [apply grow_level_returns;
             [exact H1 | unfold MAX_TREE_RADIUS; lia | unfold MAX_TREE_RADIUS; lia | lia]|].
        intros chunks2 [H2 Hlen2]. split; [exact H2 | lia].
      * pose proof (to_unsigned_succ bottom). unfold reached in *. split; lia.
    + intros chunks' [_ Hlen']. simpl. lia.
Qed.

Lemma populate_trees_returns (world_seed : Z) (chunks : ChunkV) (column_position : Vector2i)
    (heights : ChunkHeightmap) :
  heights_reached chunks heights ->
  (forall x z, 0 <= x < SIZE_X -> 0 <= z < SIZE_Z -> is_Some (heights !! (x, z))) ->
  holds no_fault (fun _ => True) (populate_trees world_seed chunks column_position heights).
Proof.
  intros Hh Hkeys. unfold populate_trees.
  destruct (Z.leb_spec MAX_TREE_RADIUS (SIZE_X - MAX_TREE_RADIUS - 1)); [|lia].
  destruct (Z.leb_spec MAX_TREE_RADIUS (SIZE_Z - MAX_TREE_RADIUS - 1)); [|lia].
  cbn [andb].
  eapply holds_bind with (Ψ := fun _ => True); [|simpl; trivial].
  eapply holds_weaken with (Ψ := fun state => heights_reached state.2 heights); [|trivial].
  apply (holds_for_each no_fault (fun state => heights_reached state.2 heights)); [|exact Hh].
  intros i state _ Hs.
  eapply holds_weaken; [apply plant_tree_returns; [exact Hs | exact Hkeys]|].
  intros state' Hlen. eapply (heights_reached_mono SIZE_Y_pos); [exact Hlen | exact Hs].
Qed.

Lemma generate_column_returns (world_seed : Z) (region_features : RegionFeatures)
    (position : Vector2i) (x z : Z) (chunks : ChunkV) :
  heights_bounded region_features ->
  column_in_region position (Vector2i_add position (x * SIZE_X, z * SIZE_Z)) ->
  holds no_fault (fun _ => True)
    (generate_column world_seed region_features position x z chunks).
Proof.
  intros Hb Hc. unfold generate_column.
  eapply holds_bind.
  - eapply holds_returns.
    + apply generate_chunk_column_returns; [exact Hb | exact Hc].
    + apply (generate_chunk_column_surface SIZE_Y_pos SIZE_X_int SIZE_Z_int).
  - intros [column_chunks heights] [Hh Hs]. simpl in Hh, Hs.
    eapply holds_bind.
    + apply populate_trees_returns; [exact Hh|].
      intros x' z' Hx' Hz'. destruct (Hs x' z' Hx' Hz') as (top & Hkey & _). eauto.
    + intros column_chunks' _. simpl. trivial.
Qed.

End Returns.

(** X5.  [generate_region] returns.  With a chunk height above 0, chunk
    edges that leave room for a tree (11 blocks or more), an octave edge
    of at least half the region size, a [uniform_int] that draws inside
    its range and patches that give heights below 2^14 in magnitude where
    the region samples them, the generation of a region runs into none of
    the undefined operations - an index past the chunk vector or outside
    a chunk's buffer, a float without [unsigned] value, an octave patch
    outside the 2 x 2 array, a height read before it is written, an empty
    distribution - and returns its chunks. *)
Theorem generate_region_returns
    {constants : Constants} {noise : Noise} {random : Random}
    (this : WorldGenerator) (position : Vector2i) :
  0 < SIZE_Y ->
  2 * MAX_TREE_RADIUS + 1 <= SIZE_X <= 2 ^ 31 ->
  2 * MAX_TREE_RADIUS + 1 <= SIZE_Z <= 2 ^ 31 ->
  0 < BICUBIC_OCTAVE_EDGE -> REGION_SIZE <= 2 * BICUBIC_OCTAVE_EDGE ->
  uniform_int_in_range ->
  heights_bounded
    (RegionFeatures_new (world_seed_ this) position fundamental_features octave_features) ->
  exists chunks, (generate_region this position).1 = Ok chunks.
Proof.
  intros HY HX HZ HE HR Hdraw Hb.
  assert (Hh : holds no_fault (fun _ : ChunkV => True) (generate_region this position).1).
  { unfold generate_region. cbn [fst].
    apply (holds_for_each no_fault (fun _ => True)); [|trivial].
    intros x chunks Hx%elem_of_range _.
    apply (holds_for_each no_fault (fun _ => True)); [|trivial].
    intros z chunks' Hz%elem_of_range _.
    unfold MAX_TREE_RADIUS in HX, HZ.
    apply generate_column_returns; try assumption; try lia;
      try (unfold MAX_TREE_RADIUS; lia).
    unfold CHUNKS_PER_REGION_EDGE in Hx, Hz. cbn [fst snd] in Hx, Hz.
    assert (HRx : 0 <= REGION_SIZE).
    { destruct (Z.le_gt_cases 0 REGION_SIZE) as [H|H]; [exact H|].
      assert (Hne : SIZE_X <> 0) by lia.
      assert (Hneg : 0 <= - REGION_SIZE) by lia.
      assert (HSX : 0 < SIZE_X) by lia.
      pose proof (Z.quot_opp_l REGION_SIZE SIZE_X Hne) as Hq.
      pose proof (Z.quot_pos (- REGION_SIZE) SIZE_X Hneg HSX). lia. }
    rewrite Z.quot_div_nonneg in Hx, Hz by lia.
    assert (HSX : 0 < SIZE_X) by lia. assert (HSZ : 0 < SIZE_Z) by lia.
    pose proof (Z.mul_div_le REGION_SIZE SIZE_X HSX) as Hmx.
    pose proof (Z.mul_div_le REGION_SIZE SIZE_Z HSZ) as Hmz.
    destruct position as [px pz].
    unfold column_in_region, Vector2i_add. cbn [fst snd]. nia. }
  destruct (holds_no_fault_Ok _ _ Hh) as (chunks & Hrun & _). eauto.
Qed.

Lemma flat_heights_bounded (features : @RegionFeatures Flat.noise) :
  @heights_bounded Sample.constants Flat.noise features.
Proof.
  intros relative_position _ _. split; [|intros octave_patch _]; split; reflexivity.
Qed.

(** ** The loop over the layers *)

(** The tops of the six bands grow: the magma band ends at 1 and each of
    the others at least one block above the band before it. *)
Lemma layers_tops_grow (total_height : Scalar) :
  below 18 total_height ->
  exists t1 t2 t3 t4 t5,
    band_tops (layers total_height) 0 = Some [1; t1; t2; t3; t4; t5] /\
    1 < t1 /\ t1 < t2 /\ t2 < t3 /\ t3 < t4 /\ t4 < t5 /\ t5 < 2 ^ 32.
Proof.
  intros Hth.
  destruct (band_tops_defined (layers total_height) 0 (layers_below total_height Hth)
              short_int_0 ltac:(lia) ltac:(simpl; lia) ltac:(simpl; lia))
    as (tops & Htops & Hlen & Hgrow).
  destruct (layers_tops total_height tops Htops)
    as (t1 & t2 & t3 & t4 & t5 & -> & _ & _ & H5 & _).
  exists t1, t2, t3, t4, t5. split; [exact Htops|].
  simpl in Hgrow. lia.
Qed.

(** C3.  For every total height of a column - every number of binary32
    below 2^18 in magnitude, the extreme -1000 and +1000 included - the
    loop over the six layers of a block column returns; the tops it
    computes band after band (magma, bedrock, stone, clay, dirt, grass,
    each the rounded maximum of its formula and of the previous top plus
    one) rise strictly from 1 on, so no band is inverted and none has zero
    thickness; the loop returns the top of the grass band, and it leaves
    the magma band in the block at height 0, each of the other bands in
    the blocks from the top of the band before it up to below its own top
    - at least one block - and the grass band up to its top, that block
    included. *)
Theorem layer_bands_tops_ascend {constants : Constants} {noise : Noise} {random : Random}
    (features : RegionFeatures) (column_position relative_position : Vector2i)
    (x z : Z) (total_height : Scalar) (chunks : ChunkV) :
  below 18 total_height ->
  0 < SIZE_Y -> SIZE_X <= 2 ^ 31 -> SIZE_Z <= 2 ^ 31 ->
  0 <= x < SIZE_X -> 0 <= z < SIZE_Z ->
  exists t1 t2 t3 t4 t5 chunks',
    layer_bands features column_position relative_position x z
      (layers total_height) 0 chunks = Ok (t5, chunks') /\
    band_tops (layers total_height) 0 = Some [1; t1; t2; t3; t4; t5] /\
    1 < t1 /\ t1 < t2 /\ t2 < t3 /\ t3 < t4 /\ t4 < t5 /\ t5 < 2 ^ 32 /\
    forall y, 0 <= y < 2 ^ 32 ->
      material_at chunks' x y z =
      if y <=? t5 then column_material features relative_position t1 t2 t3 t4 t5 y
      else material_at chunks x y z.
Proof.
  intros Hth HY HX HZ Hx Hz.
  destruct (layers_tops_grow total_height Hth)
    as (t1 & t2 & t3 & t4 & t5 & Htops & H1 & H2 & H3 & H4 & H5 & H6).
  assert (H0 : 0 <= 0 < 2 ^ 32) by lia.
  assert (Hreached : reached chunks 0) by (unfold reached; lia).
  destruct (holds_no_fault_Ok _ _
              (layer_bands_returns HY HX HZ features column_position relative_position
                 x z (layers total_height) 0 _ chunks Htops H0 Hreached Hx Hz))
    as ([top chunks'] & Hrun & _).
  destruct (layer_bands_layout HY _ _ _ _ _ _ _ _ _ _ H0 Hrun)
    as (tops & Htops' & Hlast & Hcells).
  rewrite Htops in Htops'. injection Htops' as <-. simpl in Hlast. subst top.
  exists t1, t2, t3, t4, t5, chunks'.
  split; [exact Hrun|]. split; [exact Htops|].
  repeat (split; [assumption|]).
  intros y Hy. unfold material_at. rewrite (Hcells y Hy).
  unfold layers. cbn [fmap list_fmap fst zip zip_with].
  rewrite band_at_layers by lia. unfold column_material.
  destruct (Z.eqb_spec y 0) as [->|Hne].
  { destruct (Z.leb_spec 0 t5); [reflexivity | lia]. }
  destruct (Z.ltb_spec y t1); [destruct (Z.leb_spec y t5); [reflexivity | lia]|].
  destruct (Z.ltb_spec y t2); [destruct (Z.leb_spec y t5); [reflexivity | lia]|].
  destruct (Z.ltb_spec y t3); [destruct (Z.leb_spec y t5); [reflexivity | lia]|].
  destruct (Z.ltb_spec y t4); [destruct (Z.leb_spec y t5); [reflexivity | lia]|].
  destruct (Z.leb_spec y t5); reflexivity.
Qed.


(** ** Scalars: quotients *)

(** Rounding a mantissa that has digits enough does not pass the next
    power of two. *)
Lemma binary_round_aux_at_most (s : bool) (mx ex : Z) (lx : location) :
  0 < mx ->
  ex <= fexp Float.prec Float.emax (Zdigits2 mx + ex) ->
  Zdigits2 mx + ex + 1 <= 128 ->
  match binary_round_aux Float.prec Float.emax s mx ex lx with
  | S754_zero s' => s' = s
  | S754_finite s' q e =>
      s' = s /\ e <= Z.max (Zdigits2 mx + ex) (-149) /\
      Z.pos q <= 2 ^ (Z.max (Zdigits2 mx + ex) (-149) - e)
  | _ => False
  end.
Proof.
  intros Hmx HP Hsize.
  pose proof (Zdigits2_bounds mx Hmx) as HD.
  pose proof (Zdigits2_pos mx Hmx) as HDpos.
  set (D := Zdigits2 mx) in *.
  rewrite fexp32 in HP.
  unfold binary_round_aux, shr_fexp. fold D. rewrite fexp32.
  set (E := Z.max (D + ex - 24) (-149)) in *.
  pose proof (shr_spec (shr_record_of_loc mx lx) ex (E - ex)
                ltac:(rewrite shr_record_of_loc_m; lia)) as [Hm1 He1].
  destruct (shr (shr_record_of_loc mx lx) ex (E - ex)) as [mrs' e'].
  cbn [fst snd] in Hm1, He1. rewrite shr_record_of_loc_m in Hm1.
  replace (Z.max (E - ex) 0) with (E - ex) in Hm1, He1 by lia.
  replace (ex + (E - ex)) with E in He1 by lia. subst e'.
  pose proof (round_nearest_even_range (shr_m mrs') (loc_of_shr_record mrs')) as Hr.
  set (m2 := round_nearest_even (shr_m mrs') (loc_of_shr_record mrs')) in *.
  assert (Hpow : 0 < 2 ^ (E - ex)) by (apply Z.pow_pos_nonneg; lia).
  destruct (Z.le_gt_cases (-149) (D + ex - 24)) as [Hnormal|Hsub].
  - (* a normal number *)
    assert (HE : E = D + ex - 24) by lia.
    assert (Hm1r : 2 ^ 23 <= shr_m mrs' < 2 ^ 24).
    { rewrite Hm1. replace (E - ex) with (D - 24) in * by lia.
      assert (E1 : 2 ^ (D - 24) * 2 ^ 23 = 2 ^ (D - 1)).
      { rewrite <- Z.pow_add_r by lia. f_equal. lia. }
      assert (E2 : 2 ^ (D - 24) * 2 ^ 24 = 2 ^ D).
      { rewrite <- Z.pow_add_r by lia. f_equal. lia. }
      split; [apply Z.div_le_lower_bound; lia | apply Z.div_lt_upper_bound; lia]. }
    replace (Z.max (D + ex) (-149)) with (D + ex) by lia.
    destruct (Z.eq_dec m2 (2 ^ 24)) as [Heq|Hne].
    + assert (Hd2 : Zdigits2 m2 = 25) by (apply Zdigits2_unique; [lia | rewrite Heq; simpl; lia]).
      rewrite Hd2, fexp32.
      replace (Z.max (25 + E - 24) (-149) - E) with 1 by lia.
      pose proof (shr_spec (shr_record_of_loc m2 loc_Exact) E 1 ltac:(simpl; lia)) as [Hm3 He3].
      destruct (shr (shr_record_of_loc m2 loc_Exact) E 1) as [mrs'' e''].
      change (Z.max 1 0) with 1 in Hm3, He3. cbn [fst snd] in Hm3, He3. subst e''.
      cbn [shr_record_of_loc shr_m] in Hm3.
      rewrite Hm3, Heq. change (2 ^ 24 / 2 ^ 1) with (Z.pos 8388608). cbv beta iota.
      destruct (Z.leb_spec (E + 1) (Float.emax - Float.prec)) as [_|Hbad];
        [|unfold Float.emax, Float.prec in Hbad; lia].
      split; [reflexivity|]. split; [lia|].
      replace (D + ex - (E + 1)) with 23 by lia. simpl. lia.
    + assert (Hd2 : Zdigits2 m2 = 24) by (apply Zdigits2_unique; lia).
      rewrite Hd2, fexp32.
      replace (Z.max (24 + E - 24) (-149) - E) with 0 by lia.
      cbn [shr shr_record_of_loc shr_m].
      destruct m2 as [|q|q] eqn:Hq; try lia.
      destruct (Z.leb_spec E (Float.emax - Float.prec)) as [_|Hbad];
        [|unfold Float.emax, Float.prec in Hbad; lia].
      split; [reflexivity|]. split; [lia|].
      replace (D + ex - E) with 24 by lia. lia.
  - (* at the bottom of the range *)
    assert (HE : E = -149) by lia.
    set (k := Z.max (D + ex + 149) 0).
    assert (Hm1r : 0 <= shr_m mrs' < 2 ^ k).
    { rewrite Hm1. split; [apply Z.div_pos; lia|].
      apply Z.div_lt_upper_bound; [lia|].
      rewrite <- Z.pow_add_r by lia.
      eapply Z.lt_le_trans; [apply HD|]. apply Z.pow_le_mono_r; lia. }
    destruct (Z.eq_dec m2 0) as [Hz|Hnz].
    + rewrite Hz. simpl Zdigits2. rewrite fexp32.
      replace (Z.max (0 + E - 24) (-149) - E) with 0 by lia.
      cbn [shr shr_record_of_loc shr_m]. reflexivity.
    + assert (Hm2 : 0 < m2 < 2 ^ (k + 1)).
      { rewrite Z.pow_add_r by lia. change (2 ^ 1) with 2. lia. }
      pose proof (Zdigits2_lt_pow m2 (k + 1) Hm2) as Hd2.
      pose proof (Zdigits2_pos m2 ltac:(lia)) as Hd2pos.
      rewrite fexp32.
      replace (Z.max (Zdigits2 m2 + E - 24) (-149) - E) with 0 by lia.
      cbn [shr shr_record_of_loc shr_m].
      destruct m2 as [|q|q] eqn:Hq; try lia.
      destruct (Z.leb_spec E (Float.emax - Float.prec)) as [_|Hbad];
        [|unfold Float.emax, Float.prec in Hbad; lia].
      split; [reflexivity|]. split; [lia|].
      replace (Z.max (D + ex) (-149) - E) with k by lia. lia.
Qed.

(** A positive number that is at most 1 lies in the unit interval. *)
Lemma in_unit_interval_finite (q : positive) (e : Z) :
  e <= 0 -> Z.pos q <= 2 ^ (- e) -> in_unit_interval (S754_finite false q e) = true.
Proof.
  intros He Hq. unfold in_unit_interval.
  assert (H0 : Float.ltb (S754_finite false q e) (S754_zero false) = false).
  { apply not_true_is_false. rewrite ltb_Qlt by reflexivity.
    unfold Float.to_Q. cbn [Float.expo Float.signif].
    destruct (0 <=? e); unfold Qlt; simpl; lia. }
  assert (H1 : Float.ltb Float.lit_1 (S754_finite false q e) = false).
  { apply not_true_is_false. rewrite ltb_Qlt by reflexivity.
    change (Float.to_Q Float.lit_1) with (8388608 # 8388608)%Q.
    unfold Float.to_Q. cbn [Float.expo Float.signif].
    destruct (Z.leb_spec 0 e) as [Hpos|Hneg].
    - assert (e = 0) by lia. subst e. change (2 ^ (- 0)) with 1 in Hq.
      unfold Qlt. simpl. lia.
    - unfold Qlt. cbn [Qnum Qden]. rewrite Zpos_pow2 by lia. lia. }
  rewrite H0, H1. reflexivity.
Qed.

(** The quotient of two integers a float holds, the first one below the
    second, lies in the unit interval. *)
Lemma div_in_unit_interval (n d : Z) :
  0 <= n < d -> d < 2 ^ 24 ->
  in_unit_interval (Float.div (Float.of_int n) (Float.of_int d)) = true.
Proof.
  intros Hn Hd.
  destruct d as [|pd|pd]; try lia.
  destruct (of_int_exact pd Hd) as (m2 & e2 & Hof2 & He2 & Hm2).
  rewrite Hof2.
  destruct n as [|pn|pn]; try lia; [reflexivity|].
  destruct (of_int_exact pn ltac:(lia)) as (m1 & e1 & Hof1 & He1 & Hm1).
  rewrite Hof1. unfold Float.div, SFdiv, SFdiv_core_binary.
  pose proof (Zdigits2_bounds (Z.pos m1) ltac:(lia)) as Hd1.
  pose proof (Zdigits2_bounds (Z.pos m2) ltac:(lia)) as Hd2.
  pose proof (Zdigits2_pos (Z.pos m1) ltac:(lia)) as Hd1pos.
  pose proof (Zdigits2_pos (Z.pos m2) ltac:(lia)) as Hd2pos.
  set (d1 := Zdigits2 (Z.pos m1)) in *. set (d2 := Zdigits2 (Z.pos m2)) in *.
  (* the digits of the mantissas *)
  assert (Hd1up : d1 <= 47).
  { destruct (Z.le_gt_cases d1 47) as [|Hgt]; [assumption|].
    assert (2 ^ 47 <= 2 ^ (d1 - 1)) by (apply Z.pow_le_mono_r; lia).
    assert (2 ^ (- e1) <= 2 ^ 23) by (apply Z.pow_le_mono_r; lia).
    assert (0 < 2 ^ (- e1)) by (apply Z.pow_pos_nonneg; lia).
    change (2 ^ 47) with (2 ^ 24 * 2 ^ 23) in *. nia. }
  assert (Hd2up : d2 <= 47).
  { destruct (Z.le_gt_cases d2 47) as [|Hgt]; [assumption|].
    assert (2 ^ 47 <= 2 ^ (d2 - 1)) by (apply Z.pow_le_mono_r; lia).
    assert (2 ^ (- e2) <= 2 ^ 23) by (apply Z.pow_le_mono_r; lia).
    assert (0 < 2 ^ (- e2)) by (apply Z.pow_pos_nonneg; lia).
    change (2 ^ 47) with (2 ^ 24 * 2 ^ 23) in *. nia. }
  assert (Hc : d1 + e1 - (d2 + e2) <= 0).
  { destruct (Z.le_gt_cases (d1 + e1 - (d2 + e2)) 0) as [|Hgt]; [assumption|].
    assert (E1 : 2 ^ (d1 - 1 - e2) = 2 ^ (d1 - 1) * 2 ^ (- e2)).
    { rewrite <- Z.pow_add_r by lia. f_equal; lia. }
    assert (E2 : 2 ^ (d2 - e1) = 2 ^ d2 * 2 ^ (- e1)).
    { rewrite <- Z.pow_add_r by lia. f_equal; lia. }
    assert (H2 : 2 ^ (d2 - e1) <= 2 ^ (d1 - 1 - e2)) by (apply Z.pow_le_mono_r; lia).
    assert (0 < 2 ^ (- e1)) by (apply Z.pow_pos_nonneg; lia).
    assert (0 < 2 ^ (- e2)) by (apply Z.pow_pos_nonneg; lia).
    assert (Z.pos m1 * 2 ^ (- e2) < Z.pos m2 * 2 ^ (- e1)) by (rewrite Hm1, Hm2; nia).
    nia. }
  rewrite fexp32.
  set (c := d1 + e1 - (d2 + e2)) in *.
  replace (Z.max (c - 24) (-149)) with (c - 24) by lia.
  set (e' := Z.min (c - 24) (e1 - e2)).
  set (s := e1 - e2 - e').
  assert (Hs : 0 <= s /\ d2 - d1 + 24 <= s) by (unfold s, e', c; lia).
  assert (Hm' : match s with
                | 0 => Z.pos m1
                | Z.pos _ => Z.shiftl (Z.pos m1) s
                | Z.neg _ => 0
                end = Z.pos m1 * 2 ^ s).
  { destruct s as [|ps|ps] eqn:Hseq; [simpl; lia | | lia].
    now rewrite Z.shiftl_mul_pow2 by lia. }
  rewrite Hm'. clear Hm'.
  set (m' := Z.pos m1 * 2 ^ s).
  assert (Hdiv : Z.div_eucl m' (Z.pos m2) = (m' / Z.pos m2, m' mod Z.pos m2)).
  { unfold Z.div, Z.modulo. now destruct (Z.div_eucl m' (Z.pos m2)). }
  rewrite Hdiv. set (q := m' / Z.pos m2).
  assert (Hps : 0 < 2 ^ s) by (apply Z.pow_pos_nonneg; lia).
  (* the quotient has digits enough *)
  assert (Hqlow : 2 ^ (d1 - d2 + s - 1) <= q).
  { unfold q. apply Z.div_le_lower_bound; [lia|].
    assert (E1 : 2 ^ d2 * 2 ^ (d1 - d2 + s - 1) = 2 ^ (d1 - 1) * 2 ^ s).
    { rewrite <- !Z.pow_add_r by lia. f_equal. lia. }
    assert (0 < 2 ^ (d1 - d2 + s - 1)) by (apply Z.pow_pos_nonneg; lia).
    unfold m'. nia. }
  assert (Hqpos : 0 < q).
  { eapply Z.lt_le_trans; [|exact Hqlow]. apply Z.pow_pos_nonneg; lia. }
  pose proof (Zdigits2_bounds q Hqpos) as Hdq.
  assert (Hdqlow : d1 - d2 + s <= Zdigits2 q).
  { destruct (Z.le_gt_cases (d1 - d2 + s) (Zdigits2 q)) as [|Hgt]; [assumption|].
    assert (2 ^ Zdigits2 q <= 2 ^ (d1 - d2 + s - 1)).
    { apply Z.pow_le_mono_r; [lia|]. lia. }
    lia. }
  (* and it is below 2^(- e') *)
  assert (He'neg : 0 <= - e' /\ - e' = s + (- e1) - (- e2)) by (unfold s; lia).
  assert (Hqup : q < 2 ^ (- e')).
  { unfold q. apply Z.div_lt_upper_bound; [lia|]. unfold m'.
    rewrite Hm1, Hm2.
    assert (E1 : 2 ^ (- e2) * 2 ^ (- e') = 2 ^ (- e1) * 2 ^ s).
    { rewrite <- !Z.pow_add_r by lia. f_equal. lia. }
    assert (0 < 2 ^ (- e1) * 2 ^ s).
    { apply Z.mul_pos_pos; [apply Z.pow_pos_nonneg; lia | lia]. }
    nia. }
  pose proof (Zdigits2_lt_pow q (- e') ltac:(lia)) as Hdqup.
  pose proof (binary_round_aux_at_most false q e'
                (new_location (Z.pos m2) (m' mod Z.pos m2)) Hqpos
                ltac:(rewrite fexp32; unfold e', c in *; lia) ltac:(lia)) as Hround.
  cbn [xorb].
  destruct (binary_round_aux Float.prec Float.emax false q e' _) as [sz|sz| |sz qz ez];
    try contradiction.
  - subst sz. reflexivity.
  - destruct Hround as (-> & Hez & Hqz).
    apply in_unit_interval_finite; [lia|].
    eapply Z.le_trans; [exact Hqz|]. apply Z.pow_le_mono_r; lia.
Qed.

(** ** Sampling positions *)

(** A number divided by itself is 1. *)
Lemma div_self (d : Z) :
  0 < d < 2 ^ 24 -> Float.div (Float.of_int d) (Float.of_int d) = Float.lit_1.
Proof.
  intros Hd. destruct d as [|p|p]; try lia.
  destruct (of_int_exact p ltac:(lia)) as (m & e & Hof & He & Hm).
  rewrite Hof. unfold Float.div, SFdiv, SFdiv_core_binary.
  replace (Zdigits2 (Z.pos m) + e - (Zdigits2 (Z.pos m) + e)) with 0 by lia.
  rewrite fexp32. replace (e - e) with 0 by lia.
  change (Z.min (Z.max (0 - 24) (-149)) 0) with (-24).
  change (0 - -24) with 24.
  cbv beta iota. rewrite Z.shiftl_mul_pow2 by lia.
  assert (Hdiv : Z.div_eucl (Z.pos m * 2 ^ 24) (Z.pos m) = (2 ^ 24, 0)).
  { pose proof (Z.div_eucl_eq (Z.pos m * 2 ^ 24) (Z.pos m) ltac:(lia)) as Heq.
    pose proof (Z.mod_pos_bound (Z.pos m * 2 ^ 24) (Z.pos m) ltac:(lia)) as Hmod.
    unfold Z.modulo in Hmod.
    destruct (Z.div_eucl (Z.pos m * 2 ^ 24) (Z.pos m)) as [q r].
    assert (q = 2 ^ 24) by nia. subst q. f_equal. lia. }
  rewrite Hdiv. cbn [xorb].
  assert (Hloc : new_location (Z.pos m) 0 = loc_Exact).
  { unfold new_location, new_location_even, new_location_odd.
    destruct (Z.even (Z.pos m)); reflexivity. }
  rewrite Hloc. reflexivity.
Qed.

Lemma div_in_unit_interval_le (n d : Z) :
  0 <= n <= d -> 0 < d < 2 ^ 24 ->
  in_unit_interval (Float.div (Float.of_int n) (Float.of_int d)) = true.
Proof.
  intros Hn Hd. destruct (Z.eq_dec n d) as [->|Hne].
  - now rewrite div_self.
  - apply div_in_unit_interval; lia.
Qed.

Section Positions.
Context {constants : Constants}.
Hypothesis REGION_SIZE_short : 0 < REGION_SIZE < 2 ^ 24.
Hypothesis EDGE_short : 0 < BICUBIC_OCTAVE_EDGE < 2 ^ 24.
Hypothesis HEIGHT_short : 0 < TRILINEAR_BOX_HEIGHT < 2 ^ 24.

Lemma fundamental_position_in_domain (relative_position : Vector2i) :
  0 <= relative_position.1 < REGION_SIZE -> 0 <= relative_position.2 < REGION_SIZE ->
  in_unit_square (fundamental_position relative_position) = true.
Proof.
  intros H1 H2. unfold in_unit_square, fundamental_position. cbn [fst snd].
  rewrite (div_in_unit_interval relative_position.1 REGION_SIZE) by lia.
  rewrite (div_in_unit_interval relative_position.2 REGION_SIZE) by lia. reflexivity.
Qed.

Lemma octave_position_in_domain (relative_position : Vector2i) :
  0 <= relative_position.1 -> 0 <= relative_position.2 ->
  in_unit_square (octave_position relative_position) = true.
Proof.
  intros H1 H2. unfold in_unit_square, octave_position. cbn [fst snd].
  assert (HE : 0 < BICUBIC_OCTAVE_EDGE) by lia.
  pose proof (Z.rem_bound_pos relative_position.1 BICUBIC_OCTAVE_EDGE H1 HE).
  pose proof (Z.rem_bound_pos relative_position.2 BICUBIC_OCTAVE_EDGE H2 HE).
  rewrite (div_in_unit_interval (Z.rem relative_position.1 BICUBIC_OCTAVE_EDGE)
             BICUBIC_OCTAVE_EDGE) by lia.
  rewrite (div_in_unit_interval (Z.rem relative_position.2 BICUBIC_OCTAVE_EDGE)
             BICUBIC_OCTAVE_EDGE) by lia.
  reflexivity.
Qed.

Lemma box_position_in_domain (relative_position : Vector2i) (y : Z) :
  0 <= relative_position.1 < REGION_SIZE -> 0 <= relative_position.2 < REGION_SIZE ->
  0 <= y <= TRILINEAR_BOX_HEIGHT ->
  in_unit_cube (box_position relative_position y) = true.
Proof.
  intros H1 H2 Hy. unfold in_unit_cube, box_position, TRILINEAR_BOX_SIZE. cbn [fst snd].
  rewrite (div_in_unit_interval relative_position.1 REGION_SIZE) by lia.
  rewrite (div_in_unit_interval relative_position.2 REGION_SIZE) by lia.
  rewrite (div_in_unit_interval_le y TRILINEAR_BOX_HEIGHT) by lia. reflexivity.
Qed.

End Positions.

Section SamplingProofs.
Context {constants : Constants} (noise : Noise) {random : Random}.
Variable patch_at : @BicubicPatch noise -> Vector2f -> Scalar.
Variable box_at : @TrilinearBox noise -> Vector3f -> Scalar.
Hypothesis REGION_SIZE_short : 0 < REGION_SIZE < 2 ^ 24.
Hypothesis EDGE_short : 0 < BICUBIC_OCTAVE_EDGE < 2 ^ 24.
Hypothesis HEIGHT_short : 0 < TRILINEAR_BOX_HEIGHT < 2 ^ 24.
Hypothesis sampling : same_in_domain noise patch_at box_at.

Let noise' : Noise := with_sampling noise patch_at box_at.

Lemma total_height_at_resampled (features : @RegionFeatures noise)
    (relative_position : Vector2i) :
  0 <= relative_position.1 < REGION_SIZE -> 0 <= relative_position.2 < REGION_SIZE ->
  @total_height_at constants noise' (resampled noise patch_at box_at features)
    relative_position =
  @total_height_at constants noise features relative_position.
Proof.
  intros H1 H2. destruct sampling as [Hpatch _]. unfold total_height_at.
  change (@BicubicPatch_interpolate noise') with patch_at.
  rewrite (Hpatch _ _ (fundamental_position_in_domain REGION_SIZE_short _ H1 H2)).
  assert (Hoct : @get_octave_patch noise' (resampled noise patch_at box_at features)
                   (octave_index relative_position) =
                 @get_octave_patch noise features (octave_index relative_position)).
  { unfold get_octave_patch. repeat case_match; reflexivity. }
  rewrite Hoct.
  destruct (@get_octave_patch noise features (octave_index relative_position))
    as [octave_patch|]; [|reflexivity].
  assert (Hx : 0 <= relative_position.1) by lia.
  assert (Hz : 0 <= relative_position.2) by lia.
  rewrite (Hpatch _ _ (octave_position_in_domain EDGE_short _ Hx Hz)).
  reflexivity.
Qed.

Lemma layer_block_resampled (features : @RegionFeatures noise)
    (column_position relative_position : Vector2i) (x z : Z) (material : BlockMaterial)
    (y : Z) (chunks : ChunkV) :
  0 <= relative_position.1 < REGION_SIZE -> 0 <= relative_position.2 < REGION_SIZE ->
  0 <= y <= TRILINEAR_BOX_HEIGHT ->
  @layer_block constants noise' (resampled noise patch_at box_at features)
    column_position relative_position x z material y chunks =
  @layer_block constants noise features column_position relative_position x z material
    y chunks.
Proof.
  intros H1 H2 Hy. destruct sampling as [_ Hbox]. unfold layer_block.
  change (@TrilinearBox_interpolate noise') with box_at.
  pose proof (box_position_in_domain REGION_SIZE_short HEIGHT_short _ y H1 H2 Hy) as Hin.
  rewrite !(Hbox _ _ Hin). reflexivity.
Qed.

Lemma layer_bands_resampled (features : @RegionFeatures noise)
    (column_position relative_position : Vector2i) (x z : Z)
    (ls : list (BlockMaterial * Scalar)) (bottom : Z) (tops : list Z) (chunks : ChunkV) :
  0 <= relative_position.1 < REGION_SIZE -> 0 <= relative_position.2 < REGION_SIZE ->
  0 <= bottom ->
  band_tops ls bottom = Some tops ->
  forallb (fun top => top <=? TRILINEAR_BOX_HEIGHT) tops = true ->
  @layer_bands constants noise' (resampled noise patch_at box_at features)
    column_position relative_position x z ls bottom chunks =
  @layer_bands constants noise features column_position relative_position x z ls
    bottom chunks.
Proof.
  intros H1 H2. revert bottom tops chunks.
  induction ls as [|[material second] ls IH]; intros bottom tops chunks Hb Htops Hbox;
    [reflexivity|].
  apply band_tops_cons in Htops as (top & tops' & -> & Htop & Htops').
  cbn [forallb] in Hbox. apply andb_true_iff in Hbox as [Hle%Z.leb_le Hbox].
  cbn [layer_bands]. rewrite Htop.
  rewrite (for_each_ext _
             (@layer_block constants noise' (resampled noise patch_at box_at features)
                column_position relative_position x z material)
             (@layer_block constants noise features column_position relative_position
                x z material)).
  - destruct (for_each _ _ chunks) as [chunks'|f]; [|reflexivity].
    cbv beta iota delta [mbind result_bind].
    apply (IH top tops'); [|exact Htops'|exact Hbox].
    apply band_top_range in Htop. lia.
  - intros y chunks' Hy%elem_of_range. apply layer_block_resampled; [exact H1|exact H2|lia].
Qed.

Lemma generate_block_column_resampled (features : @RegionFeatures noise)
    (region_position column_position : Vector2i) (x z : Z)
    (state : ChunkV * ChunkHeightmap) :
  let relative_position :=
    Vector2i_add (Vector2i_sub column_position region_position) (x, z) in
  0 <= relative_position.1 < REGION_SIZE -> 0 <= relative_position.2 < REGION_SIZE ->
  column_in_box features relative_position = true ->
  @generate_block_column constants noise' (resampled noise patch_at box_at features)
    region_position column_position x z state =
  @generate_block_column constants noise features region_position column_position x z
    state.
Proof.
  intros relative_position H1 H2 Hbox. unfold generate_block_column.
  fold relative_position. rewrite (total_height_at_resampled _ _ H1 H2).
  unfold column_in_box in Hbox.
  destruct (@total_height_at constants noise features relative_position)
    as [total_height|f]; [|reflexivity].
  cbv beta iota delta [mbind result_bind].
  destruct (band_tops (layers total_height) 0) as [tops|] eqn:Htops; [|discriminate].
  rewrite (layer_bands_resampled features column_position relative_position x z
             (layers total_height) 0 tops state.1 H1 H2 (Z.le_refl 0) Htops Hbox).
  reflexivity.
Qed.

Lemma generate_chunk_column_resampled (chunks : ChunkV) (features : @RegionFeatures noise)
    (region_position column_position : Vector2i) (heights : ChunkHeightmap) :
  column_in_region region_position column_position ->
  bands_in_box features region_position column_position = true ->
  @generate_chunk_column constants noise' chunks (resampled noise patch_at box_at features)
    region_position column_position heights =
  @generate_chunk_column constants noise chunks features region_position column_position
    heights.
Proof.
  intros (HX0 & HX1 & HZ0 & HZ1) Hbox. unfold generate_chunk_column.
  unfold bands_in_box in Hbox. rewrite forallb_forall in Hbox.
  apply for_each_ext. intros x state Hx.
  pose proof (Hbox x ltac:(now apply list_elem_of_In)) as Hboxx.
  rewrite forallb_forall in Hboxx.
  apply for_each_ext. intros z state' Hz.
  pose proof (Hboxx z ltac:(now apply list_elem_of_In)) as Hboxz.
  apply elem_of_range in Hx, Hz.
  apply generate_block_column_resampled; [| |exact Hboxz].
  - destruct column_position, region_position. unfold Vector2i_add, Vector2i_sub in *.
    cbn [fst snd] in *. lia.
  - destruct column_position, region_position. unfold Vector2i_add, Vector2i_sub in *.
    cbn [fst snd] in *. lia.
Qed.

Hypothesis SIZE_X_pos : 0 < SIZE_X.
Hypothesis SIZE_Z_pos : 0 < SIZE_Z.

Lemma generate_region_resampled (this : WorldGenerator) (position : Vector2i) :
  region_in_box
    (@RegionFeatures_new constants noise (world_seed_ this) position
       fundamental_features octave_features) position = true ->
  @generate_region constants noise' random this position =
  @generate_region constants noise random this position.
Proof.
  intros Hbox. unfold generate_region. f_equal.
  unfold region_in_box in Hbox. rewrite forallb_forall in Hbox.
  apply for_each_ext. intros x chunks Hx.
  pose proof (Hbox x ltac:(now apply list_elem_of_In)) as Hboxx.
  rewrite forallb_forall in Hboxx.
  apply for_each_ext. intros z chunks' Hz.
  pose proof (Hboxx z ltac:(now apply list_elem_of_In)) as Hboxz.
  apply elem_of_range in Hx, Hz.
  unfold generate_column.
  change (@RegionFeatures_new constants noise' (world_seed_ this) position
            fundamental_features octave_features)
    with (resampled noise patch_at box_at
            (@RegionFeatures_new constants noise (world_seed_ this) position
               fundamental_features octave_features)).
  rewrite generate_chunk_column_resampled; [reflexivity| |exact Hboxz].
  unfold CHUNKS_PER_REGION_EDGE in Hx, Hz. cbn [fst snd] in Hx, Hz.
  rewrite Z.quot_div_nonneg in Hx, Hz by lia.
  pose proof (Z.mul_div_le REGION_SIZE SIZE_X SIZE_X_pos) as Hmx.
  pose proof (Z.mul_div_le REGION_SIZE SIZE_Z SIZE_Z_pos) as Hmz.
  unfold column_in_region. destruct position as [px pz].
  unfold Vector2i_add. cbn [fst snd]. nia.
Qed.

End SamplingProofs.


(** ** The shape of a tree *)

Section TreeProofs.
Context {constants : Constants} {noise : Noise} {random : Random}.
Hypothesis SIZE_Y_pos : 0 < SIZE_Y.


Lemma leafed_refl (chunks : ChunkV) : leafed (fun _ => False) chunks chunks.
Proof. intros r. left. split; [reflexivity | tauto]. Qed.

Lemma leafed_ext (V V' : BlockRef -> Prop) (chunks0 chunks : ChunkV) :
  (forall r, V r <-> V' r) -> leafed V chunks0 chunks -> leafed V' chunks0 chunks.
Proof.
  intros Hext Hl r. destruct (Hl r) as [[H1 H2]|(H1 & H2 & H3)].
  - left. split; [exact H1 | intros Hv; apply H2; now apply Hext].
  - right. repeat split; try assumption. now apply Hext.
Qed.

(** One cell of the canopy. *)
Lemma place_leaf_leafed (V : BlockRef -> Prop) (chunks0 : ChunkV) (column_position : Vector2i)
    (x z bottom y u v : Z) (chunks : ChunkV) :
  leafed V chunks0 chunks ->
  holds any_fault
    (leafed (fun r => V r \/ ((u ≠ 0 \/ v ≠ 0) /\ r = block_ref (x + u) (z + v) (bottom + y)))
            chunks0)
    (place_leaf column_position x z bottom y u v chunks).
Proof.
  intros Hl. unfold place_leaf. case_decide as Huv.
  - destruct (get_block _ _ _ _ _) as [[leaf_block chunks']|f] eqn:Hget; [|exact I].
    apply (get_block_Ok SIZE_Y_pos) in Hget as (-> & Hlt & _ & Hsame). simpl.
    case_decide as Hair; simpl.
    + intros r. rewrite get_material_set_material by exact Hlt.
      case_decide as Hr.
      * subst r. right. rewrite Hsame in Hair.
        destruct (Hl (block_ref (x + u) (z + v) (bottom + y))) as [[H1 H2]|(H1 & H2 & H3)].
        -- repeat split; [congruence | now right].
        -- congruence.
      * rewrite Hsame. destruct (Hl r) as [[H1 H2]|(H1 & H2 & H3)].
        -- left. split; [exact H1|]. intros [Hv|[_ Heq]]; [now apply H2 | congruence].
        -- right. repeat split; try assumption. now left.
    + intros r. rewrite Hsame. rewrite Hsame in Hair.
      destruct (Hl r) as [[H1 H2]|(H1 & H2 & H3)].
      * left. split; [exact H1|]. intros [Hv|[_ ->]]; [now apply H2 | congruence].
      * right. repeat split; try assumption. now left.
  - simpl. eapply leafed_ext; [|exact Hl]. intros r. tauto.
Qed.

(** The canopy of one level: the loops over [u] and [v]. *)
Lemma canopy_leafed (chunks0 : ChunkV) (column_position : Vector2i)
    (x z bottom y reach : Z) :
  holds any_fault (leafed (canopy x z (bottom + y) reach) chunks0)
    (for_each (range (- reach) reach)
       (fun u => for_each (range (- reach) reach)
          (fun v => place_leaf column_position x z bottom y u v))
       chunks0).
Proof.
  set (row := fun (u j : Z) (r : BlockRef) =>
                exists v, - reach <= v < j /\ (u ≠ 0 \/ v ≠ 0) /\
                          r = block_ref (x + u) (z + v) (bottom + y)).
  set (rows := fun (i : Z) (r : BlockRef) =>
                 exists u, - reach <= u < i /\ row u (reach + 1) r).
  eapply holds_weaken.
  - apply (holds_for_each_range any_fault (fun i => leafed (rows i) chunks0)).
    + intros u chunks Hu Hrows.
      eapply holds_weaken.
      * apply (holds_for_each_range any_fault
                 (fun j => leafed (fun r => rows u r \/ row u j r) chunks0)).
        -- intros v chunks' Hv Hrow.
           eapply holds_weaken; [apply place_leaf_leafed; exact Hrow|].
           intros chunks''. apply leafed_ext. intros r. unfold row. split.
           ++ intros [[H|(v' & Hv' & Hg & ->)]|[Hg ->]]; [now left | |].
              ** right. exists v'. split; [lia | auto].
              ** right. exists v. split; [lia | auto].
           ++ intros [H|(v' & Hv' & Hg & ->)]; [left; now left|].
              destruct (decide (v' = v)) as [->|Hne]; [right; auto|].
              left. right. exists v'. split; [lia | auto].
        -- eapply leafed_ext; [|exact Hrows]. intros r. unfold row. split; [now left|].
           intros [H|(v' & Hv' & _)]; [exact H | lia].
      * intros chunks'. apply leafed_ext. intros r. unfold rows.
        replace (Z.max (- reach) (reach + 1)) with (reach + 1) by lia. split.
        -- intros [(u' & Hu' & Hr)|Hr]; [exists u'; split; [lia | exact Hr]|].
           exists u. split; [lia | exact Hr].
        -- intros (u' & Hu' & Hr).
           destruct (decide (u' = u)) as [->|Hne]; [now right|].
           left. exists u'. split; [lia | exact Hr].
    + eapply leafed_ext; [|apply leafed_refl]. intros r. unfold rows. split; [tauto|].
      intros (u & Hu & _). lia.
  - intros chunks. apply leafed_ext. intros r. unfold rows, row, canopy. split.
    + intros (u & Hu & v & Hv & Hg & ->). exists u, v. repeat split; try lia; auto.
    + intros (u & v & Hu & Hv & Hg & ->).
      assert (reach >= 0 \/ reach < 0) as [Hpos|Hneg] by lia; [|lia].
      exists u. split; [lia|]. exists v. split; [lia | auto].
Qed.

(** One level of the tree, block by block. *)
Lemma grow_level_leafed (column_position : Vector2i) (x z bottom height radius y : Z)
    (chunks chunks' : ChunkV) :
  grow_level column_position x z bottom height radius y chunks = Ok chunks' ->
  get_material chunks' (block_ref x z (bottom + y)) = BLOCK_MATERIAL_TREE_TRUNK /\
  forall r, r ≠ block_ref x z (bottom + y) ->
    (get_material chunks' r = get_material chunks r /\
     (0 <= y - (height - radius - 1) ->
      canopy x z (bottom + y) (radius - (y - (height - radius - 1))) r ->
      get_material chunks r ≠ BLOCK_MATERIAL_AIR)) \/
    (get_material chunks' r = BLOCK_MATERIAL_TREE_LEAF /\
     get_material chunks r = BLOCK_MATERIAL_AIR /\
     0 <= y - (height - radius - 1) /\
     canopy x z (bottom + y) (radius - (y - (height - radius - 1))) r).
Proof.
  unfold grow_level. intros Hrun.
  destruct (get_block _ _ _ _ _) as [[trunk_block chunks1]|f] eqn:Hget; [|discriminate].
  apply (get_block_Ok SIZE_Y_pos) in Hget as (-> & Hlt & _ & Hsame).
  cbv beta iota delta [mbind result_bind] in Hrun. cbv zeta in Hrun.
  set (chunks_t := set_material (block_ref x z (bottom + y)) BLOCK_MATERIAL_TREE_TRUNK chunks1)
    in Hrun.
  assert (Ht : forall r, get_material chunks_t r =
                 if decide (r = block_ref x z (bottom + y)) then BLOCK_MATERIAL_TREE_TRUNK
                 else get_material chunks r).
  { intros r. unfold chunks_t. rewrite get_material_set_material by exact Hlt.
    case_decide; [reflexivity | apply Hsame]. }
  set (leaf_height := y - (height - radius - 1)) in *.
  destruct (Z.leb_spec 0 leaf_height) as [Hleaf|Hleaf].
  - replace (- radius + leaf_height) with (- (radius - leaf_height)) in Hrun by lia.
    pose proof (canopy_leafed chunks_t column_position x z bottom y (radius - leaf_height))
      as Hl.
    rewrite Hrun in Hl. simpl in Hl. split.
    + destruct (Hl (block_ref x z (bottom + y))) as [[H1 _]|(_ & H2 & _)].
      * rewrite H1, Ht. case_decide; [reflexivity | congruence].
      * rewrite Ht in H2. case_decide; [discriminate | congruence].
    + intros r Hr. specialize (Ht r). case_decide; [congruence|].
      destruct (Hl r) as [[H1 H2]|(H1 & H2 & H3)].
      * left. rewrite H1, Ht. split; [reflexivity|]. intros _ Hc. rewrite <- Ht. now apply H2.
      * right. rewrite <- Ht. auto.
  - injection Hrun as <-. split.
    + rewrite Ht. case_decide; [reflexivity | congruence].
    + intros r Hr. left. rewrite Ht. case_decide; [congruence|]. split; [reflexivity | lia].
Qed.

Hypothesis SIZE_X_int : SIZE_X <= 2 ^ 31.
Hypothesis SIZE_Z_int : SIZE_Z <= 2 ^ 31.

Lemma grow_level_block (column_position : Vector2i) (x z bottom height radius y : Z)
    (chunks chunks' : ChunkV) (x' y' z' : Z) :
  MAX_TREE_RADIUS <= x <= SIZE_X - MAX_TREE_RADIUS - 1 ->
  MAX_TREE_RADIUS <= z <= SIZE_Z - MAX_TREE_RADIUS - 1 ->
  radius <= MAX_TREE_RADIUS ->
  1 <= y < height -> 0 <= bottom + y < 2 ^ 32 ->
  0 <= x' < SIZE_X -> 0 <= z' < SIZE_Z -> 0 <= y' < 2 ^ 32 ->
  grow_level column_position x z bottom height radius y chunks = Ok chunks' ->
  material_at chunks' x' y' z' =
  if y' =? bottom + y
  then tree_block x z bottom height radius x' y' z' (material_at chunks x' y' z')
  else material_at chunks x' y' z'.
Proof.
  unfold MAX_TREE_RADIUS. intros Hx Hz Hradius Hy Hh Hx' Hz' Hy' Hrun.
  destruct (grow_level_leafed _ _ _ _ _ _ _ _ _ Hrun) as [Htrunk Hleaves].
  set (leaf_height := y - (height - radius - 1)) in *.
  set (reach := radius - leaf_height) in *.
  assert (Hcanopy : 0 <= leaf_height ->
            (canopy x z (bottom + y) reach (block_ref x' z' y') <->
             y' = bottom + y /\ Z.abs (x' - x) <= reach /\ Z.abs (z' - z) <= reach /\
             ~ (x' = x /\ z' = z))).
  { intros Hleaf. unfold canopy. split.
    - intros (u & v & Hu & Hv & Hg & Heq).
      apply (block_ref_inj SIZE_Y_pos) in Heq; [|lia..]. lia.
    - intros (-> & Hu & Hv & Hg). exists (x' - x), (z' - z).
      repeat split; try lia. f_equal; lia. }
  unfold material_at, tree_block.
  destruct (Z.eqb_spec y' (bottom + y)) as [->|Hy'ne].
  - replace (bottom + y - bottom) with y by lia. fold leaf_height. fold reach.
    destruct (Z.leb_spec 1 y); [|lia]. destruct (Z.ltb_spec y height); [|lia]. cbn [andb].
    destruct (Z.eqb_spec x' x) as [->|Hxne].
    + destruct (Z.eqb_spec z' z) as [->|Hzne]; cbn [andb].
      * exact Htrunk.
      * destruct (Hleaves (block_ref x z' (bottom + y))) as [[H1 H2]|(H1 & H2 & H3 & H4)].
        { intros Heq. apply (block_ref_inj SIZE_Y_pos) in Heq; [|lia..]. lia. }
        -- rewrite H1. destruct (Z.leb_spec 0 leaf_height) as [Hl|Hl]; [|reflexivity].
           cbn [andb].
           destruct (Z.leb_spec (Z.abs (x - x)) reach); [|reflexivity].
           destruct (Z.leb_spec (Z.abs (z' - z)) reach); [|reflexivity]. cbn [andb].
           rewrite bool_decide_eq_false_2; [reflexivity|].
           apply (H2 Hl). apply Hcanopy; [exact Hl|]. lia.
        -- rewrite H1. apply Hcanopy in H4; [|exact H3].
           destruct (Z.leb_spec 0 leaf_height); [|lia].
           destruct (Z.leb_spec (Z.abs (x - x)) reach); [|lia].
           destruct (Z.leb_spec (Z.abs (z' - z)) reach); [|lia]. cbn [andb].
           rewrite bool_decide_eq_true_2; [reflexivity | exact H2].
    + cbn [andb].
      destruct (Hleaves (block_ref x' z' (bottom + y))) as [[H1 H2]|(H1 & H2 & H3 & H4)].
      { intros Heq. apply (block_ref_inj SIZE_Y_pos) in Heq; [|lia..]. lia. }
      * rewrite H1. destruct (Z.leb_spec 0 leaf_height) as [Hl|Hl]; [|reflexivity].
        cbn [andb].
        destruct (Z.leb_spec (Z.abs (x' - x)) reach); [|reflexivity].
        destruct (Z.leb_spec (Z.abs (z' - z)) reach); [|reflexivity]. cbn [andb].
        rewrite bool_decide_eq_false_2; [reflexivity|].
        apply (H2 Hl). apply Hcanopy; [exact Hl|]. lia.
      * rewrite H1. apply Hcanopy in H4; [|exact H3].
        destruct (Z.leb_spec 0 leaf_height); [|lia].
        destruct (Z.leb_spec (Z.abs (x' - x)) reach); [|lia].
        destruct (Z.leb_spec (Z.abs (z' - z)) reach); [|lia]. cbn [andb].
        rewrite bool_decide_eq_true_2; [reflexivity | exact H2].
  - destruct (Hleaves (block_ref x' z' y')) as [[H1 _]|(_ & _ & H3 & H4)].
    { intros Heq. apply (block_ref_inj SIZE_Y_pos) in Heq; [|lia..]. lia. }
    + exact H1.
    + apply Hcanopy in H4; [lia | exact H3].
Qed.

(** The levels of the tree, from the first above the root to the top. *)
Lemma grow_levels_block (column_position : Vector2i) (x z bottom height radius : Z)
    (chunks chunks' : ChunkV) :
  MAX_TREE_RADIUS <= x <= SIZE_X - MAX_TREE_RADIUS - 1 ->
  MAX_TREE_RADIUS <= z <= SIZE_Z - MAX_TREE_RADIUS - 1 ->
  radius <= MAX_TREE_RADIUS ->
  0 <= bottom -> bottom + height <= 2 ^ 32 ->
  for_each (range 1 (height - 1))
    (grow_level column_position x z bottom height radius) chunks = Ok chunks' ->
  forall x' y' z', 0 <= x' < SIZE_X -> 0 <= z' < SIZE_Z -> 0 <= y' < 2 ^ 32 ->
    material_at chunks' x' y' z' =
    tree_block x z bottom height radius x' y' z' (material_at chunks x' y' z').
Proof.
  intros Hx Hz Hradius Hb Hwrap Hrun.
  pose (I := fun (i : Z) (c : ChunkV) =>
    forall x' y' z', 0 <= x' < SIZE_X -> 0 <= z' < SIZE_Z -> 0 <= y' < 2 ^ 32 ->
      material_at c x' y' z' =
      if (bottom + 1 <=? y') && (y' <? bottom + i)
      then tree_block x z bottom height radius x' y' z' (material_at chunks x' y' z')
      else material_at chunks x' y' z').
  assert (Hh : holds any_fault (I (Z.max 1 (height - 1 + 1)))
                 (for_each (range 1 (height - 1))
                    (grow_level column_position x z bottom height radius) chunks)).
  { apply (holds_for_each_range any_fault I).
    - intros i c Hi Hc.
      destruct (grow_level _ _ _ _ _ _ i c) as [c'|f] eqn:Hstep; [|exact Logic.I].
      intros x' y' z' Hx' Hz' Hy'.
      assert (Hi1 : 1 <= i < height) by lia.
      assert (Hi2 : 0 <= bottom + i < 2 ^ 32) by lia.
      rewrite (grow_level_block _ _ _ _ _ _ _ _ _ x' y' z' Hx Hz Hradius
                 Hi1 Hi2 Hx' Hz' Hy' Hstep).
      rewrite (Hc x' y' z' Hx' Hz' Hy').
      destruct (Z.eqb_spec y' (bottom + i)) as [->|Hne].
      + destruct (Z.leb_spec (bottom + 1) (bottom + i)); [|lia].
        destruct (Z.ltb_spec (bottom + i) (bottom + i)); [lia|].
        destruct (Z.ltb_spec (bottom + i) (bottom + (i + 1))); [|lia]. reflexivity.
      + destruct (Z.leb_spec (bottom + 1) y'); cbn [andb]; [|reflexivity].
        destruct (Z.ltb_spec y' (bottom + i)), (Z.ltb_spec y' (bottom + (i + 1)));
          try lia; reflexivity.
    - intros x' y' z' _ _ _.
      destruct (Z.leb_spec (bottom + 1) y'), (Z.ltb_spec y' (bottom + 1));
        try lia; reflexivity. }
  rewrite Hrun in Hh. simpl in Hh.
  intros x' y' z' Hx' Hz' Hy'. rewrite (Hh x' y' z' Hx' Hz' Hy').
  unfold tree_block.
  destruct (Z.leb_spec (bottom + 1) y'), (Z.leb_spec 1 (y' - bottom)); try lia;
    cbn [andb]; [|reflexivity].
  destruct (Z.ltb_spec y' (bottom + Z.max 1 (height - 1 + 1))), (Z.ltb_spec (y' - bottom) height);
    try lia; reflexivity.
Qed.

Hypothesis draws_in_range : uniform_int_in_range.

(** The vegetation pass, block by block. *)
Lemma populate_trees_blocks (world_seed : Z) (chunks chunks' : ChunkV)
    (column_position : Vector2i) (heights : ChunkHeightmap) (bottom : Z) :
  heights !! tree_site world_seed column_position = Some bottom ->
  0 <= bottom -> bottom + MAX_TREE_HEIGHT <= 2 ^ 32 ->
  populate_trees world_seed chunks column_position heights = Ok chunks' ->
  forall x y z, 0 <= x < SIZE_X -> 0 <= z < SIZE_Z -> 0 <= y < 2 ^ 32 ->
    material_at chunks' x y z =
    if decide (material_at chunks (tree_site world_seed column_position).1 bottom
                 (tree_site world_seed column_position).2 = BLOCK_MATERIAL_GRASS)
    then tree_block (tree_site world_seed column_position).1
                    (tree_site world_seed column_position).2 bottom
                    (tree_shape world_seed column_position).1
                    (tree_shape world_seed column_position).2
                    x y z (material_at chunks x y z)
    else material_at chunks x y z.
Proof.
  unfold tree_site, tree_shape. intros Hbottom Hb Hwrap Hrun.
  unfold populate_trees in Hrun.
  destruct (Z.leb_spec MAX_TREE_RADIUS (SIZE_X - MAX_TREE_RADIUS - 1)) as [HX|_];
    [|discriminate].
  destruct (Z.leb_spec MAX_TREE_RADIUS (SIZE_Z - MAX_TREE_RADIUS - 1)) as [HZ|_];
    [|discriminate].
  cbn [andb] in Hrun.
  change (range 0 (TREES_PER_CHUNK - 1)) with [0] in Hrun. simpl in Hrun.
  unfold plant_tree in Hrun. simpl in Hrun.
  pose proof (draws_in_range _ _ (rand48_seed (get_seed_for_coordinates world_seed
                                                  column_position)) HX) as Hx.
  destruct (uniform_int _ _ (rand48_seed _)) as [rx g1].
  pose proof (draws_in_range _ _ g1 HZ) as Hz.
  destruct (uniform_int _ _ g1) as [rz g2].
  pose proof (draws_in_range MIN_TREE_HEIGHT MAX_TREE_HEIGHT g2
                ltac:(unfold MIN_TREE_HEIGHT, MAX_TREE_HEIGHT; lia)) as Hheight.
  destruct (uniform_int _ _ g2) as [height g3].
  pose proof (draws_in_range MIN_TREE_RADIUS MAX_TREE_RADIUS g3
                ltac:(unfold MIN_TREE_RADIUS, MAX_TREE_RADIUS; lia)) as Hradius.
  destruct (uniform_int _ _ g3) as [radius g4]. simpl in *.
  rewrite Hbottom in Hrun.
  destruct (get_block _ _ _ _ _) as [[bottom_block chunks1]|f] eqn:Hget; [|discriminate].
  apply (get_block_Ok SIZE_Y_pos) in Hget as (-> & _ & _ & Hsame). simpl in Hrun.
  rewrite Hsame in Hrun. fold (material_at chunks rx bottom rz) in Hrun.
  intros x y z Hx' Hz' Hy'.
  destruct (decide (material_at chunks rx bottom rz = BLOCK_MATERIAL_GRASS)) as [Hgrass|Hgrass].
  - destruct (for_each _ _ chunks1) as [chunks2|f] eqn:Hlevels; [|discriminate].
    simpl in Hrun. injection Hrun as <-.
    rewrite (grow_levels_block column_position rx rz bottom height radius chunks1 chunks2
               Hx Hz ltac:(lia) Hb ltac:(lia) Hlevels x y z Hx' Hz' Hy').
    unfold material_at. now rewrite Hsame.
  - simpl in Hrun. injection Hrun as <-. unfold material_at. apply Hsame.
Qed.

Lemma tree_block_idempotent (root_x root_z bottom height radius x y z : Z)
    (before : BlockMaterial) :
  tree_block root_x root_z bottom height radius x y z
    (tree_block root_x root_z bottom height radius x y z before) =
  tree_block root_x root_z bottom height radius x y z before.
Proof.
  unfold tree_block.
  destruct ((1 <=? y - bottom) && (y - bottom <? height)); [|reflexivity].
  destruct ((x =? root_x) && (z =? root_z)); [reflexivity|].
  destruct ((0 <=? y - bottom - (height - radius - 1)) &&
            (Z.abs (x - root_x) <=? radius - (y - bottom - (height - radius - 1))) &&
            (Z.abs (z - root_z) <=? radius - (y - bottom - (height - radius - 1))));
    cbn [andb]; [|reflexivity].
  destruct (bool_decide (before = BLOCK_MATERIAL_AIR)) eqn:Hb; [reflexivity|].
  now rewrite Hb.
Qed.

(** The tree site lies where a tree has room, when the chunk has room for
    one. *)
Lemma tree_site_range (world_seed : Z) (column_position : Vector2i) :
  MAX_TREE_RADIUS <= SIZE_X - MAX_TREE_RADIUS - 1 ->
  MAX_TREE_RADIUS <= SIZE_Z - MAX_TREE_RADIUS - 1 ->
  MAX_TREE_RADIUS <= (tree_site world_seed column_position).1
                  <= SIZE_X - MAX_TREE_RADIUS - 1 /\
  MAX_TREE_RADIUS <= (tree_site world_seed column_position).2
                  <= SIZE_Z - MAX_TREE_RADIUS - 1.
Proof.
  intros HX HZ. unfold tree_site.
  pose proof (draws_in_range _ _ (rand48_seed (get_seed_for_coordinates world_seed
                                                  column_position)) HX) as Hx.
  destruct (uniform_int _ _ (rand48_seed _)) as [rx g1].
  pose proof (draws_in_range _ _ g1 HZ) as Hz.
  destruct (uniform_int _ _ g1) as [rz g2]. simpl in *. auto.
Qed.

Lemma populate_trees_room (world_seed : Z) (chunks chunks' : ChunkV)
    (column_position : Vector2i) (heights : ChunkHeightmap) :
  populate_trees world_seed chunks column_position heights = Ok chunks' ->
  MAX_TREE_RADIUS <= SIZE_X - MAX_TREE_RADIUS - 1 /\
  MAX_TREE_RADIUS <= SIZE_Z - MAX_TREE_RADIUS - 1.
Proof.
  unfold populate_trees.
  destruct (Z.leb_spec MAX_TREE_RADIUS (SIZE_X - MAX_TREE_RADIUS - 1)); [|discriminate].
  destruct (Z.leb_spec MAX_TREE_RADIUS (SIZE_Z - MAX_TREE_RADIUS - 1)); [|discriminate].
  auto.
Qed.

(** A pass over a column with a surface: nothing but air is replaced. *)
Lemma populate_trees_on_surface (world_seed : Z) (chunks chunks' : ChunkV)
    (column_position : Vector2i) (heights : ChunkHeightmap) (bottom : Z) :
  heights !! tree_site world_seed column_position = Some bottom ->
  0 <= bottom -> bottom + MAX_TREE_HEIGHT <= 2 ^ 32 ->
  (forall y, bottom < y < 2 ^ 32 ->
     material_at chunks (tree_site world_seed column_position).1 y
                 (tree_site world_seed column_position).2 = BLOCK_MATERIAL_AIR) ->
  populate_trees world_seed chunks column_position heights = Ok chunks' ->
  forall x y z, 0 <= x < SIZE_X -> 0 <= z < SIZE_Z -> 0 <= y < 2 ^ 32 ->
    material_at chunks' x y z = material_at chunks x y z \/
    material_at chunks x y z = BLOCK_MATERIAL_AIR.
Proof.
  intros Hbottom Hb Hwrap Hair Hrun x y z Hx Hz Hy.
  rewrite (populate_trees_blocks _ _ _ _ _ _ Hbottom Hb Hwrap Hrun x y z Hx Hz Hy).
  case_decide; [|now left]. unfold tree_block.
  destruct (Z.leb_spec 1 (y - bottom)); cbn [andb]; [|now left].
  destruct (Z.ltb_spec (y - bottom) (tree_shape world_seed column_position).1);
    [|now left].
  destruct (Z.eqb_spec x (tree_site world_seed column_position).1) as [->|_]; cbn [andb].
  - destruct (Z.eqb_spec z (tree_site world_seed column_position).2) as [->|_].
    + right. apply Hair. lia.
    + case_bool_decide; [now right|]. rewrite andb_false_r. now left.
  - case_bool_decide; [now right|]. rewrite andb_false_r. now left.
Qed.

Lemma tree_shape_range (world_seed : Z) (column_position : Vector2i) :
  MIN_TREE_HEIGHT <= (tree_shape world_seed column_position).1 <= MAX_TREE_HEIGHT /\
  MIN_TREE_RADIUS <= (tree_shape world_seed column_position).2 <= MAX_TREE_RADIUS.
Proof.
  unfold tree_shape.
  destruct (uniform_int _ _ (rand48_seed _)) as [rx g1].
  destruct (uniform_int _ _ g1) as [rz g2].
  pose proof (draws_in_range MIN_TREE_HEIGHT MAX_TREE_HEIGHT g2
                ltac:(unfold MIN_TREE_HEIGHT, MAX_TREE_HEIGHT; lia)) as Hheight.
  destruct (uniform_int _ _ g2) as [height g3].
  pose proof (draws_in_range MIN_TREE_RADIUS MAX_TREE_RADIUS g3
                ltac:(unfold MIN_TREE_RADIUS, MAX_TREE_RADIUS; lia)) as Hradius.
  destruct (uniform_int _ _ g3) as [radius g4]. simpl in *. auto.
Qed.

End TreeProofs.

(** X6.  The shape of a tree.  The vegetation pass changes the blocks of a
    column as [tree_block] says, and only if the block at the height map's
    height of the tree site is grass: the trunk stands on the levels 1 to
    [height - 1] above that block, and on each level from
    [height - radius - 1] up the air blocks of the square around the trunk
    turn to leaf, the square losing one block of half-width per level -
    at the top level it is the trunk alone. *)
Theorem populate_trees_shape
    {constants : Constants} {noise : Noise} {random : Random}
    (world_seed : Z) (chunks : ChunkV) (column_position : Vector2i)
    (heights : ChunkHeightmap) (bottom : Z) :
  0 < SIZE_Y -> SIZE_X <= 2 ^ 31 -> SIZE_Z <= 2 ^ 31 ->
  uniform_int_in_range ->
  heights !! tree_site world_seed column_position = Some bottom ->
  0 <= bottom -> bottom + MAX_TREE_HEIGHT <= 2 ^ 32 ->
  holds any_fault
    (fun chunks' =>
       forall x y z, 0 <= x < SIZE_X -> 0 <= z < SIZE_Z -> 0 <= y < 2 ^ 32 ->
         material_at chunks' x y z =
         if decide (material_at chunks (tree_site world_seed column_position).1 bottom
                      (tree_site world_seed column_position).2 = BLOCK_MATERIAL_GRASS)
         then tree_block (tree_site world_seed column_position).1
                         (tree_site world_seed column_position).2 bottom
                         (tree_shape world_seed column_position).1
                         (tree_shape world_seed column_position).2
                         x y z (material_at chunks x y z)
         else material_at chunks x y z)
    (populate_trees world_seed chunks column_position heights).
Proof.
  intros HY HX HZ Hdraw Hbottom Hb Hwrap.
  destruct (populate_trees world_seed chunks column_position heights) as [chunks'|f] eqn:Hrun;
    [|exact I].
  exact (populate_trees_blocks HY HX HZ Hdraw _ _ _ _ _ _ Hbottom Hb Hwrap Hrun).
Qed.

(** X7.  The vegetation pass is idempotent.  A second pass over the column
    it has planted - the same seed, so the same site and the same tree -
    changes no block: the root is still grass, the trunk is written again,
    and no block of the canopy is air any more. *)
Theorem populate_trees_idempotent
    {constants : Constants} {noise : Noise} {random : Random}
    (world_seed : Z) (chunks : ChunkV) (column_position : Vector2i)
    (heights : ChunkHeightmap) (bottom : Z) :
  0 < SIZE_Y -> SIZE_X <= 2 ^ 31 -> SIZE_Z <= 2 ^ 31 ->
  uniform_int_in_range ->
  heights !! tree_site world_seed column_position = Some bottom ->
  0 <= bottom -> bottom + MAX_TREE_HEIGHT <= 2 ^ 32 ->
  holds any_fault
    (fun chunks' =>
       holds any_fault
         (fun chunks'' =>
            forall x y z, 0 <= x < SIZE_X -> 0 <= z < SIZE_Z -> 0 <= y < 2 ^ 32 ->
              material_at chunks'' x y z = material_at chunks' x y z)
         (populate_trees world_seed chunks' column_position heights))
    (populate_trees world_seed chunks column_position heights).
Proof.
  intros HY HX HZ Hdraw Hbottom Hb Hwrap.
  destruct (populate_trees world_seed chunks column_position heights) as [chunks'|f] eqn:Hrun;
    [|exact I].
  simpl.
  destruct (populate_trees world_seed chunks' column_position heights) as [chunks''|f] eqn:Hrun';
    [|exact I].
  simpl. intros x y z Hx Hz Hy.
  pose proof (populate_trees_blocks HY HX HZ Hdraw _ _ _ _ _ _ Hbottom Hb Hwrap Hrun) as H1.
  pose proof (populate_trees_blocks HY HX HZ Hdraw _ _ _ _ _ _ Hbottom Hb Hwrap Hrun') as H2.
  destruct (populate_trees_room _ _ _ _ _ Hrun) as [HXr HZr].
  destruct (tree_site_range Hdraw world_seed column_position HXr HZr) as [Hsx Hsz].
  unfold MAX_TREE_RADIUS in Hsx, Hsz.
  rewrite (H2 x y z Hx Hz Hy).
  assert (Hrx : 0 <= (tree_site world_seed column_position).1 < SIZE_X) by lia.
  assert (Hrz : 0 <= (tree_site world_seed column_position).2 < SIZE_Z) by lia.
  assert (Hby : 0 <= bottom < 2 ^ 32) by (unfold MAX_TREE_HEIGHT in Hwrap; lia).
  rewrite (H1 _ bottom _ Hrx Hrz Hby).
  rewrite (H1 x y z Hx Hz Hy).
  destruct (decide (material_at chunks (tree_site world_seed column_position).1 bottom
                      (tree_site world_seed column_position).2 = BLOCK_MATERIAL_GRASS))
    as [Hgrass|Hgrass].
  - assert (Hroot : tree_block (tree_site world_seed column_position).1
                      (tree_site world_seed column_position).2 bottom
                      (tree_shape world_seed column_position).1
                      (tree_shape world_seed column_position).2
                      (tree_site world_seed column_position).1 bottom
                      (tree_site world_seed column_position).2
                      (material_at chunks (tree_site world_seed column_position).1 bottom
                         (tree_site world_seed column_position).2)
                    = BLOCK_MATERIAL_GRASS).
    { unfold tree_block. replace (bottom - bottom) with 0 by lia. exact Hgrass. }
    rewrite Hroot. rewrite decide_True by reflexivity.
    apply tree_block_idempotent.
  - rewrite decide_False by exact Hgrass. reflexivity.
Qed.

(** X8.  Trees replace nothing but air.  In a chunk column that
    [generate_chunk_column] has layered, the vegetation pass changes only
    blocks that were air: the trunk grows through the blocks above the
    recorded height of its site, which the layering left empty, and a leaf
    is written to air only.  (The recorded height is taken as the [int] it
    is stored as: it is not negative.) *)
Theorem trees_replace_air_only
    {constants : Constants} {noise : Noise} {random : Random}
    (world_seed : Z) (features : RegionFeatures) (region_position column_position : Vector2i) :
  0 < SIZE_Y -> SIZE_X <= 2 ^ 31 -> SIZE_Z <= 2 ^ 31 ->
  uniform_int_in_range ->
  holds any_fault
    (fun state : ChunkV * ChunkHeightmap =>
       (forall bottom, state.2 !! tree_site world_seed column_position = Some bottom ->
                       0 <= bottom) ->
       holds any_fault
         (fun chunks' =>
            forall x y z, 0 <= x < SIZE_X -> 0 <= z < SIZE_Z -> 0 <= y < 2 ^ 32 ->
              material_at chunks' x y z = material_at state.1 x y z \/
              material_at state.1 x y z = BLOCK_MATERIAL_AIR)
         (populate_trees world_seed state.1 column_position state.2))
    (generate_chunk_column [] features region_position column_position ∅).
Proof.
  intros HY HX HZ Hdraw.
  eapply holds_weaken;
    [apply (generate_chunk_column_surface HY HX HZ features region_position column_position)|].
  intros [chunks heights] Hsurface Hnonneg. cbn [fst snd] in *.
  destruct (populate_trees world_seed chunks column_position heights) as [chunks'|f] eqn:Hrun;
    [|exact I].
  simpl.
  destruct (populate_trees_room _ _ _ _ _ Hrun) as [HXr HZr].
  destruct (tree_site_range Hdraw world_seed column_position HXr HZr) as [Hsx Hsz].
  unfold MAX_TREE_RADIUS in Hsx, Hsz.
  assert (Hrx : 0 <= (tree_site world_seed column_position).1 < SIZE_X) by lia.
  assert (Hrz : 0 <= (tree_site world_seed column_position).2 < SIZE_Z) by lia.
  destruct (Hsurface _ _ Hrx Hrz) as (top & Hkey & Htop & _ & Hair).
  assert (Hsite : heights !! tree_site world_seed column_position = Some (to_int top)).
  { destruct (tree_site world_seed column_position). exact Hkey. }
  pose proof (Hnonneg _ Hsite) as Hpos.
  assert (Heq : to_int top = top).
  { unfold to_int in *.
    destruct (Z.lt_ge_cases top (2 ^ 31)) as [Hlt|Hge].
    - rewrite Z.mod_small; lia.
    - replace (top + 2 ^ 31) with (top - 2 ^ 31 + 1 * 2 ^ 32) in Hpos by lia.
      rewrite Z.mod_add in Hpos by lia. rewrite Z.mod_small in Hpos; lia. }
  rewrite Heq in Hsite.
  assert (Hsmall : top < 2 ^ 31).
  { unfold to_int in Heq.
    destruct (Z.lt_ge_cases top (2 ^ 31)) as [Hlt|Hge]; [exact Hlt|].
    replace (top + 2 ^ 31) with (top - 2 ^ 31 + 1 * 2 ^ 32) in Heq by lia.
    rewrite Z.mod_add in Heq by lia. rewrite Z.mod_small in Heq; lia. }
  apply (populate_trees_on_surface HY HX HZ Hdraw world_seed chunks chunks' column_position
           heights top Hsite); [lia | unfold MAX_TREE_HEIGHT; lia | | exact Hrun].
  intros y Hy. apply Hair. exact Hy.
Qed.

(** X9.  The reach of a tree.  The vegetation pass changes no block at or
    below the height map's height of the tree site, none
    [MAX_TREE_HEIGHT] = 24 blocks or more above it, and none that lies
    more than [MAX_TREE_RADIUS] = 5 blocks from the site in [x] or in
    [z]. *)
Theorem tree_stays_in_its_box
    {constants : Constants} {noise : Noise} {random : Random}
    (world_seed : Z) (chunks : ChunkV) (column_position : Vector2i)
    (heights : ChunkHeightmap) (bottom : Z) :
  0 < SIZE_Y -> SIZE_X <= 2 ^ 31 -> SIZE_Z <= 2 ^ 31 ->
  uniform_int_in_range ->
  heights !! tree_site world_seed column_position = Some bottom ->
  0 <= bottom -> bottom + MAX_TREE_HEIGHT <= 2 ^ 32 ->
  holds any_fault
    (fun chunks' =>
       forall x y z, 0 <= x < SIZE_X -> 0 <= z < SIZE_Z -> 0 <= y < 2 ^ 32 ->
         y <= bottom \/ bottom + MAX_TREE_HEIGHT <= y \/
         MAX_TREE_RADIUS < Z.abs (x - (tree_site world_seed column_position).1) \/
         MAX_TREE_RADIUS < Z.abs (z - (tree_site world_seed column_position).2) ->
         material_at chunks' x y z = material_at chunks x y z)
    (populate_trees world_seed chunks column_position heights).
Proof.
  intros HY HX HZ Hdraw Hbottom Hb Hwrap.
  destruct (populate_trees world_seed chunks column_position heights) as [chunks'|f] eqn:Hrun;
    [|exact I].
  simpl. intros x y z Hx Hz Hy Hout.
  rewrite (populate_trees_blocks HY HX HZ Hdraw _ _ _ _ _ _ Hbottom Hb Hwrap Hrun x y z Hx Hz Hy).
  case_decide; [|reflexivity].
  destruct (tree_shape_range Hdraw world_seed column_position) as [Hheight Hradius].
  unfold MIN_TREE_HEIGHT, MAX_TREE_HEIGHT, MIN_TREE_RADIUS, MAX_TREE_RADIUS in *.
  unfold tree_block.
  destruct (Z.leb_spec 1 (y - bottom)); cbn [andb]; [|reflexivity].
  destruct (Z.ltb_spec (y - bottom) (tree_shape world_seed column_position).1);
    [|reflexivity].
  destruct (Z.eqb_spec x (tree_site world_seed column_position).1) as [Hxe|Hxe];
    destruct (Z.eqb_spec z (tree_site world_seed column_position).2) as [Hze|Hze];
    cbn [andb]; try (exfalso; lia);
    repeat (match goal with
            | |- context [?a <=? ?b] => destruct (Z.leb_spec a b); cbn [andb]
            end; try reflexivity);
    exfalso; lia.
Qed.

(** ** The octave patches *)

Lemma quot_0_or_1 (a b : Z) : 0 < b -> (Z.quot a b = 0 \/ Z.quot a b = 1) <-> - b < a < 2 * b.
Proof.
  intros Hb.
  pose proof (Z.quot_rem' a b) as Hqr.
  destruct (Z.le_gt_cases 0 a) as [Ha|Ha].
  - pose proof (Z.rem_bound_pos a b Ha Hb). split; [intros [Hq|Hq]; rewrite Hq in Hqr; lia|].
    intros Hr. nia.
  - assert (Ha' : a <= 0) by lia. pose proof (Z.rem_bound_pos_neg a b Hb Ha').
    split; [intros [Hq|Hq]; rewrite Hq in Hqr; lia|].
    intros Hr. nia.
Qed.

Lemma get_octave_patch_is_Some {constants : Constants} {noise : Noise}
    (features : RegionFeatures) (index : Vector2i) :
  is_Some (get_octave_patch features index) <->
  (index.1 = 0 \/ index.1 = 1) /\ (index.2 = 0 \/ index.2 = 1).
Proof.
  destruct index as [a b]. unfold get_octave_patch. cbn [fst snd].
  destruct a as [|[p|p|]|p]; destruct b as [|[q|q|]|q];
    (split; [intros [patch Hp]; try discriminate; lia
            |intros [[Ha|Ha] [Hb|Hb]]; try discriminate; eauto]).
Qed.

(** X10.  The bounds of the octave array.  The octave patches are a 2 x 2
    array indexed by the relative position divided by the octave edge (an
    [int] division, which truncates toward zero): the total height of a
    block column is computed if and only if both components of its
    relative position lie strictly between [- BICUBIC_OCTAVE_EDGE] and
    [2 * BICUBIC_OCTAVE_EDGE]; for every other position the index leaves
    the array. *)
Theorem octave_patch_bounds {constants : Constants} {noise : Noise}
    (features : RegionFeatures) (relative_position : Vector2i) :
  0 < BICUBIC_OCTAVE_EDGE ->
  (exists total_height, total_height_at features relative_position = Ok total_height) <->
  - BICUBIC_OCTAVE_EDGE < relative_position.1 < 2 * BICUBIC_OCTAVE_EDGE /\
  - BICUBIC_OCTAVE_EDGE < relative_position.2 < 2 * BICUBIC_OCTAVE_EDGE.
Proof.
  intros HE.
  rewrite <- !(quot_0_or_1 _ _ HE).
  change (Z.quot relative_position.1 BICUBIC_OCTAVE_EDGE) with (octave_index relative_position).1.
  change (Z.quot relative_position.2 BICUBIC_OCTAVE_EDGE) with (octave_index relative_position).2.
  rewrite <- (get_octave_patch_is_Some features).
  unfold total_height_at.
  destruct (get_octave_patch features (octave_index relative_position)) as [patch|].
  - split; [intros _; eauto | intros _; eauto].
  - split; [intros [th Hth]; discriminate | intros [patch Hp]; discriminate].
Qed.

(** ** Which patch a block column is given *)

(** X11.  The octave patch of a block column.  The constructor of
    [RegionFeatures] anchors the octave patch [i][j] at
    [position + (i, j) * BICUBIC_OCTAVE_EDGE] with the octave edge as its
    size, and [generate_chunk_column] indexes the patches with the
    relative position divided by the edge: the patch a block column is
    given is the one whose square holds the column, built from the octave
    seed, and the position it is sampled at has the column's offset in
    that square as its numerators. *)
Theorem octave_patch_holds_column {constants : Constants}
    (world_seed : Z) (position : Vector2i)
    (fundamental_features octave_features : BicubicPatchFeatures)
    (relative_position : Vector2i) :
  0 < BICUBIC_OCTAVE_EDGE ->
  0 <= relative_position.1 < 2 * BICUBIC_OCTAVE_EDGE ->
  0 <= relative_position.2 < 2 * BICUBIC_OCTAVE_EDGE ->
  exists anchor : Vector2i,
    get_octave_patch
      (@RegionFeatures_new constants Recording.noise world_seed position
         fundamental_features octave_features)
      (octave_index relative_position)
    = Some (Z.lxor world_seed 0xfea873529eaf, anchor,
            (BICUBIC_OCTAVE_EDGE, BICUBIC_OCTAVE_EDGE)) /\
    anchor.1 <= position.1 + relative_position.1 < anchor.1 + BICUBIC_OCTAVE_EDGE /\
    anchor.2 <= position.2 + relative_position.2 < anchor.2 + BICUBIC_OCTAVE_EDGE /\
    position.1 + relative_position.1 - anchor.1
      = Z.rem relative_position.1 BICUBIC_OCTAVE_EDGE /\
    position.2 + relative_position.2 - anchor.2
      = Z.rem relative_position.2 BICUBIC_OCTAVE_EDGE.
Proof.
  intros HE H1 H2.
  destruct position as [px pz], relative_position as [rx rz]. cbn [fst snd] in *.
  unfold octave_index. cbn [fst snd].
  rewrite !Z.quot_div_nonneg, !Z.rem_mod_nonneg by lia.
  assert (Hne : BICUBIC_OCTAVE_EDGE <> 0) by lia.
  pose proof (Z.div_mod rx BICUBIC_OCTAVE_EDGE Hne) as Hx.
  pose proof (Z.div_mod rz BICUBIC_OCTAVE_EDGE Hne) as Hz.
  pose proof (Z.mod_pos_bound rx BICUBIC_OCTAVE_EDGE HE) as Hmx.
  pose proof (Z.mod_pos_bound rz BICUBIC_OCTAVE_EDGE HE) as Hmz.
  assert (Hq : forall a, 0 <= a < 2 * BICUBIC_OCTAVE_EDGE ->
            a / BICUBIC_OCTAVE_EDGE = 0 \/ a / BICUBIC_OCTAVE_EDGE = 1).
  { intros a Ha.
    assert (0 <= a / BICUBIC_OCTAVE_EDGE) by (apply Z.div_pos; lia).
    assert (a / BICUBIC_OCTAVE_EDGE < 2) by (apply Z.div_lt_upper_bound; lia).
    lia. }
  destruct (Hq rx H1) as [Hqx|Hqx], (Hq rz H2) as [Hqz|Hqz];
    rewrite Hqx, Hqz in *; simpl get_octave_patch;
    eexists; (split; [reflexivity|]); unfold Vector2i_add; cbn [fst snd]; lia.
Qed.

(** ** The number of chunks *)

Section CountProofs.
Context {constants : Constants} {noise : Noise} {random : Random}.
Hypothesis SIZE_Y_pos : 0 < SIZE_Y.

Lemma div_succ_le (a : Z) : (a + 1) / SIZE_Y <= a / SIZE_Y + 1.
Proof.
  replace (a / SIZE_Y + 1) with ((a + 1 * SIZE_Y) / SIZE_Y)
    by (rewrite Z.div_add by lia; reflexivity).
  apply Z.div_le_mono; lia.
Qed.

(** [get_block] allocates when, and only when, the height lies above the
    chunks there are. *)
Lemma get_block_topped (chunks : ChunkV) (column_position : Vector2i) (x z h M : Z) :
  topped chunks M -> to_unsigned h <= M + 1 ->
  holds any_fault (fun bc => topped bc.2 (Z.max M (to_unsigned h)))
    (get_block chunks column_position x z h).
Proof.
  unfold topped, get_block. intros Hlen Hh.
  pose proof (to_unsigned_range h) as Hu.
  set (u := to_unsigned h) in *.
  pose proof (div_succ_le M) as Hsucc.
  assert (Hmono : forall a b, a <= b -> a / SIZE_Y <= b / SIZE_Y)
    by (intros a b Hab; apply Z.div_le_mono; lia).
  destruct (Z.leb_spec (Z.of_nat (length chunks)) (u / SIZE_Y)) as [Hge|Hlt].
  - assert (HM : M < u).
    { destruct (Z.lt_ge_cases M u) as [Hc|Hc]; [exact Hc|]. pose proof (Hmono u M Hc). lia. }
    pose proof (Hmono u (M + 1) Hh) as Hm1.
    case_match; [|exact I]. case_match; [|exact I]. simpl.
    rewrite length_app. simpl length. replace (Z.max M u) with u by lia. lia.
  - case_match; [|exact I]. case_match; [|exact I]. simpl.
    destruct (Z.le_gt_cases u M) as [Hc|Hc].
    + replace (Z.max M u) with M by lia. exact Hlen.
    + replace (Z.max M u) with u by lia.
      assert (Hle : M <= u) by lia. pose proof (Hmono M u Hle). lia.
Qed.

Lemma topped_set_material (b : BlockRef) (m : BlockMaterial) (chunks : ChunkV) (M : Z) :
  topped chunks M -> topped (set_material b m chunks) M.
Proof. unfold topped. now rewrite length_set_material. Qed.

Lemma layer_block_topped (features : RegionFeatures) (column_position relative_position : Vector2i)
    (x z : Z) (material : BlockMaterial) (y M : Z) (chunks : ChunkV) :
  0 <= y < 2 ^ 32 -> topped chunks M -> y <= M + 1 ->
  holds any_fault (fun chunks' => topped chunks' (Z.max M y))
    (layer_block features column_position relative_position x z material y chunks).
Proof.
  intros Hy Ht Hle. unfold layer_block.
  eapply holds_bind.
  - apply get_block_topped; [exact Ht | now rewrite to_unsigned_id].
  - intros [block chunks'] Ht'. simpl in Ht'. rewrite to_unsigned_id in Ht' by exact Hy.
    repeat case_match; simpl; now apply topped_set_material.
Qed.

Lemma layer_bands_topped (features : RegionFeatures) (column_position relative_position : Vector2i)
    (x z : Z) (ls : list (BlockMaterial * Scalar)) (bottom M : Z) (chunks : ChunkV) :
  Forall (fun layer => short layer.2) ls ->
  short_int bottom -> 0 <= bottom < 2 ^ 32 ->
  topped chunks M -> bottom <= M + 1 ->
  holds any_fault
    (fun bc => bottom <= bc.1 < 2 ^ 32 /\ (ls = [] -> bc.1 = bottom) /\
               topped bc.2 (match ls with [] => M | _ => Z.max M bc.1 end))
    (layer_bands features column_position relative_position x z ls bottom chunks).
Proof.
  revert bottom M chunks.
  induction ls as [|[material second] ls IH]; intros bottom M chunks Hls Hs Hb Ht Hle.
  - simpl. split; [lia|]. split; [reflexivity | exact Ht].
  - cbn [layer_bands]. inversion Hls as [|? ? Hsecond Hls']. subst. simpl in Hsecond.
    destruct (band_top second bottom) as [top|] eqn:Htop; [|exact I].
    pose proof (band_top_range _ _ _ Htop) as Hrange.
    destruct (band_top_grows second bottom top Hsecond Hs Hb Htop) as (Hgrow & _ & Hs1).
    eapply holds_bind.
    + apply (holds_for_each_range any_fault
               (fun y chunks' => topped chunks' (Z.max M (y - 1)))).
      * intros y chunks' Hy Ht'.
        eapply holds_weaken;
          [apply layer_block_topped; [lia | exact Ht' | lia]|].
        intros chunks'' Ht''. replace (y + 1 - 1) with y by lia.
        replace (Z.max M y) with (Z.max (Z.max M (y - 1)) y) by lia. exact Ht''.
      * replace (Z.max M (bottom - 1)) with M by lia. exact Ht.
    + intros chunks' Ht'. cbv beta in Ht'.
      replace (Z.max bottom (top + 1) - 1) with top in Ht' by lia.
      eapply holds_weaken;
        [apply (IH top (Z.max M top));
           [exact Hls' | exact Hs1 | exact Hrange | exact Ht' | lia]|].
      intros [top' chunks''] (Hle' & Hnil & Ht''). simpl in *. split; [lia|].
      split; [discriminate|].
      destruct ls as [|layer ls].
      * rewrite (Hnil eq_refl). exact Ht''.
      * replace (Z.max M top') with (Z.max (Z.max M top) top') by lia. exact Ht''.
Qed.

Lemma generate_block_column_topped (features : RegionFeatures)
    (region_position column_position : Vector2i) (x z M : Z)
    (state : ChunkV * ChunkHeightmap) :
  - 1 <= M -> topped state.1 M ->
  holds any_fault
    (fun state' => exists top,
       0 <= top < 2 ^ 32 /\ topped state'.1 (Z.max M top) /\
       state'.2 = <[(x, z) := to_int top]> state.2)
    (generate_block_column features region_position column_position x z state).
Proof.
  intros HM Ht. unfold generate_block_column.
  destruct (total_height_at _ _) as [total_height|f]; [|exact I].
  cbv beta iota delta [mbind result_bind].
  eapply holds_bind.
  - apply (layer_bands_topped features column_position _ x z (layers total_height) 0 M);
      [apply layers_short | apply short_int_0 | lia | exact Ht | lia].
  - intros [top chunks] (Htop & _ & Ht'). simpl in *.
    exists top. split; [lia|]. split; [exact Ht' | reflexivity].
Qed.

Lemma columns_counted_ext (done done' : Z -> Z -> Prop) (state : ChunkV * ChunkHeightmap) :
  (forall x z, 0 <= x < SIZE_X -> 0 <= z < SIZE_Z -> done x z <-> done' x z) ->
  columns_counted done state -> columns_counted done' state.
Proof.
  intros Hext (M & HM & Ht & Hall & Hmax). exists M. split; [exact HM|]. split; [exact Ht|].
  split.
  - intros x z Hx Hz Hd. apply (Hall x z Hx Hz). now apply Hext.
  - destruct Hmax as [[-> Hnone]|(x & z & Hx & Hz & Hd & Hk)].
    + left. split; [reflexivity|]. intros x z Hx Hz Hd. apply (Hnone x z Hx Hz). now apply Hext.
    + right. exists x, z. split; [lia|]. split; [lia|]. split; [now apply Hext | exact Hk].
Qed.

Lemma columns_counted_step (features : RegionFeatures)
    (region_position column_position : Vector2i)
    (done : Z -> Z -> Prop) (x0 z0 : Z) (state : ChunkV * ChunkHeightmap) :
  0 <= x0 < SIZE_X -> 0 <= z0 < SIZE_Z -> ~ done x0 z0 ->
  columns_counted done state ->
  holds any_fault
    (columns_counted (fun x z => done x z \/ (x = x0 /\ z = z0)))
    (generate_block_column features region_position column_position x0 z0 state).
Proof.
  intros Hx0 Hz0 Hnew (M & HM & Ht & Hall & Hmax).
  eapply holds_weaken;
    [apply (generate_block_column_topped features region_position column_position
              x0 z0 M state); [lia | exact Ht]|].
  intros state' (top & Htop & Ht' & Hheights).
  assert (Hkeep : forall x z, done x z -> state'.2 !! (x, z) = state.2 !! (x, z)).
  { intros x z Hd. rewrite Hheights. apply lookup_insert_ne. intros [= -> ->]. tauto. }
  exists (Z.max M top). split; [lia|]. split; [exact Ht'|]. split.
  - intros x z Hx Hz [Hd|[-> ->]].
    + destruct (Hall x z Hx Hz Hd) as (t & Hk & Hle). exists t.
      rewrite (Hkeep x z Hd). split; [exact Hk | lia].
    + exists top. rewrite Hheights, lookup_insert_eq. split; [reflexivity | lia].
  - right. destruct (Z.le_gt_cases M top) as [Hle|Hgt].
    + exists x0, z0. split; [lia|]. split; [lia|]. split; [now right|].
      replace (Z.max M top) with top by lia. rewrite Hheights. apply lookup_insert_eq.
    + destruct Hmax as [[-> _]|(x & z & Hx & Hz & Hd & Hk)]; [lia|].
      exists x, z. split; [lia|]. split; [lia|]. split; [now left|].
      replace (Z.max M top) with M by lia. rewrite (Hkeep x z Hd). exact Hk.
Qed.

Lemma generate_chunk_column_counted (features : RegionFeatures)
    (region_position column_position : Vector2i) :
  holds any_fault (columns_counted (fun x z => True))
    (generate_chunk_column [] features region_position column_position ∅).
Proof.
  unfold generate_chunk_column.
  eapply holds_weaken.
  - apply (holds_for_each_range any_fault
             (fun i => columns_counted (fun x z => x < i))).
    + intros x0 state Hx0 Hstate.
      eapply holds_weaken.
      * apply (holds_for_each_range any_fault
                 (fun j => columns_counted (fun x z => x < x0 \/ (x = x0 /\ z < j)))).
        -- intros z0 state' Hz0 Hstate'.
           eapply holds_weaken.
           ++ apply (columns_counted_step features region_position column_position
                       (fun x z => x < x0 \/ (x = x0 /\ z < z0)));
                [lia | lia | cbv beta; lia | exact Hstate'].
           ++ intros state''. apply columns_counted_ext. intros x z Hx Hz. lia.
        -- revert Hstate. apply columns_counted_ext. intros x z Hx Hz. lia.
      * intros state'. apply columns_counted_ext. intros x z Hx Hz. lia.
    + exists (- 1). split; [lia|]. split.
      * unfold topped. simpl.
        assert (Hq : -1 / SIZE_Y = -1)
          by (symmetry; apply (Z.div_unique_pos (-1) SIZE_Y (-1) (SIZE_Y - 1)); lia).
        rewrite Hq. reflexivity.
      * split; [intros x z Hx Hz Hd; lia|]. left. split; [reflexivity|]. intros x z Hx Hz. lia.
  - intros state. apply columns_counted_ext. intros x z Hx Hz. simpl. lia.
Qed.

End CountProofs.

(** X12.  The number of chunks of a chunk column.  [generate_chunk_column]
    allocates exactly the chunks its highest block column needs: the
    chunk vector it leaves has [M / SIZE_Y + 1] chunks, where [M] is the
    greatest height in the height map. *)
Theorem generate_chunk_column_chunk_count
    {constants : Constants} {noise : Noise} {random : Random}
    (features : RegionFeatures) (region_position column_position : Vector2i) :
  0 < SIZE_Y -> 0 < SIZE_X -> 0 < SIZE_Z ->
  holds any_fault
    (fun state : ChunkV * ChunkHeightmap =>
       exists M, 0 <= M < 2 ^ 32 /\
         Z.of_nat (length state.1) = M / SIZE_Y + 1 /\
         (exists x z, 0 <= x < SIZE_X /\ 0 <= z < SIZE_Z /\
                      state.2 !! (x, z) = Some (to_int M)) /\
         (forall x z, 0 <= x < SIZE_X -> 0 <= z < SIZE_Z ->
            exists top, state.2 !! (x, z) = Some (to_int top) /\ 0 <= top <= M))
    (generate_chunk_column [] features region_position column_position ∅).
Proof.
  intros HY HX HZ.
  eapply holds_weaken;
    [apply (generate_chunk_column_counted HY features region_position column_position)|].
  intros state (M & HM & Ht & Hall & Hmax).
  destruct Hmax as [[-> Hnone]|(x & z & Hx & Hz & _ & Hk)].
  - exfalso. apply (Hnone 0 0); [lia | lia | exact I].
  - destruct (Hall x z Hx Hz I) as (t & _ & Ht0).
    exists M. split; [lia|]. split; [exact Ht|]. split; [eauto 6|].
    intros x' z' Hx' Hz'. now apply Hall.
Qed.

(** * More theorems at sample inputs *)

Lemma generate_region_returns_witness :
  0 < @SIZE_Y Sample.constants /\
  exists chunks,
    (@generate_region Sample.constants Flat.noise Sample.random
       (WorldGenerator_new 42) (0, 0)).1 = Ok chunks.
Proof.
  split; [reflexivity|].
  apply (@generate_region_returns Sample.constants Flat.noise Sample.random
           (WorldGenerator_new 42) (0, 0)).
  - reflexivity.
  - vm_compute. split; discriminate.
  - vm_compute. split; discriminate.
  - reflexivity.
  - vm_compute. discriminate.
  - exact sample_uniform_int_in_range.
  - apply flat_heights_bounded.
Defined.

Lemma generate_chunk_column_layers_witness :
  0 < @SIZE_Y Sample.constants /\
  @SIZE_X Sample.constants <= 2 ^ 31 /\ @SIZE_Z Sample.constants <= 2 ^ 31 /\
  holds any_fault
    (fun state : ChunkV * ChunkHeightmap =>
       forall x z, 0 <= x < @SIZE_X Sample.constants -> 0 <= z < @SIZE_Z Sample.constants ->
       exists total_height t1 t2 t3 t4 t5,
         @total_height_at Sample.constants Sample.solid Sample.solid_features
           (Vector2i_add (Vector2i_sub (0, 0) (0, 0)) (x, z)) = Ok total_height /\
         band_tops (layers total_height) 0 = Some [1; t1; t2; t3; t4; t5] /\
         2 <= t1 <= t2 /\ t2 <= t3 <= t4 /\ t4 <= t5 < 2 ^ 32 /\ 6 <= t5 /\
         state.2 !! (x, z) = Some (to_int t5) /\
         forall y, 0 <= y < 2 ^ 32 ->
           @material_at Sample.constants state.1 x y z =
           @column_material Sample.constants Sample.solid Sample.solid_features
             (Vector2i_add (Vector2i_sub (0, 0) (0, 0)) (x, z)) t1 t2 t3 t4 t5 y)
    (@generate_chunk_column Sample.constants Sample.solid [] Sample.solid_features
       (0, 0) (0, 0) ∅).
Proof.
  split; [reflexivity|]. split; [simpl; lia|]. split; [simpl; lia|].
  apply (@generate_chunk_column_layers Sample.constants Sample.solid Sample.random
           Sample.solid_features (0, 0) (0, 0)).
  - reflexivity.
  - simpl; lia.
  - simpl; lia.
Defined.

Lemma magma_floor_witness :
  0 < @SIZE_Y Sample.constants /\
  @SIZE_X Sample.constants <= 2 ^ 31 /\ @SIZE_Z Sample.constants <= 2 ^ 31 /\
  holds any_fault
    (fun state : ChunkV * ChunkHeightmap =>
       forall x z, 0 <= x < @SIZE_X Sample.constants -> 0 <= z < @SIZE_Z Sample.constants ->
       @material_at Sample.constants state.1 x 0 z = BLOCK_MATERIAL_MAGMA /\
       forall y, 1 <= y < 2 ^ 32 ->
                 @material_at Sample.constants state.1 x y z ≠ BLOCK_MATERIAL_MAGMA)
    (@generate_chunk_column Sample.constants Sample.hollow [] Sample.hollow_features
       (0, 0) (0, 0) ∅).
Proof.
  split; [reflexivity|]. split; [simpl; lia|]. split; [simpl; lia|].
  apply (@magma_floor Sample.constants Sample.hollow Sample.random
           Sample.hollow_features (0, 0) (0, 0)).
  - reflexivity.
  - simpl; lia.
  - simpl; lia.
Defined.

Lemma get_block_write_read_witness :
  @get_block Sample.constants [] (0, 0) 3 5 7
    = Ok (@block_ref Sample.constants 3 5 7, [new_Chunk (0, 7, 0)]) /\
  @material_at Sample.constants
    (set_material (@block_ref Sample.constants 3 5 7) BLOCK_MATERIAL_STONE
                  [new_Chunk (0, 7, 0)]) 3 7 5 = BLOCK_MATERIAL_STONE /\
  @material_at Sample.constants
    (set_material (@block_ref Sample.constants 3 5 7) BLOCK_MATERIAL_STONE
                  [new_Chunk (0, 7, 0)]) 3 8 5 = BLOCK_MATERIAL_AIR.
Proof.
  assert (Hget : @get_block Sample.constants [] (0, 0) 3 5 7
                 = Ok (@block_ref Sample.constants 3 5 7, [new_Chunk (0, 7, 0)]))
    by reflexivity.
  split; [exact Hget|]. split.
  - rewrite (@get_block_write_read Sample.constants [] [new_Chunk (0, 7, 0)] (0, 0) 3 5 7
               (@block_ref Sample.constants 3 5 7) BLOCK_MATERIAL_STONE 3 5 7);
      [reflexivity | reflexivity | simpl; lia | simpl; lia | lia | lia | lia | lia
       | simpl; lia | simpl; lia | exact Hget].
  - rewrite (@get_block_write_read Sample.constants [] [new_Chunk (0, 7, 0)] (0, 0) 3 5 7
               (@block_ref Sample.constants 3 5 7) BLOCK_MATERIAL_STONE 3 5 8);
      [reflexivity | reflexivity | simpl; lia | simpl; lia | lia | lia | lia | lia
       | simpl; lia | simpl; lia | exact Hget].
Defined.

Lemma generate_region_stacks_witness :
  0 < @SIZE_Y Sample.constants /\
  @SIZE_X Sample.constants <= 2 ^ 31 /\ @SIZE_Z Sample.constants <= 2 ^ 31 /\
  holds any_fault
    (fun chunks => exists stacks : list ChunkV,
       chunks = concat stacks /\
       Forall2 (@column_stack Sample.constants) (@region_columns Sample.constants (0, 0)) stacks)
    (@generate_region Sample.constants Sample.solid Sample.random
       (WorldGenerator_new 42) (0, 0)).1.
Proof.
  split; [reflexivity|]. split; [simpl; lia|]. split; [simpl; lia|].
  apply (@generate_region_stacks Sample.constants Sample.solid Sample.random
           (WorldGenerator_new 42) (0, 0)).
  - reflexivity.
  - simpl; lia.
  - simpl; lia.
Defined.

Lemma sample_tree_site :
  Sample.ground_heights !! @tree_site Sample.constants Sample.solid Sample.random 42 (0, 0)
  = Some 3.
Proof. vm_compute. reflexivity. Qed.

Lemma populate_trees_shape_witness :
  holds any_fault
    (fun chunks' =>
       forall x y z, 0 <= x < @SIZE_X Sample.constants -> 0 <= z < @SIZE_Z Sample.constants ->
                     0 <= y < 2 ^ 32 ->
         @material_at Sample.constants chunks' x y z =
         if decide (@material_at Sample.constants Sample.ground
                      (@tree_site Sample.constants Sample.solid Sample.random 42 (0, 0)).1 3
                      (@tree_site Sample.constants Sample.solid Sample.random 42 (0, 0)).2
                    = BLOCK_MATERIAL_GRASS)
         then tree_block (@tree_site Sample.constants Sample.solid Sample.random 42 (0, 0)).1
                         (@tree_site Sample.constants Sample.solid Sample.random 42 (0, 0)).2 3
                         (@tree_shape Sample.constants Sample.solid Sample.random 42 (0, 0)).1
                         (@tree_shape Sample.constants Sample.solid Sample.random 42 (0, 0)).2
                         x y z (@material_at Sample.constants Sample.ground x y z)
         else @material_at Sample.constants Sample.ground x y z)
    (@populate_trees Sample.constants Sample.solid Sample.random 42 Sample.ground (0, 0)
       Sample.ground_heights).
Proof.
  apply (@populate_trees_shape Sample.constants Sample.solid Sample.random 42
           Sample.ground (0, 0) Sample.ground_heights 3).
  - reflexivity.
  - simpl; lia.
  - simpl; lia.
  - exact sample_uniform_int_in_range.
  - exact sample_tree_site.
  - lia.
  - unfold MAX_TREE_HEIGHT; lia.
Defined.

Lemma populate_trees_idempotent_witness :
  holds any_fault
    (fun chunks' =>
       holds any_fault
         (fun chunks'' =>
            forall x y z, 0 <= x < @SIZE_X Sample.constants ->
                          0 <= z < @SIZE_Z Sample.constants -> 0 <= y < 2 ^ 32 ->
              @material_at Sample.constants chunks'' x y z
              = @material_at Sample.constants chunks' x y z)
         (@populate_trees Sample.constants Sample.solid Sample.random 42 chunks' (0, 0)
            Sample.ground_heights))
    (@populate_trees Sample.constants Sample.solid Sample.random 42 Sample.ground (0, 0)
       Sample.ground_heights).
Proof.
  apply (@populate_trees_idempotent Sample.constants Sample.solid Sample.random 42
           Sample.ground (0, 0) Sample.ground_heights 3).
  - reflexivity.
  - simpl; lia.
  - simpl; lia.
  - exact sample_uniform_int_in_range.
  - exact sample_tree_site.
  - lia.
  - unfold MAX_TREE_HEIGHT; lia.
Defined.

Lemma trees_replace_air_only_witness :
  holds any_fault
    (fun state : ChunkV * ChunkHeightmap =>
       (forall bottom,
          state.2 !! @tree_site Sample.constants Sample.solid Sample.random 42 (0, 0)
            = Some bottom -> 0 <= bottom) ->
       holds any_fault
         (fun chunks' =>
            forall x y z, 0 <= x < @SIZE_X Sample.constants ->
                          0 <= z < @SIZE_Z Sample.constants -> 0 <= y < 2 ^ 32 ->
              @material_at Sample.constants chunks' x y z
                = @material_at Sample.constants state.1 x y z \/
              @material_at Sample.constants state.1 x y z = BLOCK_MATERIAL_AIR)
         (@populate_trees Sample.constants Sample.solid Sample.random 42 state.1 (0, 0)
            state.2))
    (@generate_chunk_column Sample.constants Sample.solid [] Sample.solid_features
       (0, 0) (0, 0) ∅).
Proof.
  apply (@trees_replace_air_only Sample.constants Sample.solid Sample.random 42
           Sample.solid_features (0, 0) (0, 0)).
  - reflexivity.
  - simpl; lia.
  - simpl; lia.
  - exact sample_uniform_int_in_range.
Defined.

Lemma tree_stays_in_its_box_witness :
  holds any_fault
    (fun chunks' =>
       forall x y z, 0 <= x < @SIZE_X Sample.constants -> 0 <= z < @SIZE_Z Sample.constants ->
                     0 <= y < 2 ^ 32 ->
         y <= 3 \/ 3 + MAX_TREE_HEIGHT <= y \/
         MAX_TREE_RADIUS
           < Z.abs (x - (@tree_site Sample.constants Sample.solid Sample.random 42 (0, 0)).1) \/
         MAX_TREE_RADIUS
           < Z.abs (z - (@tree_site Sample.constants Sample.solid Sample.random 42 (0, 0)).2) ->
         @material_at Sample.constants chunks' x y z
         = @material_at Sample.constants Sample.ground x y z)
    (@populate_trees Sample.constants Sample.solid Sample.random 42 Sample.ground (0, 0)
       Sample.ground_heights).
Proof.
  apply (@tree_stays_in_its_box Sample.constants Sample.solid Sample.random 42
           Sample.ground (0, 0) Sample.ground_heights 3).
  - reflexivity.
  - simpl; lia.
  - simpl; lia.
  - exact sample_uniform_int_in_range.
  - exact sample_tree_site.
  - lia.
  - unfold MAX_TREE_HEIGHT; lia.
Defined.

Lemma octave_patch_bounds_witness :
  0 < @BICUBIC_OCTAVE_EDGE Sample.constants /\
  ((exists total_height,
      @total_height_at Sample.constants Sample.solid Sample.solid_features (3, 128)
      = Ok total_height) <->
   - @BICUBIC_OCTAVE_EDGE Sample.constants < 3 < 2 * @BICUBIC_OCTAVE_EDGE Sample.constants /\
   - @BICUBIC_OCTAVE_EDGE Sample.constants < 128 < 2 * @BICUBIC_OCTAVE_EDGE Sample.constants).
Proof.
  split; [reflexivity|].
  apply (@octave_patch_bounds Sample.constants Sample.solid Sample.solid_features (3, 128)).
  reflexivity.
Defined.

Lemma octave_patch_holds_column_witness :
  exists anchor : Vector2i,
    @get_octave_patch Recording.noise
      (@RegionFeatures_new Sample.constants Recording.noise 42 (0, 0)
         fundamental_features octave_features)
      (@octave_index Sample.constants (70, 3))
    = Some (Z.lxor 42 0xfea873529eaf, anchor,
            (@BICUBIC_OCTAVE_EDGE Sample.constants, @BICUBIC_OCTAVE_EDGE Sample.constants)) /\
    anchor.1 <= 0 + 70 < anchor.1 + @BICUBIC_OCTAVE_EDGE Sample.constants /\
    anchor.2 <= 0 + 3 < anchor.2 + @BICUBIC_OCTAVE_EDGE Sample.constants /\
    0 + 70 - anchor.1 = Z.rem 70 (@BICUBIC_OCTAVE_EDGE Sample.constants) /\
    0 + 3 - anchor.2 = Z.rem 3 (@BICUBIC_OCTAVE_EDGE Sample.constants).
Proof.
  apply (@octave_patch_holds_column Sample.constants 42 (0, 0)
           fundamental_features octave_features (70, 3)).
  - reflexivity.
  - simpl; lia.
  - simpl; lia.
Defined.

Lemma generate_chunk_column_chunk_count_witness :
  holds any_fault
    (fun state : ChunkV * ChunkHeightmap =>
       exists M, 0 <= M < 2 ^ 32 /\
         Z.of_nat (length state.1) = M / @SIZE_Y Sample.constants + 1 /\
         (exists x z, 0 <= x < @SIZE_X Sample.constants /\ 0 <= z < @SIZE_Z Sample.constants /\
                      state.2 !! (x, z) = Some (to_int M)) /\
         (forall x z, 0 <= x < @SIZE_X Sample.constants -> 0 <= z < @SIZE_Z Sample.constants ->
            exists top, state.2 !! (x, z) = Some (to_int top) /\ 0 <= top <= M))
    (@generate_chunk_column Sample.constants Sample.solid [] Sample.solid_features
       (0, 0) (0, 0) ∅).
Proof.
  apply (@generate_chunk_column_chunk_count Sample.constants Sample.solid Sample.random
           Sample.solid_features (0, 0) (0, 0)); reflexivity.
Defined.

Lemma layer_bands_tops_ascend_witness :
  below 18 (Float.of_int (-1000)) /\
  0 < @SIZE_Y Sample.constants /\
  @SIZE_X Sample.constants <= 2 ^ 31 /\ @SIZE_Z Sample.constants <= 2 ^ 31 /\
  0 <= 3 < @SIZE_X Sample.constants /\ 0 <= 5 < @SIZE_Z Sample.constants /\
  exists t1 t2 t3 t4 t5 chunks',
    @layer_bands Sample.constants Sample.solid Sample.solid_features (0, 0) (3, 5) 3 5
      (layers (Float.of_int (-1000))) 0 [] = Ok (t5, chunks') /\
    band_tops (layers (Float.of_int (-1000))) 0 = Some [1; t1; t2; t3; t4; t5] /\
    1 < t1 /\ t1 < t2 /\ t2 < t3 /\ t3 < t4 /\ t4 < t5 /\ t5 < 2 ^ 32 /\
    forall y, 0 <= y < 2 ^ 32 ->
      @material_at Sample.constants chunks' 3 y 5 =
      if y <=? t5
      then @column_material Sample.constants Sample.solid Sample.solid_features (3, 5)
             t1 t2 t3 t4 t5 y
      else @material_at Sample.constants [] 3 y 5.
Proof.
  assert (H : below 18 (Float.of_int (-1000))) by (split; [reflexivity|vm_compute; discriminate]).
  assert (HY : 0 < @SIZE_Y Sample.constants) by reflexivity.
  assert (HX : @SIZE_X Sample.constants <= 2 ^ 31) by (simpl; lia).
  assert (HZ : @SIZE_Z Sample.constants <= 2 ^ 31) by (simpl; lia).
  assert (Hx : 0 <= 3 < @SIZE_X Sample.constants) by (simpl; lia).
  assert (Hz : 0 <= 5 < @SIZE_Z Sample.constants) by (simpl; lia).
  repeat (split; [assumption|]).
  exact (@layer_bands_tops_ascend Sample.constants Sample.solid Sample.random
           Sample.solid_features (0, 0) (3, 5) 3 5 (Float.of_int (-1000)) [] H HY HX HZ Hx Hz).
Defined.

Lemma varied_same_in_domain :
  same_in_domain Varied.noise Varied.guarded_patch Varied.guarded_box.
Proof.
  split; intros a position Hin.
  - unfold Varied.guarded_patch. rewrite Hin. reflexivity.
  - unfold Varied.guarded_box. rewrite Hin. reflexivity.
Qed.

